(** * Enrichment job engine (server.cjs): a shallow embedding and its properties

    The server's core is embedded function by function: the Remote Client
    ([blitzPost]), the Pagination Driver ([findAllEmployees]), the Experience
    Resolver ([getCurrentExperience]), the Orchestrator ([runEnrichment] with
    the [.catch] handler that the submission route attaches), [broadcast] and
    the download route.

    - A JavaScript string is its sequence of UTF-16 code units.
    - A JavaScript value is a JSON value or [undefined].
    - Asynchronous code is sequential here (the engine awaits every call of a
      job in turn), so a job is a computation in a state-and-exception monad.
      The state is the job's [status], its [results] and the [trace] of the
      effects it has performed: outbound requests, sleeps and published
      snapshots.
    - The external provider is an arbitrary function from the trace so far
      (ending with the request being answered) to the outcome of that request.
    - [while (true)] in the Pagination Driver is bounded by fuel.

    The embedding comes first, then the vocabulary the properties are stated
    in (with the providers and jobs of the examples), then the proofs,
    component by component. *)

From Stdlib Require Import String Ascii.
From Stdlib Require Import List ZArith NArith Lia Bool Sorted.
Import ListNotations.

Set Implicit Arguments.
Set Warnings "-register-all".

(** ** Strings *)

Module JsString.

Definition t := list N.

Definition of_string (s : string) : t :=
  map N_of_ascii (list_ascii_of_string s).
Arguments of_string s%_string.

Fixpoint eqb (a b : t) : bool :=
  match a, b with
  | [], [] => true
  | x :: a', y :: b' => N.eqb x y && eqb a' b'
  | _, _ => false
  end.

(** [!s] for a string: the empty string is the only falsy one. *)
Definition is_empty (s : t) : bool :=
  match s with [] => true | _ :: _ => false end.

Fixpoint starts_with (p s : t) : bool :=
  match p, s with
  | [], _ => true
  | x :: p', y :: s' => N.eqb x y && starts_with p' s'
  | _ :: _, [] => false
  end.

(** [s.includes(sub)] *)
Fixpoint includes (sub s : t) : bool :=
  starts_with sub s ||
  match s with
  | [] => false
  | _ :: s' => includes sub s'
  end.

(** WhiteSpace and LineTerminator code points of ECMAScript, all of them in
    the Basic Multilingual Plane. *)
Definition is_space (c : N) : bool :=
  ((9 <=? c) && (c <=? 13) || (c =? 32) || (c =? 160) || (c =? 5760)
   || (8192 <=? c) && (c <=? 8202) || (c =? 8232) || (c =? 8233)
   || (c =? 8239) || (c =? 8287) || (c =? 12288) || (c =? 65279))%N.

Fixpoint trimStart (s : t) : t :=
  match s with
  | [] => []
  | c :: s' => if is_space c then trimStart s' else s
  end.

Definition trimEnd (s : t) : t := rev (trimStart (rev s)).

Definition trim (s : t) : t := trimEnd (trimStart s).

Definition slash : N := 47%N.

(** [s.replace(/\/$/, '')]: one trailing slash, if any, is removed. *)
Fixpoint strip_trailing_slash (s : t) : t :=
  match s with
  | [] => []
  | c :: s' =>
      match s' with
      | [] => if N.eqb c slash then [] else [c]
      | _ :: _ => c :: strip_trailing_slash s'
      end
  end.

(** [s.split(sep)] for a non-empty separator: matches are found left to
    right and do not overlap. [skip] counts the code units of the match in
    progress that are still to be dropped; [cur] is the piece being
    collected, reversed. *)
Fixpoint split_from (sep : t) (skip : nat) (cur : t) (s : t) : list t :=
  match s with
  | [] => [rev cur]
  | c :: s' =>
      match skip with
      | S k => split_from sep k cur s'
      | O =>
          if starts_with sep s
          then rev cur :: split_from sep (length sep - 1) [] s'
          else split_from sep 0 (c :: cur) s'
      end
  end.

Definition split (sep s : t) : list t := split_from sep 0 [] s.

(** [pieces.pop()] on the result of a split, which is never empty. *)
Definition pop (pieces : list t) : t := last pieces [].

Definition is_high_surrogate (c : N) : bool :=
  ((55296 <=? c) && (c <=? 56319))%N.
Definition is_low_surrogate (c : N) : bool :=
  ((56320 <=? c) && (c <=? 57343))%N.

(** Iterating a string (spread, [for ... of]) yields its code points: a
    surrogate pair is one item. *)
Fixpoint code_points (s : t) : list t :=
  match s with
  | [] => []
  | c :: s' =>
      match s' with
      | d :: s'' =>
          if is_high_surrogate c && is_low_surrogate d
          then [c; d] :: code_points s''
          else [c] :: code_points s'
      | [] => [[c]]
      end
  end.

End JsString.

Abbreviation ustring := JsString.t.
Abbreviation u := JsString.of_string.

(** ** Values *)

Inductive Value : Type :=
| VUndefined
| VNull
| VBool (b : bool)
| VNum (n : Z)
| VStr (s : ustring)
| VArr (items : list Value)
| VObj (fields : list (ustring * Value)).

(** The empty object literal and the empty string. *)
Definition empty_object : Value := VObj [].
Definition empty_string : Value := VStr [].

(** ToBoolean. Numbers are only tested and copied by the program, never
    computed with; integers stand for them. *)
Definition truthy (v : Value) : bool :=
  match v with
  | VUndefined | VNull => false
  | VBool b => b
  | VNum n => negb (n =? 0)%Z
  | VStr s => negb (JsString.is_empty s)
  | VArr _ | VObj _ => true
  end.

(** [a || b] where [b] is a literal. *)
Definition or_else (a b : Value) : Value := if truthy a then a else b.

Fixpoint lookup {A : Type} (key : ustring) (fields : list (ustring * A)) : option A :=
  match fields with
  | [] => None
  | (k, v) :: rest => if JsString.eqb k key then Some v else lookup key rest
  end.

Definition field (key : ustring) (fields : list (ustring * Value)) : Value :=
  match lookup key fields with
  | Some v => v
  | None => VUndefined
  end.

(** ** Job status *)

Inductive Phase : Type := Queued | Enriching | Done | Error.

Record Status : Type := {
  phase : Phase;
  companyCurrent : nat;
  companyTotal : nat;
  currentCompanyName : option ustring;
  employeesFound : nat;
  emailsFound : nat;
  phonesFound : nat;
  done : bool;
  error : option string
}.

(** The argument of [broadcast]: the fields present in the object literal. *)
Record Update : Type := {
  u_phase : option Phase;
  u_companyCurrent : option nat;
  u_currentCompanyName : option ustring;
  u_employeesFound : option nat;
  u_emailsFound : option nat;
  u_phonesFound : option nat;
  u_done : option bool;
  u_error : option string
}.

Definition merge {A : Type} (old : A) (new : option A) : A :=
  match new with
  | Some v => v
  | None => old
  end.

(** [Object.assign(job.status, update)] *)
Definition assign (st : Status) (up : Update) : Status :=
  {| phase := merge (phase st) (u_phase up);
     companyCurrent := merge (companyCurrent st) (u_companyCurrent up);
     companyTotal := companyTotal st;
     currentCompanyName :=
       match u_currentCompanyName up with
       | Some n => Some n
       | None => currentCompanyName st
       end;
     employeesFound := merge (employeesFound st) (u_employeesFound up);
     emailsFound := merge (emailsFound st) (u_emailsFound up);
     phonesFound := merge (phonesFound st) (u_phonesFound up);
     done := merge (done st) (u_done up);
     error :=
       match u_error up with
       | Some e => Some e
       | None => error st
       end |}.

(** ** Effects *)

Record Request : Type := {
  endpoint : ustring;
  body : Value;
  key : ustring
}.

Inductive Event : Type :=
| EFetch (r : Request)
| ESleep (ms : Z)
| EPublish (st : Status).

(** What one [fetch] attempt comes to: the promise rejects (network error, or
    the 30 second deadline), or a response arrives with its status and its
    body, [None] when [r.json()] would reject. *)
Inductive Outcome : Type :=
| Rejected
| Response (code : Z) (json : option Value).

Record State : Type := {
  status : Status;
  results : list Value;
  trace : list Event
}.

Inductive Exn : Type := TypeError (message : string).

Definition message_of (e : Exn) : string :=
  match e with TypeError m => m end.

Inductive Res (A : Type) : Type :=
| Ok (a : A)
| Throw (e : Exn)
| OutOfFuel.
Arguments Throw {A} e.
Arguments OutOfFuel {A}.

Definition M (A : Type) : Type := State -> Res A * State.

Definition ret {A : Type} (a : A) : M A := fun s => (Ok a, s).

Definition bind {A B : Type} (m : M A) (k : A -> M B) : M B :=
  fun s =>
    match m s with
    | (Ok a, s') => k a s'
    | (Throw e, s') => (Throw e, s')
    | (OutOfFuel, s') => (OutOfFuel, s')
    end.

Definition throw {A : Type} (e : Exn) : M A := fun s => (Throw e, s).

Definition out_of_fuel {A : Type} : M A := fun s => (OutOfFuel, s).

(** [m.catch(handler)] *)
Definition catch {A : Type} (m : M A) (handler : Exn -> M A) : M A :=
  fun s =>
    match m s with
    | (Throw e, s') => handler e s'
    | other => other
    end.

Notation "x <- m ;; k" := (bind m (fun x => k))
  (at level 61, m at next level, right associativity).
Notation "m ;;; k" := (bind m (fun _ => k))
  (at level 61, right associativity).

(** The state once one more effect is on record. *)
Definition log (e : Event) (s : State) : State :=
  {| status := status s; results := results s; trace := trace s ++ [e] |}.

Definition emit (e : Event) : M unit := fun s => (Ok tt, log e s).

(** [sleep(ms)] *)
Definition sleep (ms : Z) : M unit := emit (ESleep ms).

(** [broadcast(job, update)]: the merged snapshot is what every listener is
    sent. *)
Definition broadcast (up : Update) : M unit :=
  fun s =>
    let st := assign (status s) up in
    (Ok tt, {| status := st; results := results s;
               trace := trace s ++ [EPublish st] |}).

(** [job.results.push(row)] *)
Definition push_result (row : Value) : M unit :=
  fun s => (Ok tt, {| status := status s; results := results s ++ [row];
                      trace := trace s |}).

(** [v.name] for the property names the program reads, none of which is
    defined on a string, number, boolean or array. *)
Definition get (name : ustring) (v : Value) : M Value :=
  match v with
  | VUndefined => throw (TypeError "Cannot read properties of undefined")
  | VNull => throw (TypeError "Cannot read properties of null")
  | VObj fields => ret (field name fields)
  | _ => ret VUndefined
  end.

(** Spreading or iterating a value. *)
Definition iterate (v : Value) : M (list Value) :=
  match v with
  | VArr items => ret items
  | VStr s => ret (map VStr (JsString.code_points s))
  | _ => throw (TypeError "value is not iterable")
  end.

(** [v.length] of an array or a string. *)
Definition length_of (v : Value) : nat :=
  match v with
  | VArr items => length items
  | VStr s => length s
  | _ => 0
  end.

(** ** The engine *)

Definition PAGE_SIZE : nat := 50.
Definition DELAY_MS : Z := 150.

Definition search_endpoint : ustring := u "/v2/search/employee-finder".
Definition email_endpoint : ustring := u "/v2/enrichment/email".
Definition phone_endpoint : ustring := u "/v2/enrichment/phone".

(** One input record of the parsed table: column name to cell. *)
Definition Row : Type := list (ustring * ustring).

Record Job : Type := {
  rows : list Row;
  linkedinCol : ustring;
  nameCol : option ustring;
  domainCol : option ustring;
  locationCol : option ustring;
  sizeCol : option ustring;
  apiKey : ustring;
  skipPhone : bool
}.

(** The local counters of [runEnrichment]. *)
Record Tally : Type := {
  employees : nat;
  emails : nat;
  phones : nat
}.

Record Company : Type := {
  companyUrl : ustring;
  companyName : ustring;
  companyDomain : ustring;
  companyLocation : ustring;
  companySize : ustring
}.

(** [{ phase: 'enriching' }] *)
Definition update_enriching : Update :=
  {| u_phase := Some Enriching; u_companyCurrent := None;
     u_currentCompanyName := None; u_employeesFound := None;
     u_emailsFound := None; u_phonesFound := None; u_done := None;
     u_error := None |}.

(** [{ companyCurrent: i + 1, currentCompanyName: name }] *)
Definition update_company (i : nat) (name : ustring) : Update :=
  {| u_phase := None; u_companyCurrent := Some (i + 1);
     u_currentCompanyName := Some name; u_employeesFound := None;
     u_emailsFound := None; u_phonesFound := None; u_done := None;
     u_error := None |}.

(** [{ employeesFound }] *)
Definition update_employees (n : nat) : Update :=
  {| u_phase := None; u_companyCurrent := None; u_currentCompanyName := None;
     u_employeesFound := Some n; u_emailsFound := None; u_phonesFound := None;
     u_done := None; u_error := None |}.

(** [{ emailsFound }] *)
Definition update_emails (n : nat) : Update :=
  {| u_phase := None; u_companyCurrent := None; u_currentCompanyName := None;
     u_employeesFound := None; u_emailsFound := Some n; u_phonesFound := None;
     u_done := None; u_error := None |}.

(** [{ phonesFound }] *)
Definition update_phones (n : nat) : Update :=
  {| u_phase := None; u_companyCurrent := None; u_currentCompanyName := None;
     u_employeesFound := None; u_emailsFound := None; u_phonesFound := Some n;
     u_done := None; u_error := None |}.

(** [{ phase: 'done', done: true, employeesFound, emailsFound, phonesFound }] *)
Definition update_done (t : Tally) : Update :=
  {| u_phase := Some Done; u_companyCurrent := None;
     u_currentCompanyName := None; u_employeesFound := Some (employees t);
     u_emailsFound := Some (emails t); u_phonesFound := Some (phones t);
     u_done := Some true; u_error := None |}.

(** [{ phase: 'error', error: err.message, done: true }] *)
Definition update_error (e : Exn) : Update :=
  {| u_phase := Some Error; u_companyCurrent := None;
     u_currentCompanyName := None; u_employeesFound := None;
     u_emailsFound := None; u_phonesFound := None; u_done := Some true;
     u_error := Some (message_of e) |}.

(** [row[col] || ''] *)
Definition cell (row : Row) (col : ustring) : ustring :=
  match lookup col row with
  | Some v => v
  | None => []
  end.

(** [col ? (row[col] || '') : fallback] *)
Definition optional_cell (col : option ustring) (row : Row) (fallback : ustring) : ustring :=
  match col with
  | Some c => if JsString.is_empty c then fallback else cell row c
  | None => fallback
  end.

(** [r.ok] *)
Definition ok (code : Z) : bool := ((200 <=? code) && (code <=? 299))%Z.

(** The slug of [getCurrentExperience]:
    [companyUrl.replace(/\/$/, '').split('/company/').pop()] *)
Definition slug_of (url : ustring) : ustring :=
  JsString.pop (JsString.split (u "/company/") (JsString.strip_trailing_slash url)).

(** [x.includes(slug)]: the string method, the array method, or no method. *)
Definition includes_slug (x : Value) (slug : ustring) : M bool :=
  match x with
  | VStr s => ret (JsString.includes slug s)
  | VArr items =>
      ret (existsb (fun v => match v with
                             | VStr s => JsString.eqb s slug
                             | _ => false
                             end) items)
  | _ => throw (TypeError "includes is not a function")
  end.

(** [experiences[0]] *)
Definition first_item (v : Value) : Value :=
  match v with
  | VArr (x :: _) => x
  | VStr (c :: _) => VStr [c]
  | _ => VUndefined
  end.

(** The first loop of [getCurrentExperience]. *)
Fixpoint current_at_company (slug : ustring) (exps : list Value) : M (option Value) :=
  match exps with
  | [] => ret None
  | exp :: rest =>
      cur <- get (u "job_is_current") exp;;
      if truthy cur && negb (JsString.is_empty slug)
      then
        cid <- get (u "company_linkedin_url") exp;;
        hit <- includes_slug (or_else cid empty_string) slug;;
        if hit then ret (Some exp) else current_at_company slug rest
      else current_at_company slug rest
  end.

(** The second loop of [getCurrentExperience]. *)
Fixpoint any_current (exps : list Value) : M (option Value) :=
  match exps with
  | [] => ret None
  | exp :: rest =>
      cur <- get (u "job_is_current") exp;;
      if truthy cur then ret (Some exp) else any_current rest
  end.

Definition getCurrentExperience (experiences : Value) (url : ustring) : M Value :=
  let slug := slug_of url in
  exps <- iterate experiences;;
  matching <- current_at_company slug exps;;
  match matching with
  | Some exp => ret exp
  | None =>
      current <- any_current exps;;
      match current with
      | Some exp => ret exp
      | None => ret (or_else (first_item experiences) empty_object)
      end
  end.

Section Engine.

(** The external provider: the outcome of the request that ends the trace. *)
Variable provider : list Event -> Outcome.

Definition fetch (r : Request) : M Outcome :=
  fun s =>
    let s' := log (EFetch r) s in
    (Ok (provider (trace s')), s').

(** The [for] loop of [blitzPost] from iteration [attempt], with [remaining]
    iterations to go. *)
Fixpoint blitzPost_from (remaining : nat) (req : Request) (retries attempt : nat) : M Value :=
  match remaining with
  | O => ret empty_object
  | S remaining' =>
      let next := blitzPost_from remaining' req retries (S attempt) in
      let failed :=
        if attempt <? retries
        then sleep (1000 * (Z.of_nat attempt + 1));;; next
        else ret empty_object in
      outcome <- fetch req;;
      match outcome with
      | Rejected => failed
      | Response code json =>
          if (code =? 429)%Z
          then sleep (Z.min (1000 * 2 ^ Z.of_nat attempt) 16000);;; next
          else if ((code =? 422) || (code =? 404))%Z then ret empty_object
          else if negb (ok code) then failed
          else match json with
               | Some v => ret v
               | None => failed
               end
      end
  end.

Definition default_retries : nat := 4.

Definition blitzPost (ep : ustring) (payload : Value) (k : ustring) : M Value :=
  blitzPost_from (S default_retries)
    {| endpoint := ep; body := payload; key := k |} default_retries 0.

Definition search_body (url : ustring) (page : nat) : Value :=
  VObj [(u "company_linkedin_url", VStr url);
        (u "max_results", VNum (Z.of_nat PAGE_SIZE));
        (u "page", VNum (Z.of_nat page))].

(** The [while (true)] loop of [findAllEmployees]. *)
Fixpoint findAllEmployees_from (fuel : nat) (url k : ustring)
    (all : list Value) (page : nat) : M (list Value) :=
  match fuel with
  | O => out_of_fuel
  | S fuel' =>
      data <- blitzPost search_endpoint (search_body url page) k;;
      r <- get (u "results") data;;
      let found := or_else r (VArr []) in
      items <- iterate found;;
      let all' := all ++ items in
      if length_of found <? PAGE_SIZE then ret all'
      else sleep DELAY_MS;;; findAllEmployees_from fuel' url k all' (S page)
  end.

Definition findAllEmployees (fuel : nat) (url k : ustring) : M (list Value) :=
  findAllEmployees_from fuel url k [] 1.

Definition person_body (liUrl : Value) : Value :=
  VObj [(u "person_linkedin_url", liUrl)].

(** Lines 193-198: the email lookup of one employee. *)
Definition enrichEmail (job : Job) (liUrl : Value) (t : Tally) : M (Value * Value * Tally) :=
  emailData <- blitzPost email_endpoint (person_body liUrl) (apiKey job);;
  e <- get (u "email") emailData;;
  let email := or_else e empty_string in
  es <- get (u "email_status") emailData;;
  let emailStatus := or_else es empty_string in
  t' <- (if truthy email
         then
           let t' := {| employees := employees t; emails := emails t + 1;
                        phones := phones t |} in
           broadcast (update_emails (emails t'));;; ret t'
         else ret t);;
  sleep DELAY_MS;;;
  ret (email, emailStatus, t').

(** Lines 200-205: the phone lookup of one employee. *)
Definition enrichPhone (job : Job) (liUrl : Value) (t : Tally) : M (Value * Tally) :=
  if negb (skipPhone job)
  then
    phoneData <- blitzPost phone_endpoint (person_body liUrl) (apiKey job);;
    p <- get (u "phone") phoneData;;
    let phone := or_else p empty_string in
    t' <- (if truthy phone
           then
             let t' := {| employees := employees t; emails := emails t;
                          phones := phones t + 1 |} in
             broadcast (update_phones (phones t'));;; ret t'
           else ret t);;
    sleep DELAY_MS;;;
    ret (phone, t')
  else ret (empty_string, t).

(** [emp.name || ''] *)
Definition get_or_empty (name : ustring) (v : Value) : M Value :=
  x <- get name v;; ret (or_else x empty_string).

(** The body of the loop over the employees of one company. *)
Definition enrichEmployee (job : Job) (co : Company) (emp : Value) (t : Tally) : M Tally :=
  liUrl <- get_or_empty (u "linkedin_url") emp;;
  l <- get (u "location") emp;;
  let location := or_else l empty_object in
  x <- get (u "experiences") emp;;
  let experiences := or_else x (VArr []) in
  currentExp <- getCurrentExperience experiences (companyUrl co);;
  jt <- get (u "job_title") currentExp;;
  jobTitle <- (if truthy jt then ret jt else get_or_empty (u "headline") emp);;
  found <- (if truthy liUrl
            then
              r <- enrichEmail job liUrl t;;
              let '(email, emailStatus, t1) := r in
              q <- enrichPhone job liUrl t1;;
              let '(phone, t2) := q in
              ret (email, emailStatus, phone, t2)
            else ret (empty_string, empty_string, empty_string, t));;
  let '(email, emailStatus, phone, t') := found in
  full_name <- get_or_empty (u "full_name") emp;;
  first_name <- get_or_empty (u "first_name") emp;;
  last_name <- get_or_empty (u "last_name") emp;;
  headline <- get_or_empty (u "headline") emp;;
  city <- get_or_empty (u "city") location;;
  state <- get_or_empty (u "state_code") location;;
  country <- get_or_empty (u "country_code") location;;
  connections <- get_or_empty (u "connections_count") emp;;
  push_result
    (VObj [(u "company_name", VStr (companyName co));
           (u "company_linkedin_url", VStr (companyUrl co));
           (u "company_domain", VStr (companyDomain co));
           (u "company_location", VStr (companyLocation co));
           (u "company_size", VStr (companySize co));
           (u "full_name", full_name);
           (u "first_name", first_name);
           (u "last_name", last_name);
           (u "job_title", jobTitle);
           (u "headline", headline);
           (u "person_linkedin_url", liUrl);
           (u "city", city);
           (u "state", state);
           (u "country", country);
           (u "email", email);
           (u "email_status", emailStatus);
           (u "phone_mobile", phone);
           (u "connections_count", connections)]);;;
  ret t'.

(** [for (const emp of employees)] *)
Fixpoint enrichEmployees (job : Job) (co : Company) (emps : list Value) (t : Tally) : M Tally :=
  match emps with
  | [] => ret t
  | emp :: rest =>
      t' <- enrichEmployee job co emp t;;
      enrichEmployees job co rest t'
  end.

(** Lines 159-164: the company of one row. *)
Definition company_of (job : Job) (row : Row) : Company :=
  let url := JsString.trim (cell row (linkedinCol job)) in
  {| companyUrl := url;
     companyName := optional_cell (nameCol job) row url;
     companyDomain := optional_cell (domainCol job) row [];
     companyLocation := optional_cell (locationCol job) row [];
     companySize := optional_cell (sizeCol job) row [] |}.

(** [for (let i = 0; i < rows.length; i++)], from index [i] with the rows
    from [i] on. *)
Fixpoint enrichRows (fuel : nat) (job : Job) (rest : list Row) (i : nat) (t : Tally) : M Tally :=
  match rest with
  | [] => ret t
  | row :: rest' =>
      let co := company_of job row in
      broadcast (update_company i
                   (if JsString.is_empty (companyName co)
                    then companyUrl co else companyName co));;;
      if JsString.is_empty (companyUrl co)
      then enrichRows fuel job rest' (S i) t
      else
        emps <- findAllEmployees fuel (companyUrl co) (apiKey job);;
        let t1 := {| employees := employees t + length emps;
                     emails := emails t; phones := phones t |} in
        broadcast (update_employees (employees t1));;;
        t2 <- enrichEmployees job co emps t1;;
        enrichRows fuel job rest' (S i) t2
  end.

Definition runEnrichment (fuel : nat) (job : Job) : M unit :=
  broadcast update_enriching;;;
  t <- enrichRows fuel job (rows job) 0
         {| employees := 0; emails := 0; phones := 0 |};;
  broadcast (update_done t).

(** Lines 120-123: the run as the submission route starts it. *)
Definition startEnrichment (fuel : nat) (job : Job) : M unit :=
  catch (runEnrichment fuel job) (fun err => broadcast (update_error err)).

End Engine.

(** ** Submission and download *)

(** Lines 98-106: the status a job is created with. *)
Definition initial_status (table : list Row) : Status :=
  {| phase := Queued; companyCurrent := 0; companyTotal := length table;
     currentCompanyName := None; employeesFound := 0; emailsFound := 0;
     phonesFound := 0; done := false; error := None |}.

Definition initial_state (job : Job) : State :=
  {| status := initial_status (rows job); results := []; trace := [] |}.

(** The columns the submission route has detected in the header. *)
Record Columns : Type := {
  col_linkedin : ustring;
  col_name : option ustring;
  col_domain : option ustring;
  col_location : option ustring;
  col_size : option ustring
}.

(** [skipPhone === 'true'], on the form field as the body parser gives it. *)
Definition doSkipPhone (skipPhoneField : Value) : bool :=
  match skipPhoneField with
  | VStr s => JsString.eqb s (u "true")
  | _ => false
  end.

(** Lines 93-117: the job the submission route creates. *)
Definition createJob (table : list Row) (cols : Columns) (apiKeyField : ustring)
    (skipPhoneField : Value) : Job :=
  {| rows := table;
     linkedinCol := col_linkedin cols;
     nameCol := col_name cols;
     domainCol := col_domain cols;
     locationCol := col_location cols;
     sizeCol := col_size cols;
     apiKey := JsString.trim apiKeyField;
     skipPhone := doSkipPhone skipPhoneField |}.

Inductive DownloadResponse : Type :=
| NotFound
| NotReady
| Table (content : list Value).

(** [GET /api/download/:jobId], on the result of [jobs.get(jobId)]. *)
Definition download (job : option State) : DownloadResponse :=
  match job with
  | None => NotFound
  | Some s => if negb (done (status s)) then NotReady else Table (results s)
  end.

(** The state of a job once its run has ended, or has run out of fuel. *)
Definition run_job (provider : list Event -> Outcome) (fuel : nat) (job : Job) : Res unit * State :=
  startEnrichment provider fuel job (initial_state job).

(** The snapshots published in a trace, oldest first. *)
Fixpoint published (tr : list Event) : list Status :=
  match tr with
  | [] => []
  | EPublish st :: tr' => st :: published tr'
  | _ :: tr' => published tr'
  end.

(** The requests sent in a trace, oldest first. *)
Fixpoint requests (tr : list Event) : list Request :=
  match tr with
  | [] => []
  | EFetch r :: tr' => r :: requests tr'
  | _ :: tr' => requests tr'
  end.

(** * The vocabulary of the properties *)

(** ** Providers and requests of the examples *)

(** The provider that answers the n-th request of a job with the n-th outcome
    of a script, and rejects once the script is over. *)
Definition scripted (script : list Outcome) : list Event -> Outcome :=
  fun tr => nth (length (requests tr) - 1) script Rejected.

Definition a_request : Request :=
  {| endpoint := email_endpoint;
     body := VObj [(u "person_linkedin_url", VStr (u "https://www.linkedin.com/in/ada"))];
     key := u "secret" |}.

Definition idle_state : State :=
  {| status := initial_status []; results := []; trace := [] |}.

(** ** The Remote Client *)

(** The loop of [blitzPost] as the call reaches iteration [attempt]. *)
Definition attempt_from (provider : list Event -> Outcome) (req : Request)
    (attempt : nat) : M Value :=
  blitzPost_from provider (S default_retries - attempt) req default_retries attempt.

(** The answer to [req] sent from state [s]. *)
Definition answer (provider : list Event -> Outcome) (req : Request) (s : State) : Outcome :=
  provider (trace (log (EFetch req) s)).

(** Another attempt is made from state [s]: the next effect is the request
    again. *)
Definition retried (provider : list Event -> Outcome) (req : Request) (attempt : nat)
    (s : State) : Prop :=
  exists ev,
    trace (snd (attempt_from provider req attempt s)) = trace s ++ EFetch req :: ev.

(** A failed attempt that is neither rate-limited nor "no data": the promise
    rejected, the status is not a success, or the body could not be read. *)
Definition hard_failure (o : Outcome) : bool :=
  match o with
  | Rejected => true
  | Response code json =>
      negb (code =? 429)%Z && negb ((code =? 422) || (code =? 404))%Z
      && (negb (ok code) || match json with Some _ => false | None => true end)
  end.

(** The policy for a rate-limited attempt, as the specification words it: the
    request, the wait of [min(1000 * 2^attempt, 16000)] milliseconds, and then
    another attempt. *)
Definition rate_limit_policy (provider : list Event -> Outcome) (req : Request)
    (attempt : nat) (s : State) : Prop :=
  let s' := log (ESleep (Z.min (1000 * 2 ^ Z.of_nat attempt) 16000)) (log (EFetch req) s) in
  attempt_from provider req attempt s = attempt_from provider req (S attempt) s'
  /\ retried provider req (S attempt) s'.

(** How an attempt fails when another one is to follow: rate-limited, or a
    hard failure. *)
Inductive Failure : Type := RateLimited | Hard.

Definition failed_as (f : Failure) (o : Outcome) : Prop :=
  match f with
  | RateLimited => exists json, o = Response 429 json
  | Hard => hard_failure o = true
  end.

(** The wait after a failed attempt, as the specification words it. *)
Definition backoff (f : Failure) (attempt : nat) : Z :=
  match f with
  | RateLimited => Z.min (1000 * 2 ^ Z.of_nat attempt) 16000
  | Hard => 1000 * (Z.of_nat attempt + 1)
  end.

(** The state [s] of a call at attempt [attempt], once that attempt and the
    following ones have failed as [fs] says: each of them has left the
    request and its wait. *)
Fixpoint after_failures (req : Request) (attempt : nat) (fs : list Failure) (s : State) : State :=
  match fs with
  | [] => s
  | f :: fs' =>
      after_failures req (S attempt) fs'
        (log (ESleep (backoff f attempt)) (log (EFetch req) s))
  end.

(** The provider makes the attempts from [attempt] on, the first of them
    sent from state [s], fail as [fs] says. *)
Fixpoint fails (provider : list Event -> Outcome) (req : Request) (attempt : nat)
    (fs : list Failure) (s : State) : Prop :=
  match fs with
  | [] => True
  | f :: fs' =>
      failed_as f (answer provider req s)
      /\ fails provider req (S attempt) fs'
           (log (ESleep (backoff f attempt)) (log (EFetch req) s))
  end.

Definition parsed_body : Value :=
  VObj [(u "email", VStr (u "ada@example.com")); (u "email_status", VStr (u "valid"))].

Definition three_rate_limits : list Outcome :=
  [Response 429 None; Response 429 None; Response 429 None;
   Response 200 (Some parsed_body)].

(** The state of a call that has been rate-limited on its first four
    attempts. *)
Definition after_four_rate_limits : State :=
  {| status := initial_status []; results := [];
     trace := [EFetch a_request; ESleep 1000; EFetch a_request; ESleep 2000;
               EFetch a_request; ESleep 4000; EFetch a_request; ESleep 8000] |}.

Definition always_rate_limited : list Event -> Outcome :=
  fun _ => Response 429 None.

Definition always_unavailable : list Event -> Outcome :=
  fun _ => Response 503 None.

(** ** The Pagination Driver *)

Definition search_request (url k : ustring) (page : nat) : Request :=
  {| endpoint := search_endpoint; body := search_body url page; key := k |}.

Definition number_field (name : ustring) (v : Value) : nat :=
  match v with
  | VObj fields =>
      match field name fields with
      | VNum n => Z.to_nat n
      | _ => 0
      end
  | _ => 0
  end.

(** A provider that holds [records] for the company and serves the search
    operation page by page, each page on the first attempt. *)
Definition paged (records : list Value) : list Event -> Outcome :=
  fun tr =>
    match last tr (ESleep 0) with
    | EFetch r =>
        let size := number_field (u "max_results") (body r) in
        let page := number_field (u "page") (body r) in
        Response 200
          (Some (VObj [(u "results",
                        VArr (firstn size (skipn ((page - 1) * size) records)))]))
    | _ => Rejected
    end.

(** The effects of fetching [count] pages in a row, starting at [page]. *)
Fixpoint pages_from (url k : ustring) (page count : nat) : list Event :=
  match count with
  | O => []
  | S count' =>
      EFetch (search_request url k page)
      :: match count' with
         | O => []
         | S _ => ESleep DELAY_MS :: pages_from url k (S page) count'
         end
  end.

Definition ceil_div (n p : nat) : nat := (n + p - 1) / p.

(** The number of pages the specification announces for a company of [n]
    employees. *)
Definition pages_claimed (n : nat) : nat :=
  if (0 <? n) && (n mod PAGE_SIZE =? 0)
  then ceil_div n PAGE_SIZE + 1
  else ceil_div n PAGE_SIZE.

(** A staff of [n] numbered employee records. *)
Definition staff (n : nat) : list Value :=
  map (fun i => VObj [(u "full_name", VStr (u "Employee")); (u "connections_count", VNum (Z.of_nat i))])
      (seq 1 n).

Definition acme_url : ustring := u "https://www.linkedin.com/company/acme".

(** ** The Experience Resolver *)

(** A work-history entry as the provider documents it: an object whose
    company identifier, when present, is a string. *)
Definition entry_ok (e : Value) : bool :=
  match e with
  | VObj fields =>
      match field (u "company_linkedin_url") fields with
      | VStr _ | VNull | VUndefined => true
      | _ => false
      end
  | _ => false
  end.

Definition is_current (e : Value) : bool :=
  match e with
  | VObj fields => truthy (field (u "job_is_current") fields)
  | _ => false
  end.

Definition company_id (e : Value) : ustring :=
  match e with
  | VObj fields =>
      match field (u "company_linkedin_url") fields with
      | VStr s => s
      | _ => []
      end
  | _ => []
  end.

(** The priority order of the specification, for a given segment: the first
    current entry whose company identifier contains the segment, else the
    first current entry, else the first entry, else an empty placeholder. *)
Definition resolve (segment : ustring) (exps : list Value) : Value :=
  match find (fun e => is_current e && JsString.includes segment (company_id e)) exps with
  | Some e => e
  | None =>
      match find is_current exps with
      | Some e => e
      | None =>
          match exps with
          | e :: _ => e
          | [] => empty_object
          end
      end
  end.

(** The path segment that follows "/company/" in a URL, read as the
    specification words it: what comes after the marker, up to the next
    delimiter of the path. *)
Fixpoint after_marker (marker s : ustring) : option ustring :=
  match s with
  | [] => None
  | _ :: s' =>
      if JsString.starts_with marker s then Some (skipn (length marker) s)
      else after_marker marker s'
  end.

Fixpoint until_delimiter (s : ustring) : ustring :=
  match s with
  | [] => []
  | c :: s' =>
      if ((c =? 47) || (c =? 63) || (c =? 35))%N then []
      else c :: until_delimiter s'
  end.

Definition path_segment (url : ustring) : ustring :=
  match after_marker (u "/company/") url with
  | Some r => until_delimiter r
  | None => []
  end.

Definition entry (current : bool) (company title : ustring) : Value :=
  VObj [(u "job_is_current", VBool current);
        (u "company_linkedin_url", VStr company);
        (u "job_title", VStr title)].

Definition globex_url : ustring := u "https://www.linkedin.com/company/globex".

Definition a_history : list Value :=
  [entry false acme_url (u "Intern");
   entry true globex_url (u "Advisor");
   entry true acme_url (u "Engineer")].

(** ** A program logic for the job monad *)

Definition counters_le (a b : Status) : Prop :=
  companyCurrent a <= companyCurrent b
  /\ employeesFound a <= employeesFound b
  /\ emailsFound a <= emailsFound b
  /\ phonesFound a <= phonesFound b.

(** What a snapshot published while the rows are processed may change: the
    counters grow; phase, [done] flag and total stay; with [skipPhone] (the
    flag [sp]) the phone counter stays too. *)
Definition progress (sp : bool) (a b : Status) : Prop :=
  phase b = phase a
  /\ done b = done a
  /\ companyTotal b = companyTotal a
  /\ counters_le a b
  /\ (if sp then phonesFound b = phonesFound a else True).

(** The events [ev] lead from status [st] to status [st']: every published
    snapshot is a [progress] on the one before, and with [skipPhone] no
    request goes to the phone operation. *)
Fixpoint steps (sp : bool) (st : Status) (ev : list Event) (st' : Status) : Prop :=
  match ev with
  | [] => st' = st
  | EPublish st1 :: ev' => progress sp st st1 /\ steps sp st1 ev' st'
  | EFetch r :: ev' =>
      (if sp then endpoint r <> phone_endpoint else True) /\ steps sp st ev' st'
  | ESleep _ :: ev' => steps sp st ev' st'
  end.

Definition advances (sp : bool) (s s' : State) : Prop :=
  exists ev, trace s' = trace s ++ ev /\ steps sp (status s) ev (status s').

(** The local variables [i], [employeesFound], [emailsFound], [phonesFound]
    of [runEnrichment] agree with the published status. *)
Definition synced (i : nat) (t : Tally) (st : Status) : Prop :=
  companyCurrent st = i
  /\ employeesFound st = employees t
  /\ emailsFound st = emails t
  /\ phonesFound st = phones t.

(** A computation that publishes nothing. *)
Definition quiet (sp : bool) {A : Type} (m : M A) : Prop :=
  forall s, status (snd (m s)) = status s /\ advances sp s (snd (m s)).

(** A computation that keeps the status in step with the local counters,
    which are [t] before and [tally_of a] after a normal return of [a]. *)
Definition tracks (sp : bool) {A : Type} (i : nat) (t : Tally) (m : M A)
    (tally_of : A -> Tally) : Prop :=
  forall s,
    synced i t (status s) ->
    advances sp s (snd (m s))
    /\ match fst (m s) with
       | Ok a => synced i (tally_of a) (status (snd (m s)))
       | _ => True
       end.

(** ** Runs of the Orchestrator *)

(** The state once the progress of row [i] has been published. *)
Definition row_announced (job : Job) (row : Row) (i : nat) (s : State) : State :=
  let co := company_of job row in
  let st := assign (status s)
              (update_company i (if JsString.is_empty (companyName co)
                                 then companyUrl co else companyName co)) in
  {| status := st; results := results s; trace := trace s ++ [EPublish st] |}.

(** The status after the first broadcast of [runEnrichment]. *)
Definition enriching_status (job : Job) : Status :=
  assign (initial_status (rows job)) update_enriching.

(** Every status a job's record has held: the initial one and the published
    snapshots, oldest first. *)
Definition snapshots (job : Job) (s : State) : list Status :=
  initial_status (rows job) :: published (trace s).

Definition terminal (p : Phase) : bool :=
  match p with
  | Done | Error => true
  | Queued | Enriching => false
  end.

(** What stays the same from status [a] on while the rows are processed. *)
Definition stable (sp : bool) (a st : Status) : Prop :=
  phase st = phase a
  /\ done st = done a
  /\ companyTotal st = companyTotal a
  /\ (if sp then phonesFound st = phonesFound a else True).

(** How a run ends: out of fuel in the middle of the rows, with the [done]
    snapshot, or with the [error] snapshot. *)
Inductive Ending (job : Job) (ev : list Event) (st : Status) (s : State) : Prop :=
| ended_out_of_fuel :
    trace s = EPublish (enriching_status job) :: ev ->
    status s = st ->
    Ending job ev st s
| ended_done (t : Tally) :
    synced (length (rows job)) t st ->
    trace s = EPublish (enriching_status job) :: ev ++ [EPublish (assign st (update_done t))] ->
    status s = assign st (update_done t) ->
    Ending job ev st s
| ended_error (e : Exn) :
    trace s = EPublish (enriching_status job) :: ev ++ [EPublish (assign st (update_error e))] ->
    status s = assign st (update_error e) ->
    Ending job ev st s.

(** ** A provider and jobs for the examples *)

Definition ada : Value :=
  VObj [(u "full_name", VStr (u "Ada Lovelace"));
        (u "linkedin_url", VStr (u "https://www.linkedin.com/in/ada"));
        (u "headline", VStr (u "Engineer at Acme"));
        (u "experiences", VArr [entry true acme_url (u "Engineer")])].

Definition grace : Value :=
  VObj [(u "full_name", VStr (u "Grace Hopper"));
        (u "linkedin_url", VStr (u "https://www.linkedin.com/in/grace"));
        (u "experiences", VArr [])].

(** A provider that holds [people] for every company and has an email and a
    phone number for everyone. *)
Definition directory (people : list Value) : list Event -> Outcome :=
  fun tr =>
    match last tr (ESleep 0) with
    | EFetch r =>
        if JsString.eqb (endpoint r) search_endpoint then paged people tr
        else if JsString.eqb (endpoint r) email_endpoint
        then Response 200 (Some (VObj [(u "email", VStr (u "someone@example.com"));
                                       (u "email_status", VStr (u "valid"))]))
        else Response 200 (Some (VObj [(u "phone", VStr (u "+15550100"))]))
    | _ => Rejected
    end.

Definition url_column : ustring := u "Company LinkedIn Url".

Definition url_only : Columns :=
  {| col_linkedin := url_column; col_name := None; col_domain := None;
     col_location := None; col_size := None |}.

Definition acme_row : Row := [(url_column, acme_url)].
Definition blank_row : Row := [(url_column, u "   ")].

Definition a_job (skipPhoneField : Value) : Job :=
  createJob [blank_row; acme_row] url_only (u "secret") skipPhoneField.

(** ** Traces only grow *)

(** A computation that only adds to the trace. *)
Definition grows {A : Type} (m : M A) : Prop :=
  forall s, exists ev, trace (snd (m s)) = trace s ++ ev.

(** A computation that leaves the results alone and only adds to the
    trace. *)
Definition extends {A : Type} (m : M A) : Prop :=
  forall s,
    results (snd (m s)) = results s
    /\ exists ev, trace (snd (m s)) = trace s ++ ev.

(** The event [x] is in the trace once [m] has run from [s], however [m]
    ends. *)
Definition sent (x : Event) {A : Type} (m : M A) (s : State) : Prop :=
  In x (trace (snd (m s))).

(** ** The phone lookups of a job *)

(** The request of the phone lookup of a profile URL. *)
Definition phone_request (job : Job) (liUrl : Value) : Request :=
  {| endpoint := phone_endpoint; body := person_body liUrl; key := apiKey job |}.

(** The profile URL of a result row. *)
Definition profile_url (row : Value) : Value :=
  match row with
  | VObj fields => field (u "person_linkedin_url") fields
  | _ => VUndefined
  end.

(** The phone of a result row with a profile URL has been looked up. *)
Definition looked_up (job : Job) (tr : list Event) (row : Value) : Prop :=
  truthy (profile_url row) = true ->
  In (EFetch (phone_request job (profile_url row))) tr.

Definition phones_looked_up (job : Job) (s : State) : Prop :=
  Forall (looked_up job (trace s)) (results s).

(** A computation that keeps [phones_looked_up] however it ends, and that
    leads from a trace satisfying [P] to a trace satisfying [Q a] when it
    returns [a]. *)
Definition keeps (job : Job) {A : Type} (P : list Event -> Prop) (m : M A)
    (Q : A -> list Event -> Prop) : Prop :=
  forall s,
    phones_looked_up job s ->
    P (trace s) ->
    phones_looked_up job (snd (m s))
    /\ match fst (m s) with
       | Ok a => Q a (trace (snd (m s)))
       | _ => True
       end.

(** The provider answers the first page of the search for [url] with a
    success whose results are [items]. *)
Definition answers_search (provider : list Event -> Outcome) (url k : ustring)
    (items : list Value) : Prop :=
  exists code fields,
    ok code = true
    /\ field (u "results") fields = VArr items
    /\ forall tr,
         provider (tr ++ [EFetch (search_request url k 1)])
         = Response code (Some (VObj fields)).

(** No successful answer of the provider has the body [null]. *)
Definition readable_bodies (provider : list Event -> Outcome) : Prop :=
  forall tr code v,
    provider tr = Response code (Some v) -> v <> VNull /\ v <> VUndefined.

(** The work history of the employee [emp] can be read: the Experience
    Resolver does not raise on it. *)
Definition readable_history (emp : list (ustring * Value)) (url : ustring) : Prop :=
  forall s e,
    fst (getCurrentExperience (or_else (field (u "experiences") emp) (VArr [])) url s)
    <> Throw e.

(** * Further vocabulary *)

(** ** Calls of the Remote Client *)

(** The total time slept in a trace, in milliseconds. *)
Fixpoint total_wait (tr : list Event) : Z :=
  match tr with
  | [] => 0%Z
  | ESleep ms :: tr' => (ms + total_wait tr')%Z
  | _ :: tr' => total_wait tr'
  end.

(** The body of a successful answer: a 2xx status and a readable body. *)
Definition success (o : Outcome) : option Value :=
  match o with
  | Response code (Some v) => if ok code then Some v else None
  | _ => None
  end.

(** The requests of a pagination: page [page] asked [c] times for the first
    count [c], then the next page for the next count, and so on. *)
Fixpoint page_requests (url k : ustring) (page : nat) (counts : list nat) : list Request :=
  match counts with
  | [] => []
  | c :: counts' =>
      repeat (search_request url k page) c ++ page_requests url k (S page) counts'
  end.

Definition out_of_service : list Event -> Outcome :=
  scripted [Rejected; Response 500 None; Response 429 None; Response 200 None].

(** ** The Experience Resolver on arbitrary values *)

Definition an_urlless_history : Value :=
  VArr [VObj [(u "job_title", VStr (u "Founder"))]; VNum 7; VStr (u "x")].

(** ** The invariant of a job *)

(** The columns of a result row, in the order of the object literal. *)
Definition columns : list ustring :=
  [u "company_name"; u "company_linkedin_url"; u "company_domain";
   u "company_location"; u "company_size"; u "full_name"; u "first_name";
   u "last_name"; u "job_title"; u "headline"; u "person_linkedin_url"; u "city";
   u "state"; u "country"; u "email"; u "email_status"; u "phone_mobile";
   u "connections_count"].

(** A value as [x || ''] leaves it: the empty string or a truthy value,
    never [null], [undefined], [false] or [0]. *)
Definition filled (v : Value) : bool :=
  match v with
  | VStr [] => true
  | _ => truthy v
  end.

(** The company identifiers of the input table, as the Orchestrator reads
    them. *)
Definition identifiers (job : Job) : list ustring :=
  map (fun row => JsString.trim (cell row (linkedinCol job))) (rows job).

(** A result row of [job]: the fixed columns, every cell filled, the input's
    identifier in its column, no phone when the job skips phones, and
    neither email nor phone for an employee without a profile URL. *)
Definition row_ok (job : Job) (row : Value) : Prop :=
  match row with
  | VObj fields =>
      map fst fields = columns
      /\ Forall (fun v => filled v = true) (map snd fields)
      /\ (exists url, field (u "company_linkedin_url") fields = VStr url
                      /\ JsString.is_empty url = false /\ In url (identifiers job))
      /\ (skipPhone job = true -> field (u "phone_mobile") fields = empty_string)
      /\ (field (u "person_linkedin_url") fields = empty_string ->
          field (u "email") fields = empty_string
          /\ field (u "email_status") fields = empty_string
          /\ field (u "phone_mobile") fields = empty_string)
  | _ => False
  end.

(** A request of [job]: it carries the job's key and is a search for a
    non-empty identifier of the table, from page 1 on, or the email or phone
    lookup of a non-empty profile URL, the phone lookup only when the job
    does not skip phones. *)
Definition request_ok (job : Job) (r : Request) : Prop :=
  key r = apiKey job
  /\ ((exists url page,
          r = search_request url (apiKey job) page
          /\ 1 <= page /\ JsString.is_empty url = false /\ In url (identifiers job))
      \/ (exists liUrl,
             truthy liUrl = true
             /\ body r = person_body liUrl
             /\ (endpoint r = email_endpoint
                 \/ (endpoint r = phone_endpoint /\ skipPhone job = false)))).

(** A snapshot of [job]: the total is the number of input rows, the current
    row is within it, and no more emails or phones than employees have been
    found. *)
Definition snapshot_ok (job : Job) (st : Status) : Prop :=
  companyTotal st = length (rows job)
  /\ companyCurrent st <= companyTotal st
  /\ emailsFound st <= employeesFound st
  /\ phonesFound st <= employeesFound st.

(** The status next to the results: never more rows than employees found,
    and as many once the phase is [done]. *)
Definition status_ok (job : Job) (st : Status) (rs : list Value) : Prop :=
  snapshot_ok job st
  /\ length rs <= employeesFound st
  /\ (phase st = Done -> length rs = employeesFound st).

(** A result row with something in the cell [name]. *)
Definition has_cell (name : ustring) (row : Value) : bool :=
  match row with
  | VObj fields => truthy (field name fields)
  | _ => false
  end.

(** The number of result rows with something in the cell [name]. *)
Definition with_cell (name : ustring) (rs : list Value) : nat :=
  length (filter (has_cell name) rs).

Definition JobInv (job : Job) (s : State) : Prop :=
  Forall (request_ok job) (requests (trace s))
  /\ Forall (snapshot_ok job) (published (trace s))
  /\ status_ok job (status s) (results s)
  /\ Forall (row_ok job) (results s).

(** A computation that sends requests satisfying [Rq], sleeps, and does
    nothing else. *)
Definition mute {A : Type} (Rq : Request -> Prop) (m : M A) : Prop :=
  forall s,
    exists ev,
      snd (m s) = {| status := status s; results := results s; trace := trace s ++ ev |}
      /\ published ev = []
      /\ Forall Rq (requests ev).

(** A computation without effect whose normal results satisfy [R]. *)
Definition returns {A : Type} (m : M A) (R : A -> Prop) : Prop :=
  forall s,
    snd (m s) = s
    /\ match fst (m s) with
       | Ok a => R a
       | _ => True
       end.

(** A computation that keeps the invariant of [job], however it ends, and
    that leads from status and results satisfying [P] to status and results
    satisfying [Q a] when it returns [a]. *)
Definition triple (job : Job) {A : Type} (P : Status -> list Value -> Prop) (m : M A)
    (Q : A -> Status -> list Value -> Prop) : Prop :=
  forall s,
    JobInv job s ->
    P (status s) (results s) ->
    JobInv job (snd (m s))
    /\ match fst (m s) with
       | Ok a => Q a (status (snd (m s))) (results (snd (m s)))
       | _ => True
       end.

(** The local counters agree with the status of a job in phase
    [enriching]. *)
Definition running (i : nat) (t : Tally) (st : Status) : Prop :=
  synced i t st /\ phase st = Enriching.

(** ** Employees without a profile URL *)

Definition anonymous_employee : Value :=
  VObj [(u "full_name", VStr (u "Alan Turing")); (u "headline", VStr (u "Researcher"))].

Definition acme : Company :=
  {| companyUrl := acme_url; companyName := u "Acme"; companyDomain := [];
     companyLocation := []; companySize := [] |}.

(** ** A provider for one small company *)

(** The search finds two employees, one of them without a profile URL; the
    email lookup of the other finds an email, the phone lookup nothing. *)
Definition a_small_company : list Event -> Outcome :=
  scripted
    [Response 200
       (Some (VObj [(u "results",
                     VArr [VObj [(u "full_name", VStr (u "Ada Lovelace"));
                                 (u "linkedin_url", VStr (u "https://www.linkedin.com/in/ada"))];
                           anonymous_employee])]));
     Response 200
       (Some (VObj [(u "email", VStr (u "ada@acme.com"));
                    (u "email_status", VStr (u "valid"))]));
     Response 200 (Some (VObj []))].

(** * The submission route *)

(** ** The patterns of the column detection *)

(** An item of a pattern: a lower-case letter, which under the [i] flag
    matches itself and its upper case and no other code unit, or [.?]. *)
Inductive Item : Type :=
| Letter (c : N)
| AnyOpt.

Definition letter_eqb (c x : N) : bool := (N.eqb x c || N.eqb x (c - 32))%N.

(** The code units [.] does not match. *)
Definition line_terminator (x : N) : bool :=
  (N.eqb x 10 || N.eqb x 13 || N.eqb x 8232 || N.eqb x 8233)%N.

(** A sequence of items matched from the start of [s]; with [to_end] the
    match has to reach the end of [s]. *)
Fixpoint matches (to_end : bool) (pat : list Item) (s : ustring) : bool :=
  match pat with
  | [] => if to_end then JsString.is_empty s else true
  | Letter c :: pat' =>
      match s with
      | x :: s' => letter_eqb c x && matches to_end pat' s'
      | [] => false
      end
  | AnyOpt :: pat' =>
      match s with
      | x :: s' => negb (line_terminator x) && matches to_end pat' s'
      | [] => false
      end
      || matches to_end pat' s
  end.

Definition word (w : string) : list Item := map Letter (u w).
Arguments word w%_string.

(** [a.?b] *)
Definition two_words (a b : string) : list Item := word a ++ AnyOpt :: word b.
Arguments two_words (a b)%_string.

(** [/^(p1|p2|...)/i.test(h)] *)
Definition test_start (alternatives : list (list Item)) (h : ustring) : bool :=
  existsb (fun p => matches false p h) alternatives.

(** [/^(p1|p2|...)$/i.test(h)] *)
Definition test_whole (alternatives : list (list Item)) (h : ustring) : bool :=
  existsb (fun p => matches true p h) alternatives.

(** Line 78 *)
Definition linkedin_re : list (list Item) :=
  [two_words "company" "linkedin"; two_words "linkedin" "url";
   two_words "linkedin" "profile"].

(** Line 80 *)
Definition url_re : list (list Item) := [word "url"].

(** Lines 89-92 *)
Definition name_re : list (list Item) :=
  [two_words "company" "name"; word "name"; word "company"].
Definition domain_re : list (list Item) :=
  [word "domain"; word "website"; two_words "company" "domain"].
Definition location_re : list (list Item) :=
  [word "location"; word "city"; word "headquarters"].
Definition size_re : list (list Item) :=
  [word "size"; word "employees"; two_words "company" "size"; word "headcount"].

(** [a || b] on results of [headers.find]: an empty header is falsy. *)
Definition or_header (a b : option ustring) : option ustring :=
  match a with
  | Some h => if JsString.is_empty h then b else a
  | None => b
  end.

(** [Object.keys(rows[0])], a row listing its columns in that order. *)
Definition headers_of (row : Row) : list ustring := map fst row.

Inductive SubmitError : Type :=
| NoFileUploaded
| KeyRequired
| CouldNotParse (message : string)
| NoDataRows
| NoLinkedinColumn (headers : list ustring).

(** What the table parser makes of the uploaded file. *)
Inductive ParseOutcome : Type :=
| ParseFailure (message : string)
| Parsed (table : list Row).

(** A multipart request as the body parser hands it over. *)
Record Upload : Type := {
  up_file : option ParseOutcome;
  up_apiKey : Value;
  up_skipPhone : Value
}.

(** The answer of the route: a 400 with its error, the 200 with [total] and
    [linkedinCol] once the job is created and started, or no answer when
    the handler raises. *)
Inductive SubmitReply : Type :=
| BadRequest (e : SubmitError)
| Started (job : Job) (total : nat) (col : ustring)
| Unanswered (e : Exn).

Section Submission.

(** [String.prototype.toLowerCase], which is not a code-unit-wise map
    outside ASCII. *)
Variable toLowerCase : ustring -> ustring.

(** Line 79 *)
Definition mentions_linkedin (h : ustring) : bool :=
  JsString.includes (u "linkedin") (toLowerCase h).

(** Lines 77-80 *)
Definition find_linkedinCol (headers : list ustring) : option ustring :=
  or_header (find (test_start linkedin_re) headers)
    (or_header (find mentions_linkedin headers)
       (find (test_whole url_re) headers)).

(** Lines 82-92: [None] where the route answers that no column was found. *)
Definition detect (headers : list ustring) : option Columns :=
  match find_linkedinCol headers with
  | None => None
  | Some col =>
      if JsString.is_empty col then None
      else Some {| col_linkedin := col;
                   col_name := find (test_whole name_re) headers;
                   col_domain := find (test_whole domain_re) headers;
                   col_location := find (test_whole location_re) headers;
                   col_size := find (test_whole size_re) headers |}
  end.

(** [POST /api/enrich], lines 53-129. *)
Definition submit (up : Upload) : SubmitReply :=
  match up_file up with
  | None => BadRequest NoFileUploaded
  | Some file =>
      if negb (truthy (up_apiKey up)) then BadRequest KeyRequired
      else
        match up_apiKey up with
        | VStr k =>
            if JsString.is_empty (JsString.trim k) then BadRequest KeyRequired
            else
              match file with
              | ParseFailure message => BadRequest (CouldNotParse message)
              | Parsed [] => BadRequest NoDataRows
              | Parsed ((first :: _) as table) =>
                  match detect (headers_of first) with
                  | None => BadRequest (NoLinkedinColumn (headers_of first))
                  | Some cols =>
                      Started (createJob table cols k (up_skipPhone up))
                        (length table) (col_linkedin cols)
                  end
              end
        | _ => Unanswered (TypeError "apiKey.trim is not a function")
        end
  end.

End Submission.

(** Lower case on ASCII letters only, where it agrees with
    [toLowerCase]. *)
Definition ascii_lower (s : ustring) : ustring :=
  map (fun c => if ((65 <=? c) && (c <=? 90))%N then (c + 32)%N else c) s.

Definition a_table : list Row :=
  [[(u "Name", u "Acme"); (u "Company LinkedIn Url", u "https://www.linkedin.com/company/acme")]].

Definition an_upload : Upload :=
  {| up_file := Some (Parsed a_table);
     up_apiKey := VStr (u " key-1 ");
     up_skipPhone := VStr (u "true") |}.

(** * The progress channel *)

Module Stream.

(** What is written to a response: a frame with the status, the frame of an
    unknown job, or the heartbeat comment. *)
Inductive Chunk : Type :=
| Data (st : Status)
| JobNotFound
| Ping.

(** A job as the progress route and [broadcast] use it. Responses are named
    by numbers; [heartbeats] are the responses whose interval timer is set;
    [written] lists the calls of [res.write] in order. *)
Record Channel : Type := {
  job_status : Status;
  listeners : list nat;
  heartbeats : list nat;
  written : list (nat * Chunk)
}.

Definition create (st : Status) : Channel :=
  {| job_status := st; listeners := []; heartbeats := []; written := [] |}.

(** Lines 40-45: the route, for a job that exists. *)
Definition subscribe (res : nat) (ch : Channel) : Channel :=
  {| job_status := job_status ch;
     listeners := listeners ch ++ [res];
     heartbeats := res :: heartbeats ch;
     written := written ch ++ [(res, Data (job_status ch))] |}.

(** Lines 46-49: the handler of [close]. *)
Definition close (res : nat) (ch : Channel) : Channel :=
  {| job_status := job_status ch;
     listeners := filter (fun l => negb (Nat.eqb l res)) (listeners ch);
     heartbeats := filter (fun l => negb (Nat.eqb l res)) (heartbeats ch);
     written := written ch |}.

(** Line 45: the interval timer of [res] fires. *)
Definition heartbeat (res : nat) (ch : Channel) : Channel :=
  if existsb (Nat.eqb res) (heartbeats ch)
  then {| job_status := job_status ch;
          listeners := listeners ch;
          heartbeats := heartbeats ch;
          written := written ch ++ [(res, Ping)] |}
  else ch.

(** Lines 295-299 *)
Definition broadcast (up : Update) (ch : Channel) : Channel :=
  let st := assign (job_status ch) up in
  {| job_status := st;
     listeners := listeners ch;
     heartbeats := heartbeats ch;
     written := written ch ++ map (fun res => (res, Data st)) (listeners ch) |}.

(** [GET /api/progress/:jobId] on the result of [jobs.get(jobId)]: the
    chunks written at once, and the job afterwards. *)
Definition connect (job : option Channel) (res : nat) : list Chunk * option Channel :=
  match job with
  | None => ([JobNotFound], None)
  | Some ch => ([Data (job_status ch)], Some (subscribe res ch))
  end.

(** What happens to a job, one event at a time: a client connects or
    closes its connection, a heartbeat timer fires, the Orchestrator
    broadcasts. *)
Inductive Action : Type :=
| Connect (res : nat)
| Close (res : nat)
| Tick (res : nat)
| Publish (up : Update).

Definition step (ch : Channel) (a : Action) : Channel :=
  match a with
  | Connect res => subscribe res ch
  | Close res => close res ch
  | Tick res => heartbeat res ch
  | Publish up => broadcast up ch
  end.

Definition run (acts : list Action) (ch : Channel) : Channel := fold_left step acts ch.

(** The chunks written to [res], in order. *)
Definition inbox (res : nat) (ch : Channel) : list Chunk :=
  map snd (filter (fun w => Nat.eqb (fst w) res) (written ch)).

(** The statuses among chunks. *)
Fixpoint frames (chunks : list Chunk) : list Status :=
  match chunks with
  | [] => []
  | Data st :: rest => st :: frames rest
  | _ :: rest => frames rest
  end.

Fixpoint updates (acts : list Action) : list Update :=
  match acts with
  | [] => []
  | Publish up :: rest => up :: updates rest
  | _ :: rest => updates rest
  end.

(** The last status among chunks, if any. *)
Definition last_frame (chunks : list Chunk) : option Status :=
  last (map Some (frames chunks)) None.

(** The statuses a job goes through under a sequence of updates. *)
Fixpoint snapshots_from (st : Status) (ups : list Update) : list Status :=
  match ups with
  | [] => []
  | up :: rest => assign st up :: snapshots_from (assign st up) rest
  end.

End Stream.

(** [res] is neither a listener nor has a heartbeat. *)
Definition absent (res : nat) (ch : Stream.Channel) : Prop :=
  ~ In res (Stream.listeners ch) /\ ~ In res (Stream.heartbeats ch).

(** [res] is a listener, once. *)
Definition attached (res : nat) (ch : Stream.Channel) : Prop :=
  count_occ Nat.eq_dec (Stream.listeners ch) res = 1.

(** Every listener has been sent the present status last. *)
Definition up_to_date (ch : Stream.Channel) : Prop :=
  forall res,
    In res (Stream.listeners ch) ->
    Stream.last_frame (Stream.inbox res ch) = Some (Stream.job_status ch).

(** * Proofs *)

(** * The Remote Client *)

Section RemoteClient.

Variable provider : list Event -> Outcome.

Lemma blitzPost_is_attempt_0 ep payload k :
  blitzPost provider ep payload k
  = attempt_from provider {| endpoint := ep; body := payload; key := k |} 0.
Proof. reflexivity. Qed.

Lemma blitzPost_from_returns n :
  forall req retries attempt s,
    exists v s', blitzPost_from provider n req retries attempt s = (Ok v, s').
Proof.
  induction n as [|n IH]; intros req retries attempt s; simpl.
  - unfold ret. eauto.
  - unfold bind, fetch.
    set (s1 := log (EFetch req) s).
    assert (Hfail : exists v s',
               (if attempt <? retries
                then fun s0 => match sleep (1000 * (Z.of_nat attempt + 1)) s0 with
                               | (Ok _, s2) => blitzPost_from provider n req retries (S attempt) s2
                               | (Throw e, s2) => (Throw e, s2)
                               | (OutOfFuel, s2) => (OutOfFuel, s2)
                               end
                else ret empty_object) s1 = (Ok v, s')).
    { destruct (attempt <? retries); [|unfold ret; eauto].
      unfold sleep, emit. apply IH. }
    destruct (provider (trace s1)) as [|code json]; [exact Hfail|].
    destruct (code =? 429)%Z.
    { unfold sleep, emit. apply IH. }
    destruct ((code =? 422) || (code =? 404))%Z; [unfold ret; eauto|].
    destruct (negb (ok code)); [exact Hfail|].
    destruct json; [unfold ret; eauto|exact Hfail].
Qed.

Lemma attempt_from_rate_limited req attempt s json :
  attempt <= default_retries ->
  answer provider req s = Response 429 json ->
  attempt_from provider req attempt s
  = blitzPost_from provider (default_retries - attempt) req default_retries (S attempt)
      (log (ESleep (Z.min (1000 * 2 ^ Z.of_nat attempt) 16000)) (log (EFetch req) s)).
Proof.
  intros Hle Hans. unfold attempt_from, answer in *.
  replace (S default_retries - attempt) with (S (default_retries - attempt)) by lia.
  simpl. unfold bind, fetch. rewrite Hans. reflexivity.
Qed.

Lemma attempt_from_hard_failure req attempt s :
  attempt < default_retries ->
  hard_failure (answer provider req s) = true ->
  attempt_from provider req attempt s
  = attempt_from provider req (S attempt)
      (log (ESleep (1000 * (Z.of_nat attempt + 1))) (log (EFetch req) s)).
Proof.
  intros Hlt Hhard. unfold attempt_from, answer in *.
  replace (S default_retries - attempt) with (S (default_retries - attempt)) by lia.
  replace (S default_retries - S attempt) with (default_retries - attempt) by lia.
  simpl. unfold bind, fetch.
  assert (Hlt' : (attempt <? default_retries) = true) by (apply Nat.ltb_lt; exact Hlt).
  destruct (provider (trace (log (EFetch req) s))) as [|code json]; simpl in Hhard.
  - unfold default_retries in *. rewrite Hlt'. reflexivity.
  - apply andb_true_iff in Hhard as [Hhard H3].
    apply andb_true_iff in Hhard as [H1 H2].
    apply negb_true_iff in H1, H2. rewrite H1, H2.
    unfold default_retries in *.
    destruct (negb (ok code)); [rewrite Hlt'; reflexivity|].
    destruct json; [discriminate|]. rewrite Hlt'. reflexivity.
Qed.

Lemma attempt_from_last_hard_failure req s :
  hard_failure (answer provider req s) = true ->
  attempt_from provider req default_retries s = (Ok empty_object, log (EFetch req) s).
Proof.
  intros Hhard. unfold attempt_from, answer in *.
  replace (S default_retries - default_retries) with 1 by (unfold default_retries; lia).
  simpl. unfold bind, fetch.
  destruct (provider (trace (log (EFetch req) s))) as [|code json]; simpl in Hhard.
  - reflexivity.
  - apply andb_true_iff in Hhard as [Hhard H3].
    apply andb_true_iff in Hhard as [H1 H2].
    apply negb_true_iff in H1, H2. rewrite H1, H2.
    destruct (negb (ok code)); [reflexivity|].
    destruct json; [discriminate|reflexivity].
Qed.

Lemma attempt_from_sends req attempt s :
  attempt <= default_retries ->
  retried provider req attempt s.
Proof.
  intros Hle. unfold retried, attempt_from.
  replace (S default_retries - attempt) with (S (default_retries - attempt)) by lia.
  set (n := default_retries - attempt). simpl. unfold bind, fetch.
  set (s1 := log (EFetch req) s).
  assert (Hgrow : forall m a s2, exists ev,
             trace (snd (blitzPost_from provider m req default_retries a s2)) = trace s2 ++ ev).
  { induction m as [|m IH]; intros a s2; simpl.
    - exists []. unfold ret. simpl. now rewrite app_nil_r.
    - unfold bind, fetch.
      assert (Hnext : forall ms, exists ev,
                 trace (snd (blitzPost_from provider m req default_retries (S a)
                               (log (ESleep ms) (log (EFetch req) s2)))) = trace s2 ++ ev).
      { intros ms. destruct (IH (S a) (log (ESleep ms) (log (EFetch req) s2))) as [ev Hev].
        exists ([EFetch req; ESleep ms] ++ ev). rewrite Hev. simpl.
        now rewrite <- !app_assoc. }
      assert (Hstop : forall v : Value, exists ev,
                 trace (snd (ret v (log (EFetch req) s2))) = trace s2 ++ ev).
      { intros v. exists [EFetch req]. reflexivity. }
      destruct (provider (trace (log (EFetch req) s2))) as [|code json].
      + destruct (a <? default_retries); [apply Hnext|apply Hstop].
      + destruct (code =? 429)%Z; [apply Hnext|].
        destruct ((code =? 422) || (code =? 404))%Z; [apply Hstop|].
        destruct (negb (ok code)).
        * destruct (a <? default_retries); [apply Hnext|apply Hstop].
        * destruct json; [apply Hstop|].
          destruct (a <? default_retries); [apply Hnext|apply Hstop]. }
  assert (Hnext : forall ms, exists ev,
             trace (snd (blitzPost_from provider n req default_retries (S attempt)
                           (log (ESleep ms) s1))) = trace s ++ EFetch req :: ev).
  { intros ms. destruct (Hgrow n (S attempt) (log (ESleep ms) s1)) as [ev Hev].
    exists (ESleep ms :: ev). rewrite Hev. simpl.
    now rewrite <- !app_assoc. }
  assert (Hstop : forall v : Value, exists ev,
             trace (snd (ret v s1)) = trace s ++ EFetch req :: ev).
  { intros v. exists []. reflexivity. }
  destruct (provider (trace s1)) as [|code json].
  - destruct (attempt <? default_retries); [apply Hnext|apply Hstop].
  - destruct (code =? 429)%Z; [apply Hnext|].
    destruct ((code =? 422) || (code =? 404))%Z; [apply Hstop|].
    destruct (negb (ok code)).
    + destruct (attempt <? default_retries); [apply Hnext|apply Hstop].
    + destruct json; [apply Hstop|].
      destruct (attempt <? default_retries); [apply Hnext|apply Hstop].
Qed.

End RemoteClient.

Lemma ok_is_plain code :
  ok code = true ->
  (code =? 429)%Z = false /\ ((code =? 422) || (code =? 404))%Z = false.
Proof.
  unfold ok. intros H. apply andb_true_iff in H as [H1 H2].
  apply Z.leb_le in H1, H2.
  split; [|apply orb_false_iff; split]; apply Z.eqb_neq; lia.
Qed.

Lemma attempt_from_success provider req attempt s code v :
  attempt <= default_retries ->
  answer provider req s = Response code (Some v) ->
  ok code = true ->
  attempt_from provider req attempt s = (Ok v, log (EFetch req) s).
Proof.
  intros Hle Hans Hok. unfold attempt_from, answer in *.
  replace (S default_retries - attempt) with (S (default_retries - attempt)) by lia.
  simpl. unfold bind, fetch. rewrite Hans.
  destruct (ok_is_plain code Hok) as [H1 H2]. rewrite H1, H2, Hok. reflexivity.
Qed.

Lemma rate_limited_then_retried provider req attempt s json :
  attempt < default_retries ->
  answer provider req s = Response 429 json ->
  rate_limit_policy provider req attempt s.
Proof.
  intros Hlt Hans. split.
  - rewrite (attempt_from_rate_limited provider req (attempt := attempt) s (json := json));
      [reflexivity|lia|exact Hans].
  - apply attempt_from_sends. lia.
Qed.

Lemma blitzPost_after_three_rate_limits provider ep payload k s j1 j2 j3 code v :
  let req := {| endpoint := ep; body := payload; key := k |} in
  let s1 := log (ESleep 1000) (log (EFetch req) s) in
  let s2 := log (ESleep 2000) (log (EFetch req) s1) in
  let s3 := log (ESleep 4000) (log (EFetch req) s2) in
  answer provider req s = Response 429 j1 ->
  answer provider req s1 = Response 429 j2 ->
  answer provider req s2 = Response 429 j3 ->
  answer provider req s3 = Response code (Some v) ->
  ok code = true ->
  blitzPost provider ep payload k s = (Ok v, log (EFetch req) s3).
Proof.
  intros req s1 s2 s3 H1 H2 H3 H4 Hok.
  rewrite blitzPost_is_attempt_0. fold req.
  rewrite (attempt_from_rate_limited provider req (attempt := 0) s (json := j1));
    [|unfold default_retries; lia|exact H1].
  change (attempt_from provider req 1 s1 = (Ok v, log (EFetch req) s3)).
  rewrite (attempt_from_rate_limited provider req (attempt := 1) s1 (json := j2));
    [|unfold default_retries; lia|exact H2].
  change (attempt_from provider req 2 s2 = (Ok v, log (EFetch req) s3)).
  rewrite (attempt_from_rate_limited provider req (attempt := 2) s2 (json := j3));
    [|unfold default_retries; lia|exact H3].
  change (attempt_from provider req 3 s3 = (Ok v, log (EFetch req) s3)).
  apply (attempt_from_success provider req (attempt := 3) s3 (code := code));
    [unfold default_retries; lia|exact H4|exact Hok].
Qed.




(** C4. A call whose first attempt is answered "not found" (404) or
    "unprocessable" (422) returns the empty object as an ordinary result; the
    only effect of the call is that one request: no wait, no further
    attempt. *)
Theorem blitzPost_no_data :
  forall (provider : list Event -> Outcome) (ep : ustring) (payload : Value)
         (k : ustring) (s : State) (code : Z) (json : option Value),
    let req := {| endpoint := ep; body := payload; key := k |} in
    answer provider req s = Response code json ->
    code = 404%Z \/ code = 422%Z ->
    blitzPost provider ep payload k s = (Ok empty_object, log (EFetch req) s).
Proof.
  intros provider ep payload k s code json req Hans Hcode.
  unfold blitzPost, answer in *. simpl. unfold bind, fetch. fold req. rewrite Hans.
  destruct Hcode as [-> | ->]; reflexivity.
Qed.

Lemma blitzPost_no_data_witness :
  blitzPost (scripted [Response 404 None]) (endpoint a_request) (body a_request)
    (key a_request) idle_state
  = (Ok empty_object,
     {| status := initial_status []; results := []; trace := [EFetch a_request] |}).
Proof.
  apply (blitzPost_no_data (scripted [Response 404 None]) (endpoint a_request)
           (body a_request) (key a_request) idle_state (code := 404%Z) (json := None)).
  - reflexivity.
  - left. reflexivity.
Defined.

Lemma attempt_from_after_failures provider req fs :
  forall attempt s,
    attempt + length fs <= default_retries ->
    fails provider req attempt fs s ->
    attempt_from provider req attempt s
    = attempt_from provider req (attempt + length fs) (after_failures req attempt fs s).
Proof.
  induction fs as [|f fs IH]; intros attempt s Hle Hfails; cbn [length after_failures].
  - rewrite Nat.add_0_r. reflexivity.
  - cbn [length] in Hle. destruct Hfails as [Hf Hrest].
    replace (attempt + S (length fs)) with (S attempt + length fs) by lia.
    rewrite <- (IH (S attempt) _ ltac:(lia) Hrest).
    destruct f; cbn [failed_as backoff] in *.
    + destruct Hf as [json Hf].
      rewrite (attempt_from_rate_limited provider req (attempt := attempt) s (json := json));
        [reflexivity|lia|exact Hf].
    + apply attempt_from_hard_failure; [lia|exact Hf].
Qed.

(** C5. A call never raises: whatever the provider answers, it returns a
    value. Whatever failures, rate limits or hard ones, its first attempts
    meet, the call goes on with the next attempt, which sends the request
    again, and it has then waited [1000 * (attempt + 1)] milliseconds after
    each attempt that failed hard (rejected promise, which covers network
    errors and the deadline, a status that is neither a success nor 429, 404
    or 422, or an unreadable body); when four attempts have failed and the
    fifth fails hard, the call returns the empty object with no further
    wait. Attempt by attempt: a hard failure is followed, while the budget
    lasts (attempt index below 4), by that wait and another attempt, and on
    the fifth attempt by the empty object. *)
Theorem blitzPost_never_raises :
  forall (provider : list Event -> Outcome) (ep : ustring) (payload : Value)
         (k : ustring) (s : State),
    let req := {| endpoint := ep; body := payload; key := k |} in
    (exists v s', blitzPost provider ep payload k s = (Ok v, s'))
    /\ (forall fs : list Failure,
           length fs <= default_retries ->
           fails provider req 0 fs s ->
           let s' := after_failures req 0 fs s in
           blitzPost provider ep payload k s = attempt_from provider req (length fs) s'
           /\ retried provider req (length fs) s'
           /\ (length fs = default_retries ->
               hard_failure (answer provider req s') = true ->
               blitzPost provider ep payload k s
               = (Ok empty_object, log (EFetch req) s')))
    /\ (forall (attempt : nat) (sa : State),
           attempt <= default_retries ->
           (exists v s', attempt_from provider req attempt sa = (Ok v, s'))
           /\ (hard_failure (answer provider req sa) = true ->
               if attempt <? default_retries
               then
                 let s' := log (ESleep (1000 * (Z.of_nat attempt + 1)))
                             (log (EFetch req) sa) in
                 attempt_from provider req attempt sa
                 = attempt_from provider req (S attempt) s'
                 /\ retried provider req (S attempt) s'
               else
                 attempt_from provider req attempt sa
                 = (Ok empty_object, log (EFetch req) sa))).
Proof.
  intros provider ep payload k s req.
  split; [apply blitzPost_from_returns|]. split.
  - intros fs Hle Hfails s'.
    assert (Hgo : blitzPost provider ep payload k s
                  = attempt_from provider req (length fs) s').
    { rewrite blitzPost_is_attempt_0. fold req.
      apply (@attempt_from_after_failures provider req fs 0 s); assumption. }
    split; [exact Hgo|]. split; [apply attempt_from_sends; exact Hle|].
    intros Hlen Hhard. rewrite Hgo, Hlen.
    apply attempt_from_last_hard_failure. exact Hhard.
  - intros attempt sa Hle.
    split; [apply blitzPost_from_returns|].
    intros Hhard. destruct (attempt <? default_retries) eqn:Hlt.
    + apply Nat.ltb_lt in Hlt. split.
      * apply attempt_from_hard_failure; assumption.
      * apply attempt_from_sends. lia.
    + apply Nat.ltb_ge in Hlt. assert (attempt = default_retries) as -> by lia.
      apply attempt_from_last_hard_failure. exact Hhard.
Qed.

Lemma blitzPost_never_raises_witness :
  blitzPost always_unavailable (endpoint a_request) (body a_request) (key a_request)
    idle_state
  = (Ok empty_object,
     {| status := initial_status []; results := [];
        trace := [EFetch a_request; ESleep 1000; EFetch a_request; ESleep 2000;
                  EFetch a_request; ESleep 3000; EFetch a_request; ESleep 4000;
                  EFetch a_request] |})
  /\ blitzPost (scripted [Response 429 None; Response 503 None; Response 200 (Some parsed_body)])
       (endpoint a_request) (body a_request) (key a_request) idle_state
     = attempt_from
         (scripted [Response 429 None; Response 503 None; Response 200 (Some parsed_body)])
         a_request 2
         {| status := initial_status []; results := [];
            trace := [EFetch a_request; ESleep 1000; EFetch a_request; ESleep 2000] |}
  /\ attempt_from always_unavailable a_request 0 idle_state
     = attempt_from always_unavailable a_request 1
         (log (ESleep 1000) (log (EFetch a_request) idle_state)).
Proof.
  split; [|split].
  - destruct (blitzPost_never_raises always_unavailable (endpoint a_request)
                (body a_request) (key a_request) idle_state)
      as (_ & Hrun & _).
    destruct (Hrun [Hard; Hard; Hard; Hard]) as (_ & _ & Hend).
    + unfold default_retries. simpl. lia.
    + simpl. repeat split; reflexivity.
    + apply Hend; reflexivity.
  - destruct (blitzPost_never_raises
                (scripted [Response 429 None; Response 503 None;
                           Response 200 (Some parsed_body)])
                (endpoint a_request) (body a_request) (key a_request) idle_state)
      as (_ & Hrun & _).
    destruct (Hrun [RateLimited; Hard]) as (Hgo & _).
    + unfold default_retries. simpl. lia.
    + simpl. split; [exists None; reflexivity|]. split; [reflexivity|exact I].
    + exact Hgo.
  - destruct (blitzPost_never_raises always_unavailable (endpoint a_request)
                (body a_request) (key a_request) idle_state)
      as (_ & _ & Hstep).
    destruct (Hstep 0 idle_state) as [_ Hhard].
    + unfold default_retries. lia.
    + destruct (Hhard eq_refl) as [Hgo _]. exact Hgo.
Defined.

(** A call whose five attempts all fail hard: four waits of 1000, 2000, 3000
    and 4000 milliseconds, and the empty object after the fifth attempt. *)
Lemma blitzPost_budget_exhausted (provider : list Event -> Outcome) ep payload k s :
  (forall tr, hard_failure (provider tr) = true) ->
  let req := {| endpoint := ep; body := payload; key := k |} in
  blitzPost provider ep payload k s
  = (Ok empty_object,
     {| status := status s; results := results s;
        trace := trace s ++ [EFetch req; ESleep 1000; EFetch req; ESleep 2000;
                             EFetch req; ESleep 3000; EFetch req; ESleep 4000;
                             EFetch req] |}).
Proof.
  intros Hall req. rewrite blitzPost_is_attempt_0. fold req.
  rewrite attempt_from_hard_failure; [|unfold default_retries; lia|apply Hall].
  rewrite attempt_from_hard_failure; [|unfold default_retries; lia|apply Hall].
  rewrite attempt_from_hard_failure; [|unfold default_retries; lia|apply Hall].
  rewrite attempt_from_hard_failure; [|unfold default_retries; lia|apply Hall].
  change 4 with default_retries at 1.
  rewrite attempt_from_last_hard_failure; [|apply Hall].
  unfold log. simpl. rewrite <- !app_assoc. reflexivity.
Qed.

(** * The Pagination Driver *)

Lemma PAGE_SIZE_pos : 0 < PAGE_SIZE.
Proof. unfold PAGE_SIZE. lia. Qed.

Lemma pages_count n p :
  0 < p ->
  n / p + 1 = ceil_div n p + (if n mod p =? 0 then 1 else 0).
Proof.
  intros Hp. unfold ceil_div.
  pose proof (Nat.div_mod_eq n p) as Hn.
  pose proof (Nat.mod_upper_bound n p ltac:(lia)) as Hr.
  destruct (n mod p =? 0) eqn:Hz.
  - apply Nat.eqb_eq in Hz.
    assert (Hq : (n + p - 1) / p = n / p).
    { symmetry. apply (Nat.div_unique (n + p - 1) p (n / p) (p - 1)); nia. }
    lia.
  - apply Nat.eqb_neq in Hz.
    assert (Hq : (n + p - 1) / p = n / p + 1).
    { symmetry. apply (Nat.div_unique (n + p - 1) p (n / p + 1) (n mod p - 1)); nia. }
    lia.
Qed.

Lemma requests_pages_from url k count :
  forall page,
    requests (pages_from url k page count) = map (search_request url k) (seq page count).
Proof.
  induction count as [|count IH]; intros page; [reflexivity|].
  simpl. f_equal. destruct count as [|count]; [reflexivity|].
  change (requests (pages_from url k (S page) (S count))
          = map (search_request url k) (seq (S page) (S count))).
  apply IH.
Qed.

Local Opaque PAGE_SIZE.

Lemma paged_answer records url k page s :
  answer (paged records) (search_request url k page) s
  = Response 200
      (Some (VObj [(u "results",
                    VArr (firstn PAGE_SIZE (skipn ((page - 1) * PAGE_SIZE) records)))])).
Proof.
  unfold answer, paged, log. simpl trace. rewrite last_last.
  cbn. rewrite !Nat2Z.id. reflexivity.
Qed.

(** One turn of the loop when the call yields an object whose [results] is an
    array: a short page ends the loop, a full page leads to the next one. *)
Lemma findAllEmployees_turn provider fuel url k all page s fields items s1 :
  blitzPost provider search_endpoint (search_body url page) k s = (Ok (VObj fields), s1) ->
  field (u "results") fields = VArr items ->
  findAllEmployees_from provider (S fuel) url k all page s
  = if length items <? PAGE_SIZE
    then (Ok (all ++ items), s1)
    else findAllEmployees_from provider fuel url k (all ++ items) (S page)
           (log (ESleep DELAY_MS) s1).
Proof.
  intros Hcall Hfield.
  change (findAllEmployees_from provider (S fuel) url k all page s)
    with (bind (blitzPost provider search_endpoint (search_body url page) k)
            (fun data =>
               r <- get (u "results") data;;
               items <- iterate (or_else r (VArr []));;
               if length_of (or_else r (VArr [])) <? PAGE_SIZE
               then ret (all ++ items)
               else sleep DELAY_MS;;;
                    findAllEmployees_from provider fuel url k (all ++ items) (S page)) s).
  unfold bind at 1. rewrite Hcall.
  unfold get, bind at 1, ret at 1. rewrite Hfield.
  change (or_else (VArr items) (VArr [])) with (VArr items).
  unfold iterate, bind at 1, ret at 1. unfold length_of.
  destruct (length items <? PAGE_SIZE); reflexivity.
Qed.

Lemma paged_call records url k page s :
  blitzPost (paged records) search_endpoint (search_body url page) k s
  = (Ok (VObj [(u "results",
                VArr (firstn PAGE_SIZE (skipn ((page - 1) * PAGE_SIZE) records)))]),
     log (EFetch (search_request url k page)) s).
Proof.
  rewrite blitzPost_is_attempt_0.
  apply (attempt_from_success (paged records) (search_request url k page)
           (attempt := 0) s (code := 200%Z)).
  - lia.
  - apply paged_answer.
  - reflexivity.
Qed.

Lemma findAllEmployees_paged records url k :
  forall fuel page all s,
    1 <= page ->
    let rest := skipn ((page - 1) * PAGE_SIZE) records in
    length rest / PAGE_SIZE < fuel ->
    findAllEmployees_from (paged records) fuel url k all page s
    = (Ok (all ++ rest),
       {| status := status s; results := results s;
          trace := trace s ++ pages_from url k page (length rest / PAGE_SIZE + 1) |}).
Proof.
  pose proof PAGE_SIZE_pos as Hp.
  induction fuel as [|fuel IH]; intros page all s Hpage rest Hfuel; [lia|].
  rewrite (findAllEmployees_turn (paged records) fuel url k all page s
             (paged_call records url k page s) eq_refl).
  fold rest.
  destruct (Nat.ltb_spec (length (firstn PAGE_SIZE rest)) PAGE_SIZE) as [Hshort | Hfull].
  - assert (Hlen : length rest < PAGE_SIZE).
    { rewrite length_firstn in Hshort. lia. }
    rewrite firstn_all2 by lia.
    rewrite (Nat.div_small _ _ Hlen). reflexivity.
  - assert (Hlen : PAGE_SIZE <= length rest).
    { rewrite length_firstn in Hfull. lia. }
    assert (Hrest : skipn ((S page - 1) * PAGE_SIZE) records = skipn PAGE_SIZE rest).
    { unfold rest. rewrite skipn_skipn. f_equal. nia. }
    assert (Hdiv : length rest / PAGE_SIZE = S (length (skipn PAGE_SIZE rest) / PAGE_SIZE)).
    { rewrite length_skipn.
      replace (length rest) with ((length rest - PAGE_SIZE) + 1 * PAGE_SIZE) at 1 by lia.
      rewrite Nat.div_add by lia. lia. }
    specialize (IH (S page) (all ++ firstn PAGE_SIZE rest)
                  (log (ESleep DELAY_MS) (log (EFetch (search_request url k page)) s))
                  ltac:(lia)).
    cbv zeta in IH. rewrite Hrest in IH. rewrite IH by lia.
    rewrite <- app_assoc, firstn_skipn. rewrite Hdiv.
    unfold log. simpl. rewrite <- !app_assoc.
    replace (length (skipn PAGE_SIZE rest) / PAGE_SIZE + 1)
      with (S (length (skipn PAGE_SIZE rest) / PAGE_SIZE)) by lia.
    reflexivity.
Qed.

Local Transparent PAGE_SIZE.

(** C2, as amended. For a company of N employee records served in pages of
    P = 50, the Pagination Driver returns the N records in order after
    fetching pages 1 to floor(N/P) + 1, waiting 150 ms between pages: that is
    the ceiling of N/P pages, plus one extra empty page when N is a multiple
    of P, N = 0 included (a company without employees costs one search call,
    not none). Each turn of the loop stops on a page shorter than P and goes
    on to the next page otherwise. *)
Theorem findAllEmployees_pages :
  forall (records : list Value) (url k : ustring) (fuel : nat) (s : State),
    let n := length records in
    let ev := pages_from url k 1 (n / PAGE_SIZE + 1) in
    n / PAGE_SIZE < fuel ->
    findAllEmployees (paged records) fuel url k s
    = (Ok records,
       {| status := status s; results := results s; trace := trace s ++ ev |})
    /\ requests ev = map (search_request url k) (seq 1 (n / PAGE_SIZE + 1))
    /\ length (requests ev)
       = ceil_div n PAGE_SIZE + (if n mod PAGE_SIZE =? 0 then 1 else 0)
    /\ (forall provider all page s0 fields items s1,
           blitzPost provider search_endpoint (search_body url page) k s0
           = (Ok (VObj fields), s1) ->
           field (u "results") fields = VArr items ->
           findAllEmployees_from provider (S fuel) url k all page s0
           = if length items <? PAGE_SIZE
             then (Ok (all ++ items), s1)
             else findAllEmployees_from provider fuel url k (all ++ items) (S page)
                    (log (ESleep DELAY_MS) s1)).
Proof.
  intros records url k fuel s n ev Hfuel.
  split; [|split; [|split]].
  - unfold findAllEmployees.
    pose proof (findAllEmployees_paged records url k (fuel := fuel) (page := 1) [] s
                  (le_n 1)) as H.
    cbv zeta in H. simpl skipn in H. apply H. exact Hfuel.
  - apply requests_pages_from.
  - unfold ev. rewrite requests_pages_from, length_map, length_seq.
    apply pages_count. apply PAGE_SIZE_pos.
  - intros provider all page s0 fields items s1 Hcall Hfield.
    apply (findAllEmployees_turn provider fuel url k all page s0 Hcall Hfield).
Qed.

Lemma findAllEmployees_pages_witness :
  findAllEmployees (paged (staff 100)) 3 acme_url (u "secret") idle_state
  = (Ok (staff 100),
     {| status := initial_status []; results := [];
        trace := [EFetch (search_request acme_url (u "secret") 1); ESleep 150;
                  EFetch (search_request acme_url (u "secret") 2); ESleep 150;
                  EFetch (search_request acme_url (u "secret") 3)] |}).
Proof.
  destruct (findAllEmployees_pages (staff 100) acme_url (u "secret") (fuel := 3) idle_state)
    as [Hrun _].
  - vm_compute. lia.
  - exact Hrun.
Defined.

(** C2 fails as stated for N = 0: the specification announces no page for a
    company without employees, and the driver fetches one. *)
Lemma findAllEmployees_no_employees :
  findAllEmployees (paged []) 1 acme_url (u "secret") idle_state
  = (Ok [],
     {| status := initial_status []; results := [];
        trace := [EFetch (search_request acme_url (u "secret") 1)] |})
  /\ pages_claimed (length (@nil Value)) = 0
  /\ length (requests [EFetch (search_request acme_url (u "secret") 1)]) = 1.
Proof.
  split; [reflexivity|]. split; reflexivity.
Qed.

(** * The Experience Resolver *)

Lemma includes_empty s : JsString.includes [] s = true.
Proof. destruct s; reflexivity. Qed.

Lemma current_at_company_step slug fields rest s :
  entry_ok (VObj fields) = true ->
  current_at_company slug (VObj fields :: rest) s
  = if is_current (VObj fields) && negb (JsString.is_empty slug)
       && JsString.includes slug (company_id (VObj fields))
    then (Ok (Some (VObj fields)), s)
    else current_at_company slug rest s.
Proof.
  intros He. unfold entry_ok in He.
  cbn [current_at_company get is_current company_id]. unfold bind, ret.
  destruct (truthy (field (u "job_is_current") fields)); [|reflexivity].
  destruct slug as [|c slug]; [reflexivity|].
  cbn [JsString.is_empty negb andb].
  destruct (field (u "company_linkedin_url") fields) as [| | | |cid| |];
    try discriminate He; unfold or_else, empty_string; cbn [truthy includes_slug].
  - unfold ret. destruct (JsString.includes (c :: slug) []); reflexivity.
  - unfold ret. destruct (JsString.includes (c :: slug) []); reflexivity.
  - destruct cid as [|d cid]; cbn [JsString.is_empty negb includes_slug]; unfold ret.
    + destruct (JsString.includes (c :: slug) []); reflexivity.
    + destruct (JsString.includes (c :: slug) (d :: cid)); reflexivity.
Qed.

Lemma current_at_company_find slug exps s :
  Forall (fun e => entry_ok e = true) exps ->
  current_at_company slug exps s
  = (Ok (if JsString.is_empty slug then None
         else find (fun e => is_current e && JsString.includes slug (company_id e)) exps),
     s).
Proof.
  intros Hok. induction Hok as [|e exps He _ IH].
  - simpl. destruct (JsString.is_empty slug); reflexivity.
  - destruct e as [| | | | | |fields]; try discriminate He.
    rewrite (current_at_company_step slug fields exps s He), IH.
    cbn [find].
    destruct (is_current (VObj fields)); cbn [andb]; [|reflexivity].
    destruct (JsString.is_empty slug); cbn [andb negb]; [reflexivity|].
    destruct (JsString.includes slug (company_id (VObj fields))); reflexivity.
Qed.

Lemma any_current_find exps s :
  Forall (fun e => entry_ok e = true) exps ->
  any_current exps s = (Ok (find is_current exps), s).
Proof.
  intros Hok. induction Hok as [|e exps He _ IH]; [reflexivity|].
  destruct e as [| | | | | |fields]; try discriminate He.
  cbn [any_current get find is_current]. unfold bind, ret.
  destruct (truthy (field (u "job_is_current") fields)); [reflexivity|exact IH].
Qed.

Lemma find_current_at_empty exps :
  find (fun e => is_current e && JsString.includes [] (company_id e)) exps
  = find is_current exps.
Proof.
  induction exps as [|e exps IH]; [reflexivity|].
  simpl. rewrite includes_empty, andb_true_r, IH. reflexivity.
Qed.

Example slug_of_company_page :
  slug_of (u "https://www.linkedin.com/company/acme") = u "acme".
Proof. reflexivity. Qed.

Example slug_of_trailing_slash :
  slug_of (u "https://www.linkedin.com/company/acme/") = u "acme".
Proof. reflexivity. Qed.

Example slug_of_bare_name : slug_of (u "acme") = u "acme".
Proof. reflexivity. Qed.

(** C8, as amended. For a history of well-formed entries, the Experience
    Resolver returns, in priority order: (1) the first current entry whose
    company identifier contains the slug of the target URL, the slug being
    what follows the last "/company/" separator once one trailing "/" is
    removed (the whole URL when it has no such separator); (2) otherwise the
    first current entry; (3) otherwise the first entry; (4) an empty object
    when the history is empty. *)
Theorem getCurrentExperience_priority :
  forall (exps : list Value) (url : ustring) (s : State),
    Forall (fun e => entry_ok e = true) exps ->
    getCurrentExperience (VArr exps) url s = (Ok (resolve (slug_of url) exps), s).
Proof.
  intros exps url s Hok. unfold getCurrentExperience, resolve.
  cbn [iterate]. unfold bind, ret.
  rewrite (current_at_company_find (slug_of url) s Hok).
  destruct (JsString.is_empty (slug_of url)) eqn:Hslug.
  - destruct (slug_of url); [|discriminate Hslug].
    rewrite find_current_at_empty.
    rewrite (any_current_find s Hok).
    destruct (find is_current exps) as [e|]; [reflexivity|].
    destruct Hok as [|e exps He _]; [reflexivity|].
    destruct e; try discriminate He. reflexivity.
  - destruct (find (fun e => is_current e && JsString.includes (slug_of url) (company_id e)) exps)
      as [e|]; [reflexivity|].
    rewrite (any_current_find s Hok).
    destruct (find is_current exps) as [e|]; [reflexivity|].
    destruct Hok as [|e exps He _]; [reflexivity|].
    destruct e; try discriminate He. reflexivity.
Qed.

Lemma getCurrentExperience_priority_witness :
  getCurrentExperience (VArr a_history) (u "https://www.linkedin.com/company/acme/") idle_state
  = (Ok (entry true acme_url (u "Engineer")), idle_state).
Proof.
  apply (getCurrentExperience_priority
           (exps := a_history) (u "https://www.linkedin.com/company/acme/") idle_state).
  repeat constructor.
Defined.

(** C8 fails as stated when the target URL goes on after the company's path
    segment: for ".../company/acme/about" the segment is "acme", the resolver
    looks for "acme/about" and falls back to the first current entry. *)
Lemma getCurrentExperience_subpage :
  let url := u "https://www.linkedin.com/company/acme/about" in
  path_segment url = u "acme"
  /\ slug_of url = u "acme/about"
  /\ resolve (path_segment url) a_history = entry true acme_url (u "Engineer")
  /\ getCurrentExperience (VArr a_history) url idle_state
     = (Ok (entry true globex_url (u "Advisor")), idle_state)
  /\ entry true globex_url (u "Advisor") <> resolve (path_segment url) a_history.
Proof.
  repeat split; try reflexivity.
  vm_compute. discriminate.
Qed.

(** * The Orchestrator *)

(** ** The rules of the program logic *)

Lemma counters_le_refl a : counters_le a a.
Proof. unfold counters_le. lia. Qed.

Lemma counters_le_trans a b c : counters_le a b -> counters_le b c -> counters_le a c.
Proof. unfold counters_le. lia. Qed.

Lemma steps_app sp ev1 :
  forall a b ev2 c,
    steps sp a ev1 b -> steps sp b ev2 c -> steps sp a (ev1 ++ ev2) c.
Proof.
  induction ev1 as [|e ev1 IH]; intros a b ev2 c H1 H2; simpl in *.
  - subst b. exact H2.
  - destruct e as [r|ms|st1].
    + destruct H1 as [Hr H1]. split; [exact Hr|]. eapply IH; eassumption.
    + eapply IH; eassumption.
    + destruct H1 as [Hp H1]. split; [exact Hp|]. eapply IH; eassumption.
Qed.

Lemma advances_refl sp s : advances sp s s.
Proof. exists []. split; [now rewrite app_nil_r|reflexivity]. Qed.

Lemma advances_trans sp s1 s2 s3 :
  advances sp s1 s2 -> advances sp s2 s3 -> advances sp s1 s3.
Proof.
  intros [ev1 [Ht1 Hs1]] [ev2 [Ht2 Hs2]]. exists (ev1 ++ ev2). split.
  - rewrite Ht2, Ht1, app_assoc. reflexivity.
  - eapply steps_app; eassumption.
Qed.

Section Logic.

Variable sp : bool.

Lemma quiet_ret {A : Type} (a : A) : quiet sp (ret a).
Proof. intros s. split; [reflexivity|apply advances_refl]. Qed.

Lemma quiet_throw {A : Type} (e : Exn) : quiet sp (@throw A e).
Proof. intros s. split; [reflexivity|apply advances_refl]. Qed.

Lemma quiet_out_of_fuel {A : Type} : quiet sp (@out_of_fuel A).
Proof. intros s. split; [reflexivity|apply advances_refl]. Qed.

Lemma quiet_bind {A B : Type} (m : M A) (k : A -> M B) :
  quiet sp m -> (forall a, quiet sp (k a)) -> quiet sp (bind m k).
Proof.
  intros Hm Hk s. unfold bind. destruct (Hm s) as [Hst Hadv].
  destruct (m s) as [[a|e|] s1]; simpl in *.
  - destruct (Hk a s1) as [Hst2 Hadv2]. split.
    + rewrite Hst2. exact Hst.
    + eapply advances_trans; eassumption.
  - split; assumption.
  - split; assumption.
Qed.

Lemma quiet_sleep ms : quiet sp (sleep ms).
Proof.
  intros s. split; [reflexivity|]. exists [ESleep ms]. split; reflexivity.
Qed.

Lemma quiet_push_result row : quiet sp (push_result row).
Proof.
  intros s. split; [reflexivity|]. exists []. simpl.
  split; [now rewrite app_nil_r|reflexivity].
Qed.

Lemma quiet_get name v : quiet sp (get name v).
Proof. destruct v; simpl; first [apply quiet_throw | apply quiet_ret]. Qed.

Lemma quiet_get_or_empty name v : quiet sp (get_or_empty name v).
Proof.
  unfold get_or_empty. apply quiet_bind; [apply quiet_get|].
  intros x. apply quiet_ret.
Qed.

Lemma quiet_iterate v : quiet sp (iterate v).
Proof. destruct v; simpl; first [apply quiet_throw | apply quiet_ret]. Qed.

Lemma quiet_includes_slug x slug : quiet sp (includes_slug x slug).
Proof. destruct x; simpl; first [apply quiet_throw | apply quiet_ret]. Qed.

Lemma quiet_current_at_company slug exps : quiet sp (current_at_company slug exps).
Proof.
  induction exps as [|e exps IH]; cbn [current_at_company]; [apply quiet_ret|].
  apply quiet_bind; [apply quiet_get|]. intros cur.
  destruct (truthy cur && negb (JsString.is_empty slug)); [|exact IH].
  apply quiet_bind; [apply quiet_get|]. intros cid.
  apply quiet_bind; [apply quiet_includes_slug|]. intros hit.
  destruct hit; [apply quiet_ret|exact IH].
Qed.

Lemma quiet_any_current exps : quiet sp (any_current exps).
Proof.
  induction exps as [|e exps IH]; cbn [any_current]; [apply quiet_ret|].
  apply quiet_bind; [apply quiet_get|]. intros cur.
  destruct (truthy cur); [apply quiet_ret|exact IH].
Qed.

Lemma quiet_getCurrentExperience experiences url :
  quiet sp (getCurrentExperience experiences url).
Proof.
  unfold getCurrentExperience.
  apply quiet_bind; [apply quiet_iterate|]. intros exps.
  apply quiet_bind; [apply quiet_current_at_company|]. intros [e|]; [apply quiet_ret|].
  apply quiet_bind; [apply quiet_any_current|]. intros [e|]; apply quiet_ret.
Qed.

Variable provider : list Event -> Outcome.

Lemma quiet_fetch req :
  (if sp then endpoint req <> phone_endpoint else True) ->
  quiet sp (fetch provider req).
Proof.
  intros Hreq s. split; [reflexivity|]. exists [EFetch req].
  split; [reflexivity|]. simpl. split; [exact Hreq|reflexivity].
Qed.

Lemma quiet_blitzPost_from req retries :
  (if sp then endpoint req <> phone_endpoint else True) ->
  forall n attempt, quiet sp (blitzPost_from provider n req retries attempt).
Proof.
  intros Hreq. induction n as [|n IH]; intros attempt; cbn [blitzPost_from];
    [apply quiet_ret|].
  assert (Hnext : forall ms,
             quiet sp (sleep ms;;; blitzPost_from provider n req retries (S attempt))).
  { intros ms. apply quiet_bind; [apply quiet_sleep|]. intros _. apply IH. }
  apply quiet_bind; [apply quiet_fetch; exact Hreq|].
  intros [|code json].
  - destruct (attempt <? retries); [apply Hnext|apply quiet_ret].
  - destruct (code =? 429)%Z; [apply Hnext|].
    destruct ((code =? 422) || (code =? 404))%Z; [apply quiet_ret|].
    destruct (negb (ok code)).
    + destruct (attempt <? retries); [apply Hnext|apply quiet_ret].
    + destruct json; [apply quiet_ret|].
      destruct (attempt <? retries); [apply Hnext|apply quiet_ret].
Qed.

Lemma quiet_blitzPost ep payload k :
  (if sp then ep <> phone_endpoint else True) ->
  quiet sp (blitzPost provider ep payload k).
Proof. intros Hep. unfold blitzPost. apply quiet_blitzPost_from. exact Hep. Qed.

Lemma search_is_not_phone : search_endpoint <> phone_endpoint.
Proof. vm_compute. discriminate. Qed.

Lemma email_is_not_phone : email_endpoint <> phone_endpoint.
Proof. vm_compute. discriminate. Qed.

Lemma quiet_findAllEmployees_from url k :
  forall fuel all page, quiet sp (findAllEmployees_from provider fuel url k all page).
Proof.
  induction fuel as [|fuel IH]; intros all page; cbn [findAllEmployees_from];
    [apply quiet_out_of_fuel|].
  apply quiet_bind.
  { apply quiet_blitzPost. destruct sp; [apply search_is_not_phone|exact I]. }
  intros data. apply quiet_bind; [apply quiet_get|]. intros r.
  apply quiet_bind; [apply quiet_iterate|]. intros items.
  destruct (length_of (or_else r (VArr [])) <? PAGE_SIZE); [apply quiet_ret|].
  apply quiet_bind; [apply quiet_sleep|]. intros _. apply IH.
Qed.

Lemma tracks_quiet {A : Type} i t (m : M A) :
  quiet sp m -> tracks sp i t m (fun _ => t).
Proof.
  intros Hm s Hs. destruct (Hm s) as [Hst Hadv]. split; [exact Hadv|].
  destruct (fst (m s)); [|exact I|exact I]. rewrite Hst. exact Hs.
Qed.

Lemma tracks_ret {A : Type} i t (a : A) (tally_of : A -> Tally) :
  tally_of a = t -> tracks sp i t (ret a) tally_of.
Proof.
  intros Ht s Hs. split; [apply advances_refl|]. simpl. rewrite Ht. exact Hs.
Qed.

Lemma tracks_bind {A B : Type} i t (m : M A) (f : A -> Tally) (k : A -> M B)
    (g : B -> Tally) :
  tracks sp i t m f ->
  (forall a, tracks sp i (f a) (k a) g) ->
  tracks sp i t (bind m k) g.
Proof.
  intros Hm Hk s Hs. unfold bind. destruct (Hm s Hs) as [Hadv Hpost].
  destruct (m s) as [[a|e|] s1]; simpl in *.
  - destruct (Hk a s1 Hpost) as [Hadv2 Hpost2]. split; [|exact Hpost2].
    eapply advances_trans; eassumption.
  - split; [exact Hadv|exact I].
  - split; [exact Hadv|exact I].
Qed.

Lemma tracks_broadcast i t t' up :
  (forall st, synced i t st ->
              progress sp st (assign st up) /\ synced i t' (assign st up)) ->
  tracks sp i t (broadcast up) (fun _ => t').
Proof.
  intros Hup s Hs. destruct (Hup (status s) Hs) as [Hprog Hsync]. split.
  - exists [EPublish (assign (status s) up)]. split; [reflexivity|].
    simpl. split; [exact Hprog|reflexivity].
  - exact Hsync.
Qed.

End Logic.

(** ** The steps of the Orchestrator keep status and counters in step *)

Section Orchestrator.

Variable provider : list Event -> Outcome.
Variable job : Job.

Lemma tracks_enrichEmail i liUrl t :
  tracks (skipPhone job) i t (enrichEmail provider job liUrl t) (fun r => snd r).
Proof.
  unfold enrichEmail.
  eapply tracks_bind.
  { apply tracks_quiet, quiet_blitzPost.
    destruct (skipPhone job); [apply email_is_not_phone|exact I]. }
  intros emailData. cbv beta.
  eapply tracks_bind; [apply tracks_quiet, quiet_get|]. intros e. cbv beta.
  eapply tracks_bind; [apply tracks_quiet, quiet_get|]. intros es. cbv beta.
  eapply tracks_bind with (f := fun t' : Tally => t').
  - destruct (truthy (or_else e empty_string)).
    + eapply tracks_bind.
      * apply (tracks_broadcast (sp := skipPhone job) (i := i) (t := t)
                 (t' := {| employees := employees t; emails := emails t + 1;
                           phones := phones t |})).
        intros st (Hc & He & Hm & Hp). unfold progress, counters_le, synced. simpl.
        repeat split; try lia. destruct (skipPhone job); [reflexivity|exact I].
      * intros ?. cbv beta. apply tracks_ret. reflexivity.
    + apply tracks_ret. reflexivity.
  - intros t'. cbv beta.
    eapply tracks_bind; [apply tracks_quiet, quiet_sleep|]. intros ?. cbv beta.
    apply tracks_ret. reflexivity.
Qed.

Lemma tracks_enrichPhone i liUrl t :
  tracks (skipPhone job) i t (enrichPhone provider job liUrl t) (fun r => snd r).
Proof.
  unfold enrichPhone. destruct (skipPhone job) eqn:Hsp; cbn [negb].
  { apply tracks_ret. reflexivity. }
  eapply tracks_bind.
  { apply tracks_quiet, quiet_blitzPost. exact I. }
  intros phoneData. cbv beta.
  eapply tracks_bind; [apply tracks_quiet, quiet_get|]. intros p. cbv beta.
  eapply tracks_bind with (f := fun t' : Tally => t').
  - destruct (truthy (or_else p empty_string)).
    + eapply tracks_bind.
      * apply (tracks_broadcast (sp := false) (i := i) (t := t)
                 (t' := {| employees := employees t; emails := emails t;
                           phones := phones t + 1 |})).
        intros st (Hc & He & Hm & Hp). unfold progress, counters_le, synced. simpl.
        repeat split; lia.
      * intros ?. cbv beta. apply tracks_ret. reflexivity.
    + apply tracks_ret. reflexivity.
  - intros t'. cbv beta.
    eapply tracks_bind; [apply tracks_quiet, quiet_sleep|]. intros ?. cbv beta.
    apply tracks_ret. reflexivity.
Qed.

Lemma tracks_enrichEmployee i co emp t :
  tracks (skipPhone job) i t (enrichEmployee provider job co emp t) (fun t' => t').
Proof.
  unfold enrichEmployee.
  eapply tracks_bind; [apply tracks_quiet, quiet_get_or_empty|]. intros liUrl. cbv beta.
  eapply tracks_bind; [apply tracks_quiet, quiet_get|]. intros l. cbv beta.
  eapply tracks_bind; [apply tracks_quiet, quiet_get|]. intros x. cbv beta.
  eapply tracks_bind; [apply tracks_quiet, quiet_getCurrentExperience|].
  intros currentExp. cbv beta.
  eapply tracks_bind; [apply tracks_quiet, quiet_get|]. intros jt. cbv beta.
  eapply tracks_bind.
  { apply tracks_quiet. destruct (truthy jt); [apply quiet_ret|apply quiet_get_or_empty]. }
  intros jobTitle. cbv beta.
  eapply tracks_bind with (f := fun found : Value * Value * Value * Tally => snd found).
  - destruct (truthy liUrl).
    + eapply tracks_bind; [apply tracks_enrichEmail|].
      intros [[email emailStatus] t1]. cbn [snd].
      eapply tracks_bind; [apply tracks_enrichPhone|].
      intros [phone t2]. cbn [snd]. apply tracks_ret. reflexivity.
    + apply tracks_ret. reflexivity.
  - intros [[[email emailStatus] phone] t']. cbn [snd].
    do 8 (eapply tracks_bind; [apply tracks_quiet, quiet_get_or_empty|]; intros ?; cbv beta).
    eapply tracks_bind; [apply tracks_quiet, quiet_push_result|]. intros ?. cbv beta.
    apply tracks_ret. reflexivity.
Qed.

Lemma tracks_enrichEmployees i co emps :
  forall t, tracks (skipPhone job) i t (enrichEmployees provider job co emps t) (fun t' => t').
Proof.
  induction emps as [|emp emps IH]; intros t; cbn [enrichEmployees].
  - apply tracks_ret. reflexivity.
  - eapply tracks_bind; [apply tracks_enrichEmployee|]. intros t'. apply IH.
Qed.

(** The part of the loop body that deals with a company that has an
    identifier. *)
Lemma tracks_company fuel i co t :
  tracks (skipPhone job) i t
    (emps <- findAllEmployees provider fuel (companyUrl co) (apiKey job);;
     broadcast (update_employees (employees t + length emps));;;
     enrichEmployees provider job co emps
       {| employees := employees t + length emps; emails := emails t; phones := phones t |})
    (fun t' => t').
Proof.
  eapply tracks_bind.
  { apply tracks_quiet. unfold findAllEmployees. apply quiet_findAllEmployees_from. }
  intros emps. cbv beta.
  eapply tracks_bind.
  - apply (tracks_broadcast (sp := skipPhone job) (i := i) (t := t)
             (t' := {| employees := employees t + length emps; emails := emails t;
                       phones := phones t |})).
    intros st (Hc & He & Hm & Hp). unfold progress, counters_le, synced. simpl.
    repeat split; try lia. destruct (skipPhone job); [reflexivity|exact I].
  - intros ?. cbv beta. apply tracks_enrichEmployees.
Qed.

Lemma bind_unfold {A B : Type} (m : M A) (k : A -> M B) s :
  bind m k s
  = match m s with
    | (Ok a, s') => k a s'
    | (Throw e, s') => (Throw e, s')
    | (OutOfFuel, s') => (OutOfFuel, s')
    end.
Proof. reflexivity. Qed.

Lemma bind_assoc {A B C : Type} (m : M A) (f : A -> M B) (g : B -> M C) s :
  bind (bind m f) g s = bind m (fun a => bind (f a) g) s.
Proof. unfold bind. destruct (m s) as [[a|e|] s1]; reflexivity. Qed.

Lemma enrichRows_cons fuel row rest i t s :
  enrichRows provider fuel job (row :: rest) i t s
  = if JsString.is_empty (companyUrl (company_of job row))
    then enrichRows provider fuel job rest (S i) t (row_announced job row i s)
    else bind (emps <- findAllEmployees provider fuel (companyUrl (company_of job row))
                         (apiKey job);;
               broadcast (update_employees (employees t + length emps));;;
               enrichEmployees provider job (company_of job row) emps
                 {| employees := employees t + length emps; emails := emails t;
                    phones := phones t |})
           (fun t2 => enrichRows provider fuel job rest (S i) t2)
           (row_announced job row i s).
Proof.
  cbn [enrichRows]. unfold bind at 1. cbn [broadcast]. fold (row_announced job row i s).
  destruct (JsString.is_empty (companyUrl (company_of job row))); [reflexivity|].
  rewrite !bind_assoc. reflexivity.
Qed.

Lemma enrichRows_advances fuel :
  forall rest i t s,
    synced i t (status s) ->
    advances (skipPhone job) s (snd (enrichRows provider fuel job rest i t s))
    /\ match fst (enrichRows provider fuel job rest i t s) with
       | Ok t' =>
           synced (i + length rest) t'
             (status (snd (enrichRows provider fuel job rest i t s)))
       | _ => True
       end.
Proof.
  induction rest as [|row rest IH]; intros i t s Hs.
  - simpl. rewrite Nat.add_0_r. split; [apply advances_refl|exact Hs].
  - rewrite enrichRows_cons. set (s1 := row_announced job row i s).
    assert (Hadv1 : advances (skipPhone job) s s1).
    { exists [EPublish (status s1)].
      split; [reflexivity|]. simpl. split; [|reflexivity].
      destruct Hs as (Hc & He & Hm & Hp). unfold progress, counters_le. simpl.
      repeat split; try lia. destruct (skipPhone job); [reflexivity|exact I]. }
    assert (Hs1 : synced (S i) t (status s1)).
    { destruct Hs as (Hc & He & Hm & Hp). unfold synced. simpl.
      repeat split; try assumption. lia. }
    replace (i + length (row :: rest)) with (S i + length rest) by (simpl; lia).
    destruct (JsString.is_empty (companyUrl (company_of job row))).
    + destruct (IH (S i) t s1 Hs1) as [Hadv2 Hpost]. split; [|exact Hpost].
      eapply advances_trans; eassumption.
    + pose proof (tracks_company fuel (company_of job row) (i := S i) (t := t) s1 Hs1)
        as [Hadv2 Hpost2].
      rewrite bind_unfold.
      destruct ((emps <- findAllEmployees provider fuel (companyUrl (company_of job row))
                           (apiKey job);;
                 broadcast (update_employees (employees t + length emps));;;
                 enrichEmployees provider job (company_of job row) emps
                   {| employees := employees t + length emps; emails := emails t;
                      phones := phones t |}) s1) as [[t2|e|] s2]; cbn [fst snd] in *.
      * destruct (IH (S i) t2 s2 Hpost2) as [Hadv3 Hpost3]. split; [|exact Hpost3].
        eapply advances_trans; [exact Hadv1|]. eapply advances_trans; eassumption.
      * split; [|exact I]. eapply advances_trans; eassumption.
      * split; [|exact I]. eapply advances_trans; eassumption.
Qed.

End Orchestrator.

(** ** What a whole run publishes *)

Lemma published_app ev1 ev2 : published (ev1 ++ ev2) = published ev1 ++ published ev2.
Proof.
  induction ev1 as [|[r|ms|st] ev1 IH]; simpl; [reflexivity|exact IH|exact IH|].
  now rewrite IH.
Qed.

Lemma requests_app ev1 ev2 : requests (ev1 ++ ev2) = requests ev1 ++ requests ev2.
Proof.
  induction ev1 as [|[r|ms|st] ev1 IH]; simpl; [reflexivity| |exact IH|exact IH].
  now rewrite IH.
Qed.

Lemma steps_stable sp ev :
  forall a b, steps sp a ev b -> Forall (stable sp a) (published ev) /\ stable sp a b.
Proof.
  induction ev as [|[r|ms|st] ev IH]; intros a b H; simpl in *.
  - subst b. split; [constructor|]. unfold stable. destruct sp; auto.
  - destruct H as [_ H]. apply IH. exact H.
  - apply IH. exact H.
  - destruct H as [(Hph & Hd & Htot & _ & Hsp) H].
    destruct (IH st b H) as [Hall Hb].
    assert (Hweaken : forall x, stable sp st x -> stable sp a x).
    { intros x (H1 & H2 & H3 & H4). unfold stable.
      rewrite H1, H2, H3. repeat split; try assumption.
      destruct sp; [congruence|exact I]. }
    split; [|apply Hweaken; exact Hb].
    constructor.
    + unfold stable. repeat split; assumption.
    + eapply Forall_impl; [|exact Hall]. exact Hweaken.
Qed.

Lemma steps_sorted sp ev :
  forall a b,
    steps sp a ev b ->
    StronglySorted counters_le (a :: published ev)
    /\ Forall (fun st => counters_le st b) (a :: published ev).
Proof.
  induction ev as [|[r|ms|st] ev IH]; intros a b H; simpl in *.
  - subst b. split; repeat constructor; apply counters_le_refl.
  - destruct H as [_ H]. apply IH. exact H.
  - apply IH. exact H.
  - destruct H as [(_ & _ & _ & Hle & _) H].
    destruct (IH st b H) as [Hsorted Hbelow]. split.
    + constructor; [exact Hsorted|].
      apply StronglySorted_inv in Hsorted as [_ Hafter].
      constructor; [exact Hle|].
      eapply Forall_impl; [|exact Hafter].
      intros x Hx. eapply counters_le_trans; eassumption.
    + constructor; [|exact Hbelow].
      apply Forall_inv in Hbelow. eapply counters_le_trans; eassumption.
Qed.

Lemma last_default {A : Type} (l : list A) :
  forall x d d', last (x :: l) d = last (x :: l) d'.
Proof.
  induction l as [|y l IH]; intros x d d'; [reflexivity|].
  change (last (y :: l) d = last (y :: l) d'). apply IH.
Qed.

Lemma steps_last sp ev :
  forall a b, steps sp a ev b -> b = last (published ev) a.
Proof.
  induction ev as [|[r|ms|st] ev IH]; intros a b H; simpl in *.
  - exact H.
  - destruct H as [_ H]. apply IH. exact H.
  - apply IH. exact H.
  - destruct H as [_ H]. apply IH in H. rewrite H.
    destruct (published ev) as [|x l]; [reflexivity|].
    change (last (st :: x :: l) a) with (last (x :: l) a).
    apply last_default.
Qed.

Lemma steps_requests ev :
  forall a b,
    steps true a ev b -> Forall (fun r => endpoint r <> phone_endpoint) (requests ev).
Proof.
  induction ev as [|[r|ms|st] ev IH]; intros a b H; simpl in *.
  - constructor.
  - destruct H as [Hr H]. constructor; [exact Hr|]. eapply IH. exact H.
  - eapply IH. exact H.
  - destruct H as [_ H]. eapply IH. exact H.
Qed.

Lemma StronglySorted_snoc {A : Type} (R : A -> A -> Prop) l x :
  StronglySorted R l -> Forall (fun y => R y x) l -> StronglySorted R (l ++ [x]).
Proof.
  induction 1 as [|y l Hl IH Hy]; intros Hx; simpl.
  - repeat constructor.
  - apply Forall_cons_iff in Hx as [Hyx Hx]. constructor; [apply IH; exact Hx|].
    apply Forall_app. split; [exact Hy|]. constructor; [exact Hyx|constructor].
Qed.

Lemma run_job_ending provider fuel job :
  exists ev st,
    steps (skipPhone job) (enriching_status job) ev st
    /\ Ending job ev st (snd (run_job provider fuel job)).
Proof.
  unfold run_job, startEnrichment, catch, runEnrichment.
  rewrite bind_unfold. cbn [broadcast initial_state status results trace app].
  fold (enriching_status job).
  set (s1 := {| status := enriching_status job; results := [];
                trace := [EPublish (enriching_status job)] |}).
  set (t0 := {| employees := 0; emails := 0; phones := 0 |}).
  assert (Hs1 : synced 0 t0 (status s1)).
  { unfold synced. simpl. repeat split. }
  destruct (enrichRows_advances provider job fuel (rows job) s1 Hs1)
    as [[ev [Htrace Hsteps]] Hpost].
  rewrite bind_unfold.
  destruct (enrichRows provider fuel job (rows job) 0 t0 s1) as [[t|e|] s2];
    cbn [fst snd] in *; exists ev, (status s2); (split; [exact Hsteps|]).
  - apply ended_done with (t := t); cbn [broadcast snd status trace].
    + exact Hpost.
    + rewrite Htrace. reflexivity.
    + reflexivity.
  - apply ended_error with (e := e); cbn [broadcast snd status trace].
    + rewrite Htrace. reflexivity.
    + reflexivity.
  - apply ended_out_of_fuel; [exact Htrace|reflexivity].
Qed.

(** * Properties of the Orchestrator *)

(** C9. Across the snapshots of a job, taken in order from the initial status
    on, the counters companyCurrent, employeesFound, emailsFound and
    phonesFound never decrease, and a snapshot in phase [done] has
    companyCurrent equal to companyTotal. *)
Theorem snapshots_monotone :
  forall (provider : list Event -> Outcome) (fuel : nat) (job : Job),
    let s := snd (run_job provider fuel job) in
    StronglySorted counters_le (snapshots job s)
    /\ Forall (fun st => match phase st with
                         | Done => companyCurrent st = companyTotal st
                         | _ => True
                         end) (snapshots job s).
Proof.
  intros provider fuel job s. unfold snapshots.
  destruct (run_job_ending provider fuel job) as (ev & st & Hsteps & Hend).
  fold s in Hend.
  destruct (steps_sorted _ _ _ _ Hsteps) as [Hsorted Hbelow].
  destruct (steps_stable _ _ _ _ Hsteps) as [Hstable Hst].
  assert (Hzero : forall l, Forall (counters_le (initial_status (rows job))) l).
  { intros l. apply Forall_forall. intros x _. unfold counters_le. simpl. lia. }
  assert (Hphase : Forall (fun x => match phase x with
                                    | Done => companyCurrent x = companyTotal x
                                    | _ => True
                                    end) (enriching_status job :: published ev)).
  { constructor; [exact I|]. eapply Forall_impl; [|exact Hstable].
    intros x (Hx & _). rewrite Hx. exact I. }
  destruct Hend as [Htrace _ | t Hsync Htrace _ | e Htrace _]; rewrite Htrace;
    cbn [published]; try rewrite published_app; cbn [published].
  - split.
    + constructor; [exact Hsorted|apply Hzero].
    + constructor; [exact I|exact Hphase].
  - destruct Hsync as (Hc & He & Hm & Hp). destruct Hst as (_ & _ & Htot & _).
    split.
    + constructor; [|apply Hzero].
      apply (StronglySorted_snoc (l := enriching_status job :: published ev)); [exact Hsorted|].
      eapply Forall_impl; [|exact Hbelow].
      intros x (H1 & H2 & H3 & H4). unfold counters_le. simpl. lia.
    + constructor; [exact I|].
      apply (Forall_app _ (enriching_status job :: published ev)). split; [exact Hphase|].
      constructor; [|constructor]. simpl. rewrite Hc, Htot. reflexivity.
  - split.
    + constructor; [|apply Hzero].
      apply (StronglySorted_snoc (l := enriching_status job :: published ev)); [exact Hsorted|].
      eapply Forall_impl; [|exact Hbelow].
      intros x Hx. exact Hx.
    + constructor; [exact I|].
      apply (Forall_app _ (enriching_status job :: published ev)). split; [exact Hphase|].
      constructor; [exact I|constructor].
Qed.

(** C6. With the skipPhone option enabled, no request of the job goes to the
    phone-enrichment operation, and phonesFound is 0 in the initial status
    and in every snapshot published, the terminal one included. *)
Theorem skipPhone_no_phone :
  forall (provider : list Event -> Outcome) (fuel : nat) (job : Job),
    skipPhone job = true ->
    let s := snd (run_job provider fuel job) in
    Forall (fun r => endpoint r <> phone_endpoint) (requests (trace s))
    /\ Forall (fun st => phonesFound st = 0) (snapshots job s).
Proof.
  intros provider fuel job Hskip s. unfold snapshots.
  destruct (run_job_ending provider fuel job) as (ev & st & Hsteps & Hend).
  fold s in Hend. rewrite Hskip in Hsteps.
  pose proof (steps_requests _ _ _ Hsteps) as Hreq.
  destruct (steps_stable _ _ _ _ Hsteps) as [Hstable Hst].
  assert (Hzero : Forall (fun x => phonesFound x = 0)
                    (enriching_status job :: published ev)).
  { constructor; [reflexivity|]. eapply Forall_impl; [|exact Hstable].
    intros x (_ & _ & _ & Hx). exact Hx. }
  destruct Hst as (_ & _ & _ & Hst). simpl in Hst.
  destruct Hend as [Htrace _ | t Hsync Htrace _ | e Htrace _]; rewrite Htrace;
    cbn [published requests]; try rewrite published_app, requests_app;
    cbn [published requests]; try rewrite app_nil_r.
  - split; [exact Hreq|]. constructor; [reflexivity|exact Hzero].
  - split; [exact Hreq|]. constructor; [reflexivity|].
    apply (Forall_app _ (enriching_status job :: published ev)). split; [exact Hzero|].
    constructor; [|constructor]. simpl.
    destruct Hsync as (_ & _ & _ & Hp). congruence.
  - split; [exact Hreq|]. constructor; [reflexivity|].
    apply (Forall_app _ (enriching_status job :: published ev)). split; [exact Hzero|].
    constructor; [exact Hst|constructor].
Qed.

Lemma skipPhone_no_phone_witness :
  let s := snd (run_job (directory [ada; grace]) 2 (a_job (VStr (u "true")))) in
  Forall (fun r => endpoint r <> phone_endpoint) (requests (trace s))
  /\ Forall (fun st => phonesFound st = 0) (snapshots (a_job (VStr (u "true"))) s).
Proof.
  apply (skipPhone_no_phone (directory [ada; grace]) 2 (a_job (VStr (u "true")))).
  reflexivity.
Defined.

(** C1, as amended. Result retrieval returns the accumulated rows if and only
    if the job's [done] flag is set, and the flag is set exactly in the
    phases [done] and [error]: in the phases [queued] and [enriching] the
    download path answers "not ready", in the phase [error] it returns the
    rows accumulated before the failure. *)
Theorem download_follows_done_flag :
  forall (provider : list Event -> Outcome) (fuel : nat) (job : Job),
    let s := snd (run_job provider fuel job) in
    Forall (fun st =>
              forall rs tr,
                download (Some {| status := st; results := rs; trace := tr |})
                = if terminal (phase st) then Table rs else NotReady)
           (snapshots job s)
    /\ download (Some s)
       = (if terminal (phase (status s)) then Table (results s) else NotReady)
    /\ download None = NotFound.
Proof.
  intros provider fuel job s.
  assert (Hflag : forall st rs tr,
             done st = terminal (phase st) ->
             download (Some {| status := st; results := rs; trace := tr |})
             = if terminal (phase st) then Table rs else NotReady).
  { intros st rs tr H. unfold download. cbn [status results]. rewrite H.
    destruct (terminal (phase st)); reflexivity. }
  destruct (run_job_ending provider fuel job) as (ev & st & Hsteps & Hend).
  fold s in Hend.
  destruct (steps_stable _ _ _ _ Hsteps) as [Hstable (Hph & Hd & _)].
  assert (Hmid : Forall (fun x => done x = terminal (phase x))
                   (enriching_status job :: published ev)).
  { constructor; [reflexivity|]. eapply Forall_impl; [|exact Hstable].
    intros x (Hx1 & Hx2 & _). rewrite Hx1, Hx2. reflexivity. }
  assert (Hall : Forall (fun x => done x = terminal (phase x)) (snapshots job s)
                 /\ done (status s) = terminal (phase (status s))).
  { unfold snapshots.
    destruct Hend as [Htrace Hstatus | t Hsync Htrace Hstatus | e Htrace Hstatus];
      rewrite Htrace, Hstatus; cbn [published]; try rewrite published_app;
      cbn [published].
    - split; [constructor; [reflexivity|exact Hmid]|]. rewrite Hph, Hd. reflexivity.
    - split; [|reflexivity]. constructor; [reflexivity|].
      apply (Forall_app _ (enriching_status job :: published ev)). split; [exact Hmid|].
      constructor; [reflexivity|constructor].
    - split; [|reflexivity]. constructor; [reflexivity|].
      apply (Forall_app _ (enriching_status job :: published ev)). split; [exact Hmid|].
      constructor; [reflexivity|constructor]. }
  destruct Hall as [Hsnap Hfinal]. split; [|split; [|reflexivity]].
  - eapply Forall_impl; [|exact Hsnap]. intros x Hx rs tr. apply Hflag. exact Hx.
  - destruct s as [st' rs tr]. apply Hflag. exact Hfinal.
Qed.

(** C1 fails as stated: when the second employee of the page is [null], the
    run ends in the phase [error] after the first employee's row has been
    appended, and the download path returns that row. *)
Lemma download_after_error :
  let s := snd (run_job (directory [ada; VNull]) 2 (a_job (VStr (u "false")))) in
  phase (status s) = Error
  /\ length (results s) = 1
  /\ download (Some s) = Table (results s)
  /\ ~ (download (Some s) = Table (results s) <-> phase (status s) = Done).
Proof.
  vm_compute. repeat split; try reflexivity.
  intros [H _]. specialize (H eq_refl). discriminate H.
Qed.

(** C7. A row whose company-identifier cell is empty once trimmed is skipped
    without error: processing it comes to publishing the progress snapshot
    of the row and going on with the next row, with the same counters; no
    request is sent for it and no result row is appended. *)
Theorem empty_identifier_row_skipped :
  forall (provider : list Event -> Outcome) (fuel : nat) (job : Job) (row : Row)
         (rest : list Row) (i : nat) (t : Tally) (s : State),
    JsString.trim (cell row (linkedinCol job)) = [] ->
    enrichRows provider fuel job (row :: rest) i t s
    = enrichRows provider fuel job rest (S i) t (row_announced job row i s)
    /\ requests (trace (row_announced job row i s)) = requests (trace s)
    /\ results (row_announced job row i s) = results s.
Proof.
  intros provider fuel job row rest i t s Hempty. split; [|split].
  - rewrite enrichRows_cons. cbn [company_of companyUrl]. rewrite Hempty. reflexivity.
  - unfold row_announced. cbn [trace]. rewrite requests_app. cbn [requests].
    apply app_nil_r.
  - reflexivity.
Qed.

Lemma empty_identifier_row_skipped_witness :
  let job := a_job (VStr (u "false")) in
  enrichRows (directory [ada]) 2 job [blank_row; acme_row] 0
    {| employees := 0; emails := 0; phones := 0 |} (initial_state job)
  = enrichRows (directory [ada]) 2 job [acme_row] 1
      {| employees := 0; emails := 0; phones := 0 |}
      (row_announced job blank_row 0 (initial_state job)).
Proof.
  intros job.
  apply (empty_identifier_row_skipped (directory [ada]) 2 job blank_row [acme_row] 0
           {| employees := 0; emails := 0; phones := 0 |} (initial_state job)).
  reflexivity.
Defined.

(** ** The skipPhone form field *)

Lemma JsString_eqb_eq a : forall b, JsString.eqb a b = true <-> a = b.
Proof.
  induction a as [|x a IH]; intros [|y b]; simpl; split; intros H;
    try reflexivity; try discriminate.
  - apply andb_true_iff in H as [Hx Ha]. apply N.eqb_eq in Hx. apply IH in Ha.
    congruence.
  - injection H as -> ->. rewrite N.eqb_refl. simpl. apply IH. reflexivity.
Qed.

Lemma grows_ret {A : Type} (a : A) : grows (ret a).
Proof. intros s. exists []. simpl. now rewrite app_nil_r. Qed.

Lemma grows_bind {A B : Type} (m : M A) (k : A -> M B) :
  grows m -> (forall a, grows (k a)) -> grows (bind m k).
Proof.
  intros Hm Hk s. unfold bind. destruct (Hm s) as [ev1 H1].
  destruct (m s) as [[a|e|] s1]; simpl in *.
  - destruct (Hk a s1) as [ev2 H2]. exists (ev1 ++ ev2).
    rewrite H2, H1, app_assoc. reflexivity.
  - exists ev1. exact H1.
  - exists ev1. exact H1.
Qed.

Lemma grows_get name v : grows (get name v).
Proof.
  destruct v; simpl; try apply grows_ret; intros s; exists []; simpl;
    now rewrite app_nil_r.
Qed.

Lemma grows_emit e : grows (emit e).
Proof. intros s. exists [e]. reflexivity. Qed.

Lemma grows_broadcast up : grows (broadcast up).
Proof. intros s. exists [EPublish (assign (status s) up)]. reflexivity. Qed.

Lemma enrichPhone_sends provider job liUrl t s :
  skipPhone job = false ->
  exists ev,
    trace (snd (enrichPhone provider job liUrl t s))
    = trace s
      ++ EFetch {| endpoint := phone_endpoint; body := person_body liUrl;
                   key := apiKey job |} :: ev.
Proof.
  intros Hskip. unfold enrichPhone. rewrite Hskip. cbn [negb].
  rewrite bind_unfold, blitzPost_is_attempt_0.
  set (req := {| endpoint := phone_endpoint; body := person_body liUrl;
                 key := apiKey job |}).
  destruct (attempt_from_sends provider req (attempt := 0) s) as [ev1 H1].
  { unfold default_retries. lia. }
  destruct (attempt_from provider req 0 s) as [[phoneData|e|] s1]; cbn [snd] in *;
    [|exists ev1; exact H1|exists ev1; exact H1].
  assert (Hrest : grows
            (p <- get (u "phone") phoneData;;
             t' <- (if truthy (or_else p empty_string)
                    then
                      broadcast (update_phones (phones t + 1));;;
                      ret {| employees := employees t; emails := emails t;
                             phones := phones t + 1 |}
                    else ret t);;
             sleep DELAY_MS;;; ret (or_else p empty_string, t'))).
  { apply grows_bind; [apply grows_get|]. intros p.
    apply grows_bind.
    - destruct (truthy (or_else p empty_string)); [|apply grows_ret].
      apply grows_bind; [apply grows_broadcast|]. intros _. apply grows_ret.
    - intros t'. apply grows_bind; [apply grows_emit|]. intros _. apply grows_ret. }
  destruct (Hrest s1) as [ev2 H2]. exists (ev1 ++ ev2).
  cbv zeta. cbn [phones]. rewrite H2, H1, <- app_assoc. reflexivity.
Qed.

(** * Further properties of the Remote Client *)

Lemma attempt_powers (a : nat) :
  a <= 4 ->
  (1 <= 2 ^ Z.of_nat a <= 16
   /\ Z.of_nat a + 1 <= 2 ^ Z.of_nat a
   /\ 2 ^ Z.of_nat (S a) = 2 * 2 ^ Z.of_nat a)%Z.
Proof.
  intros Ha.
  destruct a as [|[|[|[|[|a]]]]]; try lia; vm_compute; repeat split; congruence.
Qed.

Lemma total_wait_app ev1 ev2 :
  total_wait (ev1 ++ ev2) = (total_wait ev1 + total_wait ev2)%Z.
Proof.
  induction ev1 as [|[r|ms|st] ev1 IH]; simpl; try exact IH; lia.
Qed.

(** What a call comes to from iteration [attempt] on: it returns; it touches
    neither the status nor the results; it sends the same request up to once
    per remaining iteration; the total wait is bounded; and what it returns
    is the empty object or the body of the successful answer to its last
    request. *)
Lemma blitzPost_from_spec provider req :
  forall n attempt s,
    attempt + n = 5 ->
    exists ev v c,
      blitzPost_from provider n req default_retries attempt s
      = (Ok v, {| status := status s; results := results s; trace := trace s ++ ev |})
      /\ published ev = []
      /\ requests ev = repeat req c
      /\ c <= n /\ (0 < n -> 0 < c)
      /\ (0 <= total_wait ev <= 1000 * (32 - 2 ^ Z.of_nat attempt))%Z
      /\ (v = empty_object \/ success (provider (trace s ++ ev)) = Some v).
Proof.
  induction n as [|n IH]; intros attempt s Hsum.
  - exists [], empty_object, 0. cbn [blitzPost_from]. unfold ret.
    rewrite app_nil_r. assert (attempt = 5) as -> by lia.
    split; [destruct s; reflexivity|].
    split; [reflexivity|]. split; [reflexivity|]. split; [lia|]. split; [lia|].
    split; [vm_compute; split; congruence|now left].
  - assert (Ha : attempt <= 4) by lia.
    destruct (attempt_powers Ha) as (Hp & Hlin & Hsucc).
    set (s1 := log (EFetch req) s).
    assert (Hnext : forall ms,
               (0 <= ms <= 1000 * 2 ^ Z.of_nat attempt)%Z ->
               exists ev v c,
                 (sleep ms;;; blitzPost_from provider n req default_retries (S attempt)) s1
                 = (Ok v, {| status := status s; results := results s;
                             trace := trace s ++ ev |})
                 /\ published ev = []
                 /\ requests ev = repeat req c
                 /\ c <= S n /\ (0 < S n -> 0 < c)
                 /\ (0 <= total_wait ev <= 1000 * (32 - 2 ^ Z.of_nat attempt))%Z
                 /\ (v = empty_object \/ success (provider (trace s ++ ev)) = Some v)).
    { intros ms Hms. unfold bind, sleep, emit.
      destruct (IH (S attempt) (log (ESleep ms) s1) ltac:(lia))
        as (ev & v & c & Hrun & Hpub & Hreq & Hc & _ & Hwait & Hv).
      exists (EFetch req :: ESleep ms :: ev), v, (S c).
      rewrite Hrun. unfold s1, log in *. cbn [status results trace] in *.
      rewrite <- !app_assoc in *. cbn [app] in *.
      repeat split; try assumption; try lia.
      - cbn [requests repeat]. rewrite Hreq. reflexivity.
      - cbn [total_wait]. lia.
      - cbn [total_wait]. lia. }
    assert (Hstop : forall v,
               v = empty_object \/ success (provider (trace s1)) = Some v ->
               exists ev v' c,
                 ret v s1
                 = (Ok v', {| status := status s; results := results s;
                              trace := trace s ++ ev |})
                 /\ published ev = []
                 /\ requests ev = repeat req c
                 /\ c <= S n /\ (0 < S n -> 0 < c)
                 /\ (0 <= total_wait ev <= 1000 * (32 - 2 ^ Z.of_nat attempt))%Z
                 /\ (v' = empty_object \/ success (provider (trace s ++ ev)) = Some v')).
    { intros v Hv. exists [EFetch req], v, 1.
      repeat split; try reflexivity; try lia; try exact Hv. cbn [total_wait]. lia. }
    assert (Hfailed : exists ev v c,
               (if attempt <? default_retries
                then sleep (1000 * (Z.of_nat attempt + 1));;;
                     blitzPost_from provider n req default_retries (S attempt)
                else ret empty_object) s1
               = (Ok v, {| status := status s; results := results s;
                           trace := trace s ++ ev |})
               /\ published ev = []
               /\ requests ev = repeat req c
               /\ c <= S n /\ (0 < S n -> 0 < c)
               /\ (0 <= total_wait ev <= 1000 * (32 - 2 ^ Z.of_nat attempt))%Z
               /\ (v = empty_object \/ success (provider (trace s ++ ev)) = Some v)).
    { destruct (attempt <? default_retries); [apply Hnext; lia|apply Hstop; now left]. }
    cbn [blitzPost_from]. unfold bind at 1, fetch. fold s1.
    destruct (provider (trace s1)) as [|code json] eqn:Hans; [exact Hfailed|].
    destruct (code =? 429)%Z.
    { apply Hnext. pose proof (Z.le_min_l (1000 * 2 ^ Z.of_nat attempt) 16000). lia. }
    destruct ((code =? 422) || (code =? 404))%Z; [apply Hstop; now left|].
    destruct (negb (ok code)) eqn:Hok; [exact Hfailed|].
    destruct json as [v|]; [|exact Hfailed].
    apply Hstop. right. cbn [success].
    apply negb_false_iff in Hok. rewrite Hok. reflexivity.
Qed.

(** X1. A call of the Remote Client always returns, after sending its request
    at least once and at most five times and nothing else; it publishes no
    snapshot and leaves the job's status and results as they were. *)
Theorem blitzPost_one_to_five_requests :
  forall (provider : list Event -> Outcome) (ep : ustring) (payload : Value)
         (k : ustring) (s : State),
    exists ev v c,
      blitzPost provider ep payload k s
      = (Ok v, {| status := status s; results := results s; trace := trace s ++ ev |})
      /\ requests ev = repeat {| endpoint := ep; body := payload; key := k |} c
      /\ 1 <= c <= 5
      /\ published ev = [].
Proof.
  intros provider ep payload k s. unfold blitzPost.
  destruct (blitzPost_from_spec provider {| endpoint := ep; body := payload; key := k |}
              5 0 s eq_refl)
    as (ev & v & c & Hrun & Hpub & Hreq & Hc & Hpos & _ & _).
  exists ev, v, c. repeat split; try assumption. apply Hpos. lia.
Qed.

(** X2. Whatever the provider answers, the waits of one call add up to at
    most 31 seconds (1 + 2 + 4 + 8 + 16, reached when all five attempts are
    rate-limited). *)
Theorem blitzPost_total_wait :
  forall (provider : list Event -> Outcome) (ep : ustring) (payload : Value)
         (k : ustring) (s : State),
    exists ev,
      trace (snd (blitzPost provider ep payload k s)) = trace s ++ ev
      /\ (0 <= total_wait ev <= 31000)%Z
      /\ total_wait
           (trace (snd (blitzPost always_rate_limited ep payload k idle_state)))
         = 31000%Z.
Proof.
  intros provider ep payload k s. unfold blitzPost at 1.
  destruct (blitzPost_from_spec provider {| endpoint := ep; body := payload; key := k |}
              5 0 s eq_refl)
    as (ev & v & c & Hrun & _ & _ & _ & _ & Hwait & _).
  exists ev. unfold default_retries in *. rewrite Hrun. cbn [snd trace].
  split; [reflexivity|]. split; [|reflexivity].
  change (2 ^ Z.of_nat 0)%Z with 1%Z in Hwait. lia.
Qed.

(** X3. What a call returns is either the empty object or the parsed body of
    a 2xx answer, namely the answer to the last request it sent: the client
    never makes up data and never returns the body of a failed response. *)
Theorem blitzPost_result_origin :
  forall (provider : list Event -> Outcome) (ep : ustring) (payload : Value)
         (k : ustring) (s : State),
    exists v,
      fst (blitzPost provider ep payload k s) = Ok v
      /\ (v = empty_object
          \/ success (provider (trace (snd (blitzPost provider ep payload k s)))) = Some v).
Proof.
  intros provider ep payload k s. unfold blitzPost.
  destruct (blitzPost_from_spec provider {| endpoint := ep; body := payload; key := k |}
              5 0 s eq_refl)
    as (ev & v & c & Hrun & _ & _ & _ & _ & _ & Hv).
  exists v. unfold default_retries in *. rewrite Hrun. cbn [fst snd trace].
  split; [reflexivity|exact Hv].
Qed.

Lemma blitzPost_spec provider ep payload k s :
  exists ev v c,
    blitzPost provider ep payload k s
    = (Ok v, {| status := status s; results := results s; trace := trace s ++ ev |})
    /\ published ev = []
    /\ requests ev = repeat {| endpoint := ep; body := payload; key := k |} c
    /\ 1 <= c <= 5
    /\ (v = empty_object \/ success (provider (trace s ++ ev)) = Some v).
Proof.
  unfold blitzPost.
  destruct (blitzPost_from_spec provider {| endpoint := ep; body := payload; key := k |}
              5 0 s eq_refl)
    as (ev & v & c & Hrun & Hpub & Hreq & Hc & Hpos & _ & Hv).
  exists ev, v, c. repeat split; try assumption. apply Hpos. lia.
Qed.

Lemma blitzPost_without_success provider ep payload k s :
  (forall tr, success (provider tr) = None) ->
  exists ev c,
    blitzPost provider ep payload k s
    = (Ok empty_object,
       {| status := status s; results := results s; trace := trace s ++ ev |})
    /\ published ev = []
    /\ requests ev = repeat {| endpoint := ep; body := payload; key := k |} c
    /\ 1 <= c <= 5.
Proof.
  intros Hnone.
  destruct (blitzPost_spec provider ep payload k s)
    as (ev & v & c & Hrun & Hpub & Hreq & Hc & [-> | Hv]).
  - exists ev, c. repeat split; assumption || lia.
  - rewrite Hnone in Hv. discriminate Hv.
Qed.

(** * Further properties of the Pagination Driver *)

Lemma requests_repeat_sleep ev ms :
  requests (ev ++ [ESleep ms]) = requests ev.
Proof. rewrite requests_app. simpl. apply app_nil_r. Qed.

Lemma findAllEmployees_from_spec provider url k :
  forall fuel page all s,
    exists ev counts,
      snd (findAllEmployees_from provider fuel url k all page s)
      = {| status := status s; results := results s; trace := trace s ++ ev |}
      /\ published ev = []
      /\ requests ev = page_requests url k page counts
      /\ Forall (fun c => 1 <= c <= 5) counts
      /\ length counts <= fuel
      /\ match fst (findAllEmployees_from provider fuel url k all page s) with
         | Ok found => 1 <= length counts /\ exists more, found = all ++ more
         | Throw _ => 1 <= length counts
         | OutOfFuel => length counts = fuel
         end.
Proof.
  induction fuel as [|fuel IH]; intros page all s.
  - exists [], []. cbn [findAllEmployees_from]. unfold out_of_fuel. cbn [fst snd].
    rewrite app_nil_r. repeat split; try reflexivity; try constructor.
    destruct s; reflexivity.
  - pose (Post := fun p : Res (list Value) * State =>
                    exists ev counts,
                      snd p = {| status := status s; results := results s;
                                 trace := trace s ++ ev |}
                      /\ published ev = []
                      /\ requests ev = page_requests url k page counts
                      /\ Forall (fun c => 1 <= c <= 5) counts
                      /\ length counts <= S fuel
                      /\ match fst p with
                         | Ok found => 1 <= length counts /\ exists more, found = all ++ more
                         | Throw _ => 1 <= length counts
                         | OutOfFuel => length counts = S fuel
                         end).
    change (Post (findAllEmployees_from provider (S fuel) url k all page s)).
    cbn [findAllEmployees_from]. rewrite bind_unfold.
    destruct (blitzPost_spec provider search_endpoint (search_body url page) k s)
      as (ev1 & data & c & Hrun & Hpub1 & Hreq1 & Hc & _).
    rewrite Hrun.
    set (s1 := {| status := status s; results := results s; trace := trace s ++ ev1 |}).
    assert (Hthrow : forall e, Post (Throw e, s1)).
    { intros e. exists ev1, [c]. cbn [fst snd]. repeat split; try assumption; try (simpl; lia).
      - cbn [page_requests]. rewrite app_nil_r. exact Hreq1.
      - constructor; [exact Hc|constructor]. }
    assert (Hgo : forall found items,
               Post ((if length_of found <? PAGE_SIZE
                      then ret (all ++ items)
                      else sleep DELAY_MS;;;
                           findAllEmployees_from provider fuel url k (all ++ items) (S page))
                       s1)).
    { intros found items. destruct (length_of found <? PAGE_SIZE).
      - exists ev1, [c]. unfold ret. cbn [fst snd].
        repeat split; try assumption; try (simpl; lia).
        + cbn [page_requests]. rewrite app_nil_r. exact Hreq1.
        + constructor; [exact Hc|constructor].
        + exists items. reflexivity.
      - rewrite bind_unfold. unfold sleep, emit.
        destruct (IH (S page) (all ++ items) (log (ESleep DELAY_MS) s1))
          as (ev2 & counts2 & Hsnd & Hpub2 & Hreq2 & Hall2 & Hlen2 & Hres2).
        destruct (findAllEmployees_from provider fuel url k (all ++ items) (S page)
                    (log (ESleep DELAY_MS) s1)) as [r s2].
        cbn [fst snd] in *. subst s2.
        exists (ev1 ++ ESleep DELAY_MS :: ev2), (c :: counts2).
        unfold s1, log. cbn [status results trace fst snd].
        rewrite <- !app_assoc. cbn [app].
        split; [reflexivity|]. split.
        { rewrite published_app, Hpub1. exact Hpub2. }
        split.
        { rewrite requests_app, Hreq1. cbn [requests page_requests]. rewrite Hreq2.
          reflexivity. }
        split; [constructor; assumption|].
        split; [simpl; lia|].
        destruct r as [found'|e|].
        + split; [simpl; lia|]. destruct Hres2 as [_ [more ->]].
          exists (items ++ more). rewrite app_assoc. reflexivity.
        + simpl. lia.
        + simpl. lia. }
    destruct data as [| | | | | |fields]; cbn [get].
    + rewrite bind_unfold. apply Hthrow.
    + rewrite bind_unfold. apply Hthrow.
    + rewrite bind_unfold. unfold ret at 1. rewrite bind_unfold.
      apply (Hgo (VArr []) []).
    + rewrite bind_unfold. unfold ret at 1. rewrite bind_unfold.
      apply (Hgo (VArr []) []).
    + rewrite bind_unfold. unfold ret at 1. rewrite bind_unfold.
      apply (Hgo (VArr []) []).
    + rewrite bind_unfold. unfold ret at 1. rewrite bind_unfold.
      apply (Hgo (VArr []) []).
    + rewrite bind_unfold. unfold ret at 1. rewrite bind_unfold.
      destruct (or_else (field (u "results") fields) (VArr [])) as [| | | |str|items|o];
        cbn [iterate]; try apply Hthrow.
      * apply (Hgo (VStr str) (map VStr (JsString.code_points str))).
      * apply (Hgo (VArr items) items).
Qed.

(** X4. Whatever the provider answers, the Pagination Driver asks for the
    pages of the company in order, starting at page 1 and without skipping
    any, each page between one and five times (the retries of the Remote
    Client); it sends nothing else, publishes nothing and leaves status and
    results untouched. When it returns normally it has asked for at least
    one page. *)
Theorem findAllEmployees_pages_in_order :
  forall (provider : list Event -> Outcome) (fuel : nat) (url k : ustring) (s : State),
    exists ev counts,
      snd (findAllEmployees provider fuel url k s)
      = {| status := status s; results := results s; trace := trace s ++ ev |}
      /\ published ev = []
      /\ requests ev = page_requests url k 1 counts
      /\ Forall (fun c => 1 <= c <= 5) counts
      /\ length counts <= fuel
      /\ match fst (findAllEmployees provider fuel url k s) with
         | Ok _ | Throw _ => 1 <= length counts
         | OutOfFuel => length counts = fuel
         end.
Proof.
  intros provider fuel url k s. unfold findAllEmployees.
  destruct (findAllEmployees_from_spec provider url k fuel 1 [] s)
    as (ev & counts & H1 & H2 & H3 & H4 & H5 & H6).
  exists ev, counts. repeat split; try assumption.
  destruct (fst (findAllEmployees_from provider fuel url k [] 1 s)); try assumption.
  apply H6.
Qed.

Lemma findAllEmployees_without_success provider fuel url k s :
  (forall tr, success (provider tr) = None) ->
  exists ev c,
    findAllEmployees provider (S fuel) url k s
    = (Ok [], {| status := status s; results := results s; trace := trace s ++ ev |})
    /\ published ev = []
    /\ requests ev = repeat (search_request url k 1) c
    /\ 1 <= c <= 5.
Proof.
  intros Hnone. unfold findAllEmployees. cbn [findAllEmployees_from].
  rewrite bind_unfold.
  destruct (blitzPost_without_success provider search_endpoint (search_body url 1) k s Hnone)
    as (ev & c & Hrun & Hpub & Hreq & Hc).
  rewrite Hrun. exists ev, c. repeat split; try assumption; lia.
Qed.

(** X5. When no attempt of the search is answered successfully (the provider
    is down, rate-limits every attempt, or answers "not found"), the
    Pagination Driver returns the empty list after asking for page 1 only: to
    its caller the company looks like one without employees. *)
Theorem findAllEmployees_provider_down :
  forall (provider : list Event -> Outcome) (fuel : nat) (url k : ustring) (s : State),
    (forall tr, success (provider tr) = None) ->
    0 < fuel ->
    exists ev c,
      findAllEmployees provider fuel url k s
      = (Ok [], {| status := status s; results := results s; trace := trace s ++ ev |})
      /\ requests ev = repeat (search_request url k 1) c
      /\ 1 <= c <= 5.
Proof.
  intros provider fuel url k s Hnone Hfuel.
  destruct fuel as [|fuel]; [lia|].
  destruct (findAllEmployees_without_success provider fuel url k s Hnone)
    as (ev & c & Hrun & _ & Hreq & Hc).
  exists ev, c. repeat split; try assumption; lia.
Qed.

Lemma findAllEmployees_provider_down_witness :
  exists ev c,
    findAllEmployees out_of_service 1 acme_url (u "secret") idle_state
    = (Ok [], {| status := status idle_state; results := results idle_state;
                 trace := trace idle_state ++ ev |})
    /\ requests ev = repeat (search_request acme_url (u "secret") 1) c
    /\ 1 <= c <= 5.
Proof.
  apply (findAllEmployees_provider_down out_of_service (fuel := 1) acme_url (u "secret")
           idle_state).
  - intros tr. unfold out_of_service, scripted.
    destruct (length (requests tr) - 1) as [|[|[|[|[|n]]]]]; reflexivity.
  - lia.
Defined.

(** * Further properties of the Experience Resolver *)

Lemma current_at_company_result slug :
  forall exps s r s',
    current_at_company slug exps s = (r, s') ->
    s' = s
    /\ match r with
       | Ok (Some e) => In e exps /\ is_current e = true
       | OutOfFuel => False
       | _ => True
       end.
Proof.
  induction exps as [|x exps IH]; intros s r s' H.
  - simpl in H. unfold ret in H. injection H as <- <-. split; [reflexivity|exact I].
  - assert (Hrest : current_at_company slug exps s = (r, s') ->
                    s' = s
                    /\ match r with
                       | Ok (Some e) => In e (x :: exps) /\ is_current e = true
                       | OutOfFuel => False
                       | _ => True
                       end).
    { intros H'. destruct (IH s r s' H') as [Hs Hr]. split; [exact Hs|].
      destruct r as [[e|]|e|]; try exact I; try exact Hr. destruct Hr as [Hin Hcur].
      split; [right; exact Hin|exact Hcur]. }
    cbn [current_at_company] in H. rewrite bind_unfold in H.
    destruct x as [| | | | | |fields]; cbn [get] in H; unfold throw, ret in H;
      try (injection H as <- <-; split; [reflexivity|exact I]);
      try (cbn [truthy andb] in H; apply Hrest; exact H).
    destruct (truthy (field (u "job_is_current") fields)) eqn:Hcur;
      [|cbn [andb] in H; apply Hrest; exact H].
    destruct (negb (JsString.is_empty slug)); cbn [andb] in H; [|apply Hrest; exact H].
    rewrite bind_unfold in H. unfold ret in H. rewrite bind_unfold in H.
    destruct (or_else (field (u "company_linkedin_url") fields) empty_string)
      as [| | | |cid|items|o]; cbn [includes_slug] in H; unfold throw, ret in H;
      try (injection H as <- <-; split; [reflexivity|exact I]).
    + destruct (JsString.includes slug cid); [|apply Hrest; exact H].
      injection H as <- <-. split; [reflexivity|].
      split; [left; reflexivity|exact Hcur].
    + destruct (existsb _ items); [|apply Hrest; exact H].
      injection H as <- <-. split; [reflexivity|].
      split; [left; reflexivity|exact Hcur].
Qed.

Lemma any_current_result :
  forall exps s r s',
    any_current exps s = (r, s') ->
    s' = s
    /\ match r with
       | Ok (Some e) => In e exps /\ is_current e = true
       | Ok None => Forall (fun x => is_current x = false) exps
       | Throw _ => True
       | OutOfFuel => False
       end.
Proof.
  induction exps as [|x exps IH]; intros s r s' H.
  - simpl in H. unfold ret in H. injection H as <- <-. split; [reflexivity|constructor].
  - assert (Hrest : is_current x = false ->
                    any_current exps s = (r, s') ->
                    s' = s
                    /\ match r with
                       | Ok (Some e) => In e (x :: exps) /\ is_current e = true
                       | Ok None => Forall (fun y => is_current y = false) (x :: exps)
                       | Throw _ => True
                       | OutOfFuel => False
                       end).
    { intros Hx H'. destruct (IH s r s' H') as [Hs Hr]. split; [exact Hs|].
      destruct r as [[e|]|e|]; try exact I; try exact Hr.
      - destruct Hr as [Hin Hcur]. split; [right; exact Hin|exact Hcur].
      - constructor; assumption. }
    cbn [any_current] in H. rewrite bind_unfold in H.
    destruct x as [| | | | | |fields]; cbn [get] in H; unfold throw, ret in H;
      try (injection H as <- <-; split; [reflexivity|exact I]);
      try (cbn [truthy] in H; apply Hrest; [reflexivity|exact H]).
    destruct (truthy (field (u "job_is_current") fields)) eqn:Hcur.
    + injection H as <- <-. split; [reflexivity|].
      split; [left; reflexivity|exact Hcur].
    + apply Hrest; [exact Hcur|exact H].
Qed.

Lemma getCurrentExperience_result experiences url s e s' :
  getCurrentExperience experiences url s = (Ok e, s') ->
  exists exps,
    iterate experiences s = (Ok exps, s)
    /\ s' = s
    /\ ((In e exps /\ is_current e = true)
        \/ (Forall (fun x => is_current x = false) exps
            /\ e = or_else (first_item experiences) empty_object)).
Proof.
  unfold getCurrentExperience. intros H. rewrite bind_unfold in H.
  assert (Hiter : exists exps, iterate experiences s = (Ok exps, s)).
  { destruct experiences; cbn [iterate] in *; unfold throw, ret in *;
      try discriminate H; eexists; reflexivity. }
  destruct Hiter as [exps Hiter]. rewrite Hiter in H. exists exps.
  split; [exact Hiter|]. rewrite bind_unfold in H.
  destruct (current_at_company (slug_of url) exps s) as [r1 s1] eqn:H1.
  destruct (current_at_company_result _ _ _ H1) as [-> Hr1].
  destruct r1 as [[x|]|err|]; try discriminate H.
  - unfold ret in H. injection H as <- <-. split; [reflexivity|]. left. exact Hr1.
  - rewrite bind_unfold in H.
    destruct (any_current exps s) as [r2 s2] eqn:H2.
    destruct (any_current_result _ _ H2) as [-> Hr2].
    destruct r2 as [[x|]|err|]; try discriminate H; unfold ret in H;
      injection H as <- <-; (split; [reflexivity|]).
    + left. exact Hr2.
    + right. split; [exact Hr2|reflexivity].
Qed.

(** X6. Whatever the work history is (any JSON value) and whatever the
    target URL, an entry the Experience Resolver returns is never [null] or
    [undefined]: it is truthy, so reading its job title cannot fail; and the
    resolver leaves the job's state untouched. *)
Theorem getCurrentExperience_truthy :
  forall (experiences : Value) (url : ustring) (s : State) (e : Value) (s' : State),
    getCurrentExperience experiences url s = (Ok e, s') ->
    truthy e = true /\ s' = s /\ exists v, get (u "job_title") e s' = (Ok v, s').
Proof.
  intros experiences url s e s' H.
  destruct (getCurrentExperience_result _ _ _ H) as (exps & _ & -> & Hcases).
  assert (Htruthy : truthy e = true).
  { destruct Hcases as [[_ Hcur] | [_ ->]].
    - destruct e; try discriminate Hcur. reflexivity.
    - unfold or_else. destruct (truthy (first_item experiences)) eqn:Hf; [exact Hf|reflexivity]. }
  split; [exact Htruthy|]. split; [reflexivity|].
  destruct e; try discriminate Htruthy; cbn [get]; unfold ret; eexists; reflexivity.
Qed.

Lemma getCurrentExperience_truthy_witness :
  truthy (VObj [(u "job_title", VStr (u "Founder"))]) = true
  /\ idle_state = idle_state
  /\ exists v, get (u "job_title") (VObj [(u "job_title", VStr (u "Founder"))]) idle_state
               = (Ok v, idle_state).
Proof.
  apply (getCurrentExperience_truthy an_urlless_history acme_url idle_state).
  reflexivity.
Defined.

(** X7. For a work history that is an array of arbitrary values, a value the
    resolver returns is either one of the entries that is marked current, or,
    only when no entry is marked current, the first entry (the empty object
    when there is none or when it is falsy). The resolver never returns a
    non-current entry while a current one exists. *)
Theorem getCurrentExperience_prefers_current :
  forall (exps : list Value) (url : ustring) (s : State) (e : Value) (s' : State),
    getCurrentExperience (VArr exps) url s = (Ok e, s') ->
    (In e exps /\ is_current e = true)
    \/ (Forall (fun x => is_current x = false) exps
        /\ e = or_else (first_item (VArr exps)) empty_object).
Proof.
  intros exps url s e s' H.
  destruct (getCurrentExperience_result _ _ _ H) as (exps' & Hiter & _ & Hcases).
  cbn [iterate] in Hiter. unfold ret in Hiter. injection Hiter as <-. exact Hcases.
Qed.

Lemma getCurrentExperience_prefers_current_witness :
  (In (entry true globex_url (u "Advisor")) a_history
   /\ is_current (entry true globex_url (u "Advisor")) = true)
  \/ (Forall (fun x => is_current x = false) a_history
      /\ entry true globex_url (u "Advisor")
         = or_else (first_item (VArr a_history)) empty_object).
Proof.
  apply (getCurrentExperience_prefers_current a_history
           (u "https://www.linkedin.com/company/initech") idle_state (s' := idle_state)).
  reflexivity.
Defined.

(** * The invariant of a job *)

(** ** Rules *)

Lemma filled_or_else v : filled (or_else v empty_string) = true.
Proof.
  unfold or_else. destruct (truthy v) eqn:Hv; [|reflexivity].
  destruct v as [| | | |[|c str]| |]; try exact Hv; reflexivity.
Qed.

Lemma filled_truthy v : truthy v = true -> filled v = true.
Proof. destruct v as [| | | |[|c str]| |]; intros H; try exact H; reflexivity. Qed.

Lemma filled_string str : filled (VStr str) = true.
Proof. destruct str; reflexivity. Qed.

Lemma mute_ret {A : Type} Rq (a : A) : mute Rq (ret a).
Proof.
  intros s. exists []. simpl. rewrite app_nil_r.
  split; [destruct s; reflexivity|]. split; [reflexivity|constructor].
Qed.

Lemma mute_bind {A B : Type} Rq (m : M A) (k : A -> M B) :
  mute Rq m -> (forall a, mute Rq (k a)) -> mute Rq (bind m k).
Proof.
  intros Hm Hk s. rewrite bind_unfold. destruct (Hm s) as (ev1 & H1 & Hp1 & Hr1).
  destruct (m s) as [[a|e|] s1]; cbn [snd] in *; subst s1.
  - destruct (Hk a {| status := status s; results := results s; trace := trace s ++ ev1 |})
      as (ev2 & H2 & Hp2 & Hr2).
    exists (ev1 ++ ev2). rewrite H2. cbn [status results trace].
    rewrite app_assoc. split; [reflexivity|]. split.
    + rewrite published_app, Hp1, Hp2. reflexivity.
    + rewrite requests_app. apply Forall_app. split; assumption.
  - exists ev1. repeat split; assumption.
  - exists ev1. repeat split; assumption.
Qed.

Lemma mute_sleep Rq ms : mute Rq (sleep ms).
Proof.
  intros s. exists [ESleep ms]. split; [reflexivity|]. split; [reflexivity|constructor].
Qed.

Lemma mute_blitzPost provider (Rq : Request -> Prop) ep payload k :
  Rq {| endpoint := ep; body := payload; key := k |} ->
  mute Rq (blitzPost provider ep payload k).
Proof.
  intros Hrq s.
  destruct (blitzPost_spec provider ep payload k s) as (ev & v & c & Hrun & Hpub & Hreq & _).
  exists ev. rewrite Hrun. split; [reflexivity|]. split; [exact Hpub|].
  rewrite Hreq. apply Forall_forall. intros r Hr. apply repeat_spec in Hr. subst r.
  exact Hrq.
Qed.

Lemma page_requests_from url k counts :
  forall page,
    Forall (fun r => exists p, page <= p /\ r = search_request url k p)
      (page_requests url k page counts).
Proof.
  induction counts as [|c counts IH]; intros page; cbn [page_requests]; [constructor|].
  apply Forall_app. split.
  - apply Forall_forall. intros r Hr. apply repeat_spec in Hr. exists page.
    split; [lia|exact Hr].
  - eapply Forall_impl; [|apply IH]. intros r (p & Hp & Hr). exists p. split; [lia|exact Hr].
Qed.

Lemma mute_findAllEmployees provider fuel url k :
  mute (fun r => exists p, 1 <= p /\ r = search_request url k p)
    (findAllEmployees provider fuel url k).
Proof.
  intros s. unfold findAllEmployees.
  destruct (findAllEmployees_from_spec provider url k fuel 1 [] s)
    as (ev & counts & Hsnd & Hpub & Hreq & _).
  exists ev. split; [exact Hsnd|]. split; [exact Hpub|].
  rewrite Hreq. apply page_requests_from.
Qed.

Lemma returns_ret {A : Type} (R : A -> Prop) (a : A) : R a -> returns (ret a) R.
Proof. intros Ha s. split; [reflexivity|exact Ha]. Qed.

Lemma returns_bind {A B : Type} (m : M A) (k : A -> M B) (R1 : A -> Prop) (R2 : B -> Prop) :
  returns m R1 -> (forall a, R1 a -> returns (k a) R2) -> returns (bind m k) R2.
Proof.
  intros Hm Hk s. rewrite bind_unfold. destruct (Hm s) as [Hs Hr].
  destruct (m s) as [[a|e|] s1]; cbn [fst snd] in *; subst s1.
  - apply Hk. exact Hr.
  - split; [reflexivity|exact I].
  - split; [reflexivity|exact I].
Qed.

Lemma returns_weaken {A : Type} (m : M A) (R R' : A -> Prop) :
  returns m R -> (forall a, R a -> R' a) -> returns m R'.
Proof.
  intros Hm Himp s. destruct (Hm s) as [Hs Hr]. split; [exact Hs|].
  destruct (fst (m s)); try exact I. apply Himp. exact Hr.
Qed.

Lemma returns_get name v : returns (get name v) (fun _ => True).
Proof. intros s. destruct v; simpl; split; try reflexivity; exact I. Qed.

Lemma returns_get_or_empty name v :
  returns (get_or_empty name v) (fun x => filled x = true).
Proof.
  unfold get_or_empty. eapply returns_bind; [apply returns_get|].
  intros x _. apply returns_ret. apply filled_or_else.
Qed.

Lemma returns_getCurrentExperience experiences url :
  returns (getCurrentExperience experiences url) (fun e => truthy e = true).
Proof.
  intros s. destruct (getCurrentExperience experiences url s) as [r s'] eqn:H.
  cbn [fst snd].
  assert (Hstate : s' = s).
  { unfold getCurrentExperience in H. rewrite bind_unfold in H.
    destruct experiences; cbn [iterate] in H; unfold throw, ret in H;
      try (injection H as _ <-; reflexivity);
      rewrite bind_unfold in H.
    - destruct (current_at_company (slug_of url) (map VStr (JsString.code_points s0)) s)
        as [r1 s1] eqn:H1.
      destruct (current_at_company_result _ _ _ H1) as [-> _].
      destruct r1 as [[x|]|err|]; try (injection H as _ <-; reflexivity).
      rewrite bind_unfold in H.
      destruct (any_current (map VStr (JsString.code_points s0)) s) as [r2 s2] eqn:H2.
      destruct (any_current_result _ _ H2) as [-> _].
      destruct r2 as [[x|]|err|]; injection H as _ <-; reflexivity.
    - destruct (current_at_company (slug_of url) items s) as [r1 s1] eqn:H1.
      destruct (current_at_company_result _ _ _ H1) as [-> _].
      destruct r1 as [[x|]|err|]; try (injection H as _ <-; reflexivity).
      rewrite bind_unfold in H.
      destruct (any_current items s) as [r2 s2] eqn:H2.
      destruct (any_current_result _ _ H2) as [-> _].
      destruct r2 as [[x|]|err|]; injection H as _ <-; reflexivity. }
  subst s'. split; [reflexivity|].
  destruct r as [e|err|]; try exact I.
  destruct (getCurrentExperience_result _ _ _ H) as (exps & _ & _ & [[_ Hcur] | [_ ->]]).
  - destruct e; try discriminate Hcur. reflexivity.
  - unfold or_else. destruct (truthy (first_item experiences)) eqn:Hf; [exact Hf|reflexivity].
Qed.

Lemma getCurrentExperience_ends experiences url s :
  fst (getCurrentExperience experiences url s) <> OutOfFuel.
Proof.
  destruct (getCurrentExperience experiences url s) as [r s'] eqn:H. cbn [fst].
  intros ->. unfold getCurrentExperience in H. rewrite bind_unfold in H.
  destruct experiences; cbn [iterate] in H; unfold throw, ret in H; try discriminate H;
    rewrite bind_unfold in H;
    match type of H with
    | context [current_at_company ?slug ?exps s] =>
        destruct (current_at_company slug exps s) as [r1 s1] eqn:H1;
        destruct (current_at_company_result _ _ _ H1) as [-> Hr1];
        destruct r1 as [[x|]|err|]; try discriminate H; try exact Hr1;
        rewrite bind_unfold in H;
        destruct (any_current exps s) as [r2 s2] eqn:H2;
        destruct (any_current_result _ _ H2) as [-> Hr2];
        destruct r2 as [[x|]|err|]; try discriminate H; exact Hr2
    end.
Qed.

Section JobLogic.

Variable job : Job.

Lemma JobInv_mute s ev :
  JobInv job s ->
  published ev = [] ->
  Forall (request_ok job) (requests ev) ->
  JobInv job {| status := status s; results := results s; trace := trace s ++ ev |}.
Proof.
  intros (Hreq & Hpub & Hst & Hrows) Hp Hr. unfold JobInv. cbn [status results trace].
  rewrite requests_app, published_app, Hp, app_nil_r.
  split; [apply Forall_app; split; assumption|].
  split; [exact Hpub|]. split; [exact Hst|exact Hrows].
Qed.

Lemma triple_bind {A B : Type} (P : Status -> list Value -> Prop) (m : M A)
    (Q1 : A -> Status -> list Value -> Prop) (k : A -> M B)
    (Q : B -> Status -> list Value -> Prop) :
  triple job P m Q1 ->
  (forall a, triple job (Q1 a) (k a) Q) ->
  triple job P (bind m k) Q.
Proof.
  intros Hm Hk s Hinv Hp. rewrite bind_unfold. destruct (Hm s Hinv Hp) as [Hinv1 Hq1].
  destruct (m s) as [[a|e|] s1]; cbn [fst snd] in *.
  - apply Hk; assumption.
  - split; [exact Hinv1|exact I].
  - split; [exact Hinv1|exact I].
Qed.

Lemma triple_conseq {A : Type} (P P' : Status -> list Value -> Prop) (m : M A)
    (Q Q' : A -> Status -> list Value -> Prop) :
  triple job P' m Q' ->
  (forall st rs, P st rs -> P' st rs) ->
  (forall a st rs, Q' a st rs -> Q a st rs) ->
  triple job P m Q.
Proof.
  intros Hm Hpre Hpost s Hinv Hp. destruct (Hm s Hinv (Hpre _ _ Hp)) as [Hinv1 Hq].
  split; [exact Hinv1|]. destruct (fst (m s)); try exact I. apply Hpost. exact Hq.
Qed.

Lemma triple_results {A : Type} (P : Status -> list Value -> Prop) (m : M A)
    (Q : A -> Status -> list Value -> Prop) :
  (forall rs0, triple job (fun st rs => rs = rs0 /\ P st rs) m Q) ->
  triple job P m Q.
Proof.
  intros Hm s Hinv Hp. apply (Hm (results s) s Hinv). split; [reflexivity|exact Hp].
Qed.

Lemma triple_ret {A : Type} (P : Status -> list Value -> Prop) (a : A)
    (Q : A -> Status -> list Value -> Prop) :
  (forall st rs, P st rs -> Q a st rs) ->
  triple job P (ret a) Q.
Proof. intros Himp s Hinv Hp. split; [exact Hinv|]. apply Himp. exact Hp. Qed.

Lemma triple_returns {A : Type} (P : Status -> list Value -> Prop) (m : M A)
    (R : A -> Prop) :
  returns m R ->
  triple job P m (fun a st rs => P st rs /\ R a).
Proof.
  intros Hm s Hinv Hp. destruct (Hm s) as [Hs Hr]. rewrite Hs.
  split; [exact Hinv|]. destruct (fst (m s)); try exact I. split; assumption.
Qed.

Lemma triple_mute {A : Type} (Rq : Request -> Prop)
    (P : Status -> list Value -> Prop) (m : M A) :
  mute Rq m ->
  (forall r, Rq r -> request_ok job r) ->
  triple job P m (fun _ st rs => P st rs).
Proof.
  intros Hm Hrq s Hinv Hp. destruct (Hm s) as (ev & Hs & Hpub & Hreq). rewrite Hs.
  split.
  - apply JobInv_mute; try assumption. eapply Forall_impl; [|exact Hreq]. exact Hrq.
  - destruct (fst (m s)); try exact I. exact Hp.
Qed.

Lemma triple_broadcast (P : Status -> list Value -> Prop) up
    (Q : unit -> Status -> list Value -> Prop) :
  (forall st rs,
      P st rs -> status_ok job st rs ->
      status_ok job (assign st up) rs /\ Q tt (assign st up) rs) ->
  triple job P (broadcast up) Q.
Proof.
  intros Hup s (Hreq & Hpub & Hst & Hrows) Hp.
  destruct (Hup _ _ Hp Hst) as [Hst' Hq]. cbn [broadcast fst snd status results].
  split; [|exact Hq]. unfold JobInv. cbn [status results trace].
  rewrite requests_app, published_app. cbn [requests published]. rewrite app_nil_r.
  split; [exact Hreq|]. split; [|split; [exact Hst'|exact Hrows]].
  apply Forall_app. split; [exact Hpub|]. constructor; [apply Hst'|constructor].
Qed.

Lemma triple_push (P : Status -> list Value -> Prop) row
    (Q : unit -> Status -> list Value -> Prop) :
  (forall st rs,
      P st rs -> status_ok job st rs ->
      row_ok job row /\ status_ok job st (rs ++ [row]) /\ Q tt st (rs ++ [row])) ->
  triple job P (push_result row) Q.
Proof.
  intros Hrow s (Hreq & Hpub & Hst & Hrows) Hp.
  destruct (Hrow _ _ Hp Hst) as (Hok & Hst' & Hq). cbn [push_result fst snd status results].
  split; [|exact Hq]. unfold JobInv. cbn [status results trace].
  split; [exact Hreq|]. split; [exact Hpub|]. split; [exact Hst'|].
  apply Forall_app. split; [exact Hrows|]. constructor; [exact Hok|constructor].
Qed.

End JobLogic.

(** ** The steps of the Orchestrator keep the invariant *)

Ltac status_facts :=
  unfold running, synced, status_ok, snapshot_ok in *; cbn in *;
  intuition (try lia; try congruence).

Lemma with_cell_le name rs : with_cell name rs <= length rs.
Proof. unfold with_cell. apply filter_length_le. Qed.

Lemma with_cell_app name rs row :
  with_cell name (rs ++ [row]) = with_cell name rs + (if has_cell name row then 1 else 0).
Proof.
  unfold with_cell. rewrite filter_app, length_app. cbn [filter].
  destruct (has_cell name row); reflexivity.
Qed.

Section JobSteps.

Variable provider : list Event -> Outcome.
Variable job : Job.

Lemma triple_bind_returns {A B : Type} (P : Status -> list Value -> Prop) (m : M A)
    (R : A -> Prop) (k : A -> M B) (Q : B -> Status -> list Value -> Prop) :
  returns m R ->
  (forall a, R a -> triple job P (k a) Q) ->
  triple job P (bind m k) Q.
Proof.
  intros Hm Hk. eapply triple_bind; [apply triple_returns; exact Hm|].
  intros a s Hinv [Hp Hr]. apply (Hk a Hr s Hinv Hp).
Qed.

Lemma triple_bind_mute {A B : Type} (Rq : Request -> Prop)
    (P : Status -> list Value -> Prop) (m : M A) (k : A -> M B)
    (Q : B -> Status -> list Value -> Prop) :
  mute Rq m ->
  (forall r, Rq r -> request_ok job r) ->
  (forall a, triple job P (k a) Q) ->
  triple job P (bind m k) Q.
Proof.
  intros Hm Hrq Hk. eapply triple_bind; [eapply triple_mute; eassumption|]. exact Hk.
Qed.

Lemma no_request_ok (r : Request) : False -> request_ok job r.
Proof. intros []. Qed.

Lemma triple_assume {A : Type} (F : Prop) (P : Status -> list Value -> Prop) (m : M A)
    (Q : A -> Status -> list Value -> Prop) :
  (forall st rs, P st rs -> F) ->
  (F -> triple job P m Q) ->
  triple job P m Q.
Proof. intros HF Hm s Hinv Hp. apply (Hm (HF _ _ Hp) s Hinv Hp). Qed.

Lemma triple_enrichEmail i t rs0 liUrl :
  truthy liUrl = true ->
  emails t < employees t ->
  triple job
    (fun st rs => rs = rs0 /\ running i t st)
    (enrichEmail provider job liUrl t)
    (fun r st rs =>
       (rs = rs0 /\ running i (snd r) st)
       /\ employees (snd r) = employees t /\ phones (snd r) = phones t
       /\ emails (snd r) = emails t + (if truthy (fst (fst r)) then 1 else 0)
       /\ filled (fst (fst r)) = true /\ filled (snd (fst r)) = true).
Proof.
  intros Hli Hlt. unfold enrichEmail.
  eapply triple_bind_mute.
  { apply (mute_blitzPost provider
             (fun r => r = {| endpoint := email_endpoint; body := person_body liUrl;
                              key := apiKey job |})).
    reflexivity. }
  { intros r ->. split; [reflexivity|]. right. exists liUrl.
    split; [exact Hli|]. split; [reflexivity|]. left. reflexivity. }
  intros emailData.
  eapply triple_bind_returns; [apply returns_get|]. intros e _.
  eapply triple_bind_returns; [apply returns_get|]. intros es _.
  eapply triple_bind
    with (Q1 := fun t' st rs =>
                  (rs = rs0 /\ running i t' st)
                  /\ employees t' = employees t /\ phones t' = phones t
                  /\ emails t' = emails t
                                 + (if truthy (or_else e empty_string) then 1 else 0)).
  - destruct (truthy (or_else e empty_string)).
    + eapply triple_bind
        with (Q1 := fun _ st rs =>
                      rs = rs0
                      /\ running i {| employees := employees t; emails := emails t + 1;
                                      phones := phones t |} st).
      * apply triple_broadcast. intros st rs (Hrs & Hrun) Hok. status_facts.
      * intros _. apply triple_ret. intros st rs (Hrs & Hrun). cbn. status_facts.
    + apply triple_ret. intros st rs (Hrs & Hrun). status_facts.
  - intros t'.
    eapply triple_bind_mute; [apply (mute_sleep (fun _ => False))|apply no_request_ok|].
    intros _. apply triple_ret. intros st rs (H1 & H2 & H3 & H4). cbn [fst snd].
    split; [exact H1|]. split; [exact H2|]. split; [exact H3|]. split; [exact H4|].
    split; apply filled_or_else.
Qed.

Lemma triple_enrichPhone i t rs0 liUrl :
  truthy liUrl = true ->
  phones t < employees t ->
  triple job
    (fun st rs => rs = rs0 /\ running i t st)
    (enrichPhone provider job liUrl t)
    (fun r st rs =>
       (rs = rs0 /\ running i (snd r) st)
       /\ employees (snd r) = employees t /\ emails (snd r) = emails t
       /\ phones (snd r) = phones t + (if truthy (fst r) then 1 else 0)
       /\ filled (fst r) = true
       /\ (skipPhone job = true -> fst r = empty_string)).
Proof.
  intros Hli Hlt. unfold enrichPhone. destruct (skipPhone job) eqn:Hskip; cbn [negb].
  { apply triple_ret. intros st rs H. cbn.
    split; [exact H|]. repeat split; lia. }
  eapply triple_bind_mute.
  { apply (mute_blitzPost provider
             (fun r => r = {| endpoint := phone_endpoint; body := person_body liUrl;
                              key := apiKey job |})).
    reflexivity. }
  { intros r ->. split; [reflexivity|]. right. exists liUrl.
    split; [exact Hli|]. split; [reflexivity|]. right. split; [reflexivity|exact Hskip]. }
  intros phoneData.
  eapply triple_bind_returns; [apply returns_get|]. intros p _.
  eapply triple_bind
    with (Q1 := fun t' st rs =>
                  (rs = rs0 /\ running i t' st)
                  /\ employees t' = employees t /\ emails t' = emails t
                  /\ phones t' = phones t
                                 + (if truthy (or_else p empty_string) then 1 else 0)).
  - destruct (truthy (or_else p empty_string)).
    + eapply triple_bind
        with (Q1 := fun _ st rs =>
                      rs = rs0
                      /\ running i {| employees := employees t; emails := emails t;
                                      phones := phones t + 1 |} st).
      * apply triple_broadcast. intros st rs (Hrs & Hrun) Hok. status_facts.
      * intros _. apply triple_ret. intros st rs (Hrs & Hrun). cbn. status_facts.
    + apply triple_ret. intros st rs (Hrs & Hrun). status_facts.
  - intros t'.
    eapply triple_bind_mute; [apply (mute_sleep (fun _ => False))|apply no_request_ok|].
    intros _. apply triple_ret. intros st rs (H1 & H2 & H3 & H4). cbn [fst snd].
    split; [exact H1|]. split; [exact H2|]. split; [exact H3|]. split; [exact H4|].
    split; [apply filled_or_else|discriminate].
Qed.

(** The object literal of [job.results.push]. *)
Lemma row_of_employee_ok co liUrl jobTitle email emailStatus phone
    full_name first_name last_name headline city state country connections :
  JsString.is_empty (companyUrl co) = false ->
  In (companyUrl co) (identifiers job) ->
  filled liUrl = true -> filled jobTitle = true -> filled email = true ->
  filled emailStatus = true -> filled phone = true -> filled full_name = true ->
  filled first_name = true -> filled last_name = true -> filled headline = true ->
  filled city = true -> filled state = true -> filled country = true ->
  filled connections = true ->
  (skipPhone job = true -> phone = empty_string) ->
  (truthy liUrl = false ->
   email = empty_string /\ emailStatus = empty_string /\ phone = empty_string) ->
  row_ok job
    (VObj [(u "company_name", VStr (companyName co));
           (u "company_linkedin_url", VStr (companyUrl co));
           (u "company_domain", VStr (companyDomain co));
           (u "company_location", VStr (companyLocation co));
           (u "company_size", VStr (companySize co));
           (u "full_name", full_name);
           (u "first_name", first_name);
           (u "last_name", last_name);
           (u "job_title", jobTitle);
           (u "headline", headline);
           (u "person_linkedin_url", liUrl);
           (u "city", city);
           (u "state", state);
           (u "country", country);
           (u "email", email);
           (u "email_status", emailStatus);
           (u "phone_mobile", phone);
           (u "connections_count", connections)]).
Proof.
  intros Hurl Hin Hli Hjob Hemail Hstatus Hphone H1 H2 H3 H4 H5 H6 H7 H8 Hskip Hnone.
  unfold row_ok. split; [reflexivity|]. split.
  { cbn [map snd]. repeat (constructor; [first [assumption | apply filled_string]|]).
    constructor. }
  split.
  { exists (companyUrl co). split; [reflexivity|]. split; assumption. }
  split.
  { exact Hskip. }
  change (liUrl = empty_string ->
          email = empty_string /\ emailStatus = empty_string /\ phone = empty_string).
  intros ->. apply Hnone. reflexivity.
Qed.

Lemma triple_enrichEmployee i co emp t rs0 :
  JsString.is_empty (companyUrl co) = false ->
  In (companyUrl co) (identifiers job) ->
  emails t = with_cell (u "email") rs0 ->
  phones t = with_cell (u "phone_mobile") rs0 ->
  length rs0 < employees t ->
  triple job
    (fun st rs => rs = rs0 /\ running i t st)
    (enrichEmployee provider job co emp t)
    (fun t' st rs =>
       running i t' st
       /\ (exists row, rs = rs0 ++ [row])
       /\ employees t' = employees t
       /\ emails t' = with_cell (u "email") rs
       /\ phones t' = with_cell (u "phone_mobile") rs).
Proof.
  intros Hurl Hin Hem0 Hph0 Hlen.
  assert (Hem : emails t <= length rs0) by (rewrite Hem0; apply with_cell_le).
  assert (Hph : phones t <= length rs0) by (rewrite Hph0; apply with_cell_le).
  unfold enrichEmployee.
  eapply triple_bind_returns; [apply returns_get_or_empty|]. intros liUrl Hfli.
  eapply triple_bind_returns; [apply returns_get|]. intros l _.
  eapply triple_bind_returns; [apply returns_get|]. intros x _.
  eapply triple_bind_returns; [apply returns_getCurrentExperience|]. intros currentExp _.
  eapply triple_bind_returns; [apply returns_get|]. intros jt _.
  eapply triple_bind_returns
    with (R := fun v => filled v = true).
  { destruct (truthy jt) eqn:Hjt; [|apply returns_get_or_empty].
    apply returns_ret. apply filled_truthy. exact Hjt. }
  intros jobTitle Hjob.
  eapply triple_bind
    with (Q1 := fun (found : Value * Value * Value * Tally) st rs =>
                  (rs = rs0 /\ running i (snd found) st)
                  /\ employees (snd found) = employees t
                  /\ emails (snd found)
                     = emails t + (if truthy (fst (fst (fst found))) then 1 else 0)
                  /\ phones (snd found)
                     = phones t + (if truthy (snd (fst found)) then 1 else 0)
                  /\ filled (fst (fst (fst found))) = true
                  /\ filled (snd (fst (fst found))) = true
                  /\ filled (snd (fst found)) = true
                  /\ (skipPhone job = true -> snd (fst found) = empty_string)
                  /\ (truthy liUrl = false ->
                      fst (fst (fst found)) = empty_string
                      /\ snd (fst (fst found)) = empty_string
                      /\ snd (fst found) = empty_string)).
  - destruct (truthy liUrl) eqn:Hli.
    + eapply triple_bind.
      * apply (@triple_enrichEmail i t rs0 liUrl Hli). lia.
      * intros [[email emailStatus] t1]. cbn [fst snd].
        apply (triple_assume
                 (F := employees t1 = employees t /\ phones t1 = phones t
                       /\ emails t1 = emails t + (if truthy email then 1 else 0)
                       /\ filled email = true /\ filled emailStatus = true)).
        { intros st rs (_ & H). exact H. }
        intros (He1 & Hp1 & Hm1 & Hfe & Hfs).
        eapply triple_bind.
        { eapply triple_conseq;
            [apply (@triple_enrichPhone i t1 rs0 liUrl Hli); lia
            |intros st rs (H & _); exact H
            |intros a st rs H; exact H]. }
        intros [phone t2]. cbn [fst snd].
        apply triple_ret. cbn [fst snd].
        intros st rs (H & He2 & Hm2 & Hp2 & Hfp & Hskip).
        split; [exact H|]. split; [lia|]. split; [lia|]. split; [lia|].
        split; [exact Hfe|]. split; [exact Hfs|]. split; [exact Hfp|].
        split; [exact Hskip|]. discriminate.
    + apply triple_ret. cbn. intros st rs H.
      split; [exact H|]. repeat split; try reflexivity; lia.
  - intros [[[email emailStatus] phone] t']. cbn [fst snd].
    apply (triple_assume
             (F := employees t' = employees t
                   /\ emails t' = emails t + (if truthy email then 1 else 0)
                   /\ phones t' = phones t + (if truthy phone then 1 else 0)
                   /\ filled email = true /\ filled emailStatus = true
                   /\ filled phone = true
                   /\ (skipPhone job = true -> phone = empty_string)
                   /\ (truthy liUrl = false ->
                       email = empty_string /\ emailStatus = empty_string
                       /\ phone = empty_string))).
    { intros st rs (_ & H). exact H. }
    intros (He & Hm & Hp & Hfe & Hfs & Hfp & Hskip & Hnone).
    eapply triple_bind_returns; [apply returns_get_or_empty|]. intros full_name H1.
    eapply triple_bind_returns; [apply returns_get_or_empty|]. intros first_name H2.
    eapply triple_bind_returns; [apply returns_get_or_empty|]. intros last_name H3.
    eapply triple_bind_returns; [apply returns_get_or_empty|]. intros headline H4.
    eapply triple_bind_returns; [apply returns_get_or_empty|]. intros city H5.
    eapply triple_bind_returns; [apply returns_get_or_empty|]. intros state H6.
    eapply triple_bind_returns; [apply returns_get_or_empty|]. intros country H7.
    eapply triple_bind_returns; [apply returns_get_or_empty|]. intros connections H8.
    eapply triple_bind
      with (Q1 := fun _ st rs =>
                    running i t' st
                    /\ exists row, rs = rs0 ++ [row]
                                   /\ has_cell (u "email") row = truthy email
                                   /\ has_cell (u "phone_mobile") row = truthy phone).
    + apply triple_push. intros st rs ((Hrs & Hrun) & _) Hok. subst rs.
      split; [apply row_of_employee_ok; assumption|].
      split.
      * destruct Hrun as [(Hc & Hemp & _) Hphase].
        destruct Hok as (Hsnap & Hle & Hdone).
        split; [exact Hsnap|]. rewrite length_app. cbn [length].
        split; [lia|]. intros Hd. congruence.
      * split; [exact Hrun|]. eexists. split; [reflexivity|]. split; reflexivity.
    + intros _. apply triple_ret. intros st rs (Hrun & row & -> & Hhe & Hhp).
      split; [exact Hrun|]. split; [exists row; reflexivity|].
      rewrite !with_cell_app, Hhe, Hhp, <- Hem0, <- Hph0.
      split; [exact He|]. split; [exact Hm|exact Hp].
Qed.

Lemma triple_enrichEmployees i co :
  JsString.is_empty (companyUrl co) = false ->
  In (companyUrl co) (identifiers job) ->
  forall emps t,
    triple job
      (fun st rs =>
         running i t st /\ length rs + length emps = employees t
         /\ emails t = with_cell (u "email") rs
         /\ phones t = with_cell (u "phone_mobile") rs)
      (enrichEmployees provider job co emps t)
      (fun t' st rs =>
         running i t' st /\ length rs = employees t'
         /\ emails t' = with_cell (u "email") rs
         /\ phones t' = with_cell (u "phone_mobile") rs).
Proof.
  intros Hurl Hin. induction emps as [|emp emps IH]; intros t; cbn [enrichEmployees].
  - apply triple_ret. intros st rs (Hrun & Hlen & Hem & Hph). cbn [length] in Hlen.
    split; [exact Hrun|]. split; [lia|]. split; assumption.
  - apply triple_results. intros rs0.
    apply (triple_assume
             (F := length rs0 + S (length emps) = employees t
                   /\ emails t = with_cell (u "email") rs0
                   /\ phones t = with_cell (u "phone_mobile") rs0)).
    { intros st rs (-> & _ & H). exact H. }
    intros (Hlen & Hem & Hph).
    eapply triple_bind.
    + eapply triple_conseq;
        [apply (@triple_enrichEmployee i co emp t rs0 Hurl Hin Hem Hph); lia
        |intros st rs (Hrs & Hrun & _); split; [exact Hrs|exact Hrun]
        |intros a st rs H; exact H].
    + intros t'. eapply triple_conseq; [apply (IH t')| |intros a st rs H; exact H].
      cbn beta. intros st rs (Hrun & [row ->] & He & Hm & Hp).
      rewrite length_app. cbn [length]. split; [exact Hrun|].
      split; [lia|]. split; assumption.
Qed.

Lemma triple_enrichRows fuel :
  forall rest i t,
    i + length rest = length (rows job) ->
    incl rest (rows job) ->
    triple job
      (fun st rs =>
         running i t st /\ length rs = employees t
         /\ emails t = with_cell (u "email") rs
         /\ phones t = with_cell (u "phone_mobile") rs)
      (enrichRows provider fuel job rest i t)
      (fun t' st rs =>
         running (i + length rest) t' st /\ length rs = employees t'
         /\ emails t' = with_cell (u "email") rs
         /\ phones t' = with_cell (u "phone_mobile") rs).
Proof.
  induction rest as [|row rest IH]; intros i t Hsum Hincl.
  - cbn [enrichRows]. apply triple_ret. intros st rs H. rewrite Nat.add_0_r. exact H.
  - cbn [enrichRows length] in *.
    assert (Hincl' : incl rest (rows job)).
    { intros x Hx. apply Hincl. right. exact Hx. }
    assert (Hrow : In (companyUrl (company_of job row)) (identifiers job)).
    { unfold identifiers. cbn [company_of companyUrl].
      apply (in_map (fun r => JsString.trim (cell r (linkedinCol job)))).
      apply Hincl. left. reflexivity. }
    eapply triple_bind
      with (Q1 := fun _ st rs =>
                    running (S i) t st /\ length rs = employees t
                    /\ emails t = with_cell (u "email") rs
                    /\ phones t = with_cell (u "phone_mobile") rs).
    { apply triple_broadcast. intros st rs (Hrun & Hlen & Hem & Hph) Hok.
      assert (Hem' := with_cell_le (u "email") rs).
      assert (Hph' := with_cell_le (u "phone_mobile") rs).
      status_facts. }
    intros _.
    destruct (JsString.is_empty (companyUrl (company_of job row))) eqn:Hurl.
    + eapply triple_conseq;
        [apply (IH (S i) t); [lia|exact Hincl']
        |intros st rs H; exact H|].
      cbn beta. intros t' st rs H.
      replace (i + S (length rest)) with (S i + length rest) by lia. exact H.
    + eapply triple_bind_mute.
      { apply mute_findAllEmployees. }
      { intros r (p & Hp & ->). split; [reflexivity|]. left.
        exists (companyUrl (company_of job row)), p.
        split; [reflexivity|]. split; [exact Hp|]. split; [exact Hurl|exact Hrow]. }
      intros emps. cbv zeta. cbn [employees emails phones].
      eapply triple_bind
        with (Q1 := fun _ st rs =>
                      running (S i) {| employees := employees t + length emps;
                                       emails := emails t; phones := phones t |} st
                      /\ length rs + length emps = employees t + length emps
                      /\ emails t = with_cell (u "email") rs
                      /\ phones t = with_cell (u "phone_mobile") rs).
      { apply triple_broadcast. intros st rs (Hrun & Hlen & Hem & Hph) Hok.
        assert (Hem' := with_cell_le (u "email") rs).
        assert (Hph' := with_cell_le (u "phone_mobile") rs).
        status_facts. }
      intros _.
      eapply triple_bind.
      { apply (@triple_enrichEmployees (S i) (company_of job row) Hurl Hrow emps
                 {| employees := employees t + length emps; emails := emails t;
                    phones := phones t |}). }
      intros t2.
      eapply triple_conseq;
        [apply (IH (S i) t2); [lia|exact Hincl']
        |intros st rs H; exact H|].
      cbn beta. intros t' st rs H.
      replace (i + S (length rest)) with (S i + length rest) by lia. exact H.
Qed.

Lemma JobInv_initial : JobInv job (initial_state job).
Proof.
  unfold JobInv, initial_state, status_ok, snapshot_ok. cbn.
  repeat split; try constructor; try lia.
Qed.

Lemma triple_runEnrichment fuel :
  triple job
    (fun st rs => st = initial_status (rows job) /\ rs = [])
    (runEnrichment provider fuel job)
    (fun _ st rs =>
       phase st = Done /\ length rs = employeesFound st
       /\ emailsFound st = with_cell (u "email") rs
       /\ phonesFound st = with_cell (u "phone_mobile") rs).
Proof.
  unfold runEnrichment.
  eapply triple_bind
    with (Q1 := fun _ st rs =>
                  running 0 {| employees := 0; emails := 0; phones := 0 |} st
                  /\ length rs = 0
                  /\ 0 = with_cell (u "email") rs
                  /\ 0 = with_cell (u "phone_mobile") rs).
  { apply triple_broadcast. intros st rs (-> & ->) Hok. status_facts. }
  intros _.
  eapply triple_bind.
  { apply (@triple_enrichRows fuel (rows job) 0 {| employees := 0; emails := 0; phones := 0 |}).
    - reflexivity.
    - apply incl_refl. }
  intros t'. apply triple_broadcast.
  intros st rs (Hrun & Hlen & Hem & Hph) Hok.
  assert (Hem' := with_cell_le (u "email") rs).
  assert (Hph' := with_cell_le (u "phone_mobile") rs).
  status_facts.
Qed.

Lemma JobInv_run_job fuel :
  JobInv job (snd (run_job provider fuel job))
  /\ match fst (run_job provider fuel job) with
     | Throw _ => False
     | _ => True
     end.
Proof.
  unfold run_job, startEnrichment, catch.
  destruct (@triple_runEnrichment fuel (initial_state job) JobInv_initial)
    as [Hinv _].
  { split; reflexivity. }
  destruct (runEnrichment provider fuel job (initial_state job)) as [[[]|e|] s1];
    cbn [fst snd] in *.
  - split; [exact Hinv|exact I].
  - split; [|exact I].
    assert (Herr : triple job (fun _ _ => True) (broadcast (update_error e))
                     (fun _ _ _ => True)).
    { apply triple_broadcast. intros st rs _ Hok. status_facts. }
    apply (Herr s1 Hinv I).
  - split; [exact Hinv|exact I].
Qed.

End JobSteps.

(** ** What the invariant says of a whole run *)

(** X8. Every request a job sends carries the job's API key and is one of
    three kinds: a search for a non-empty company identifier of the input
    table, from page 1 on with the fixed page size; the email lookup of a
    non-empty profile URL; or, only when the job does not skip phones, the
    phone lookup of a non-empty profile URL. *)
Theorem job_requests_well_formed :
  forall (provider : list Event -> Outcome) (fuel : nat) (job : Job),
    Forall (request_ok job) (requests (trace (snd (run_job provider fuel job)))).
Proof.
  intros provider fuel job.
  destruct (JobInv_run_job provider job fuel) as [(H & _) _]. exact H.
Qed.

(** X9. Every result row of a job has the same eighteen columns in the same
    order, whatever the provider returned; no cell is [null], [undefined],
    [false] or [0] (a missing value is the empty string); the company
    identifier is a non-empty identifier of the input table; the phone cell
    is empty when the job skips phones; and a row without a profile URL has
    neither email nor phone. *)
Theorem job_rows_fixed_schema :
  forall (provider : list Event -> Outcome) (fuel : nat) (job : Job),
    Forall (row_ok job) (results (snd (run_job provider fuel job))).
Proof.
  intros provider fuel job.
  destruct (JobInv_run_job provider job fuel) as [(_ & _ & _ & H) _]. exact H.
Qed.

(** X10. In the initial status and in every snapshot a job publishes,
    companyTotal is the number of input rows, companyCurrent does not exceed
    it, and neither emailsFound nor phonesFound exceeds employeesFound. *)
Theorem job_snapshots_consistent :
  forall (provider : list Event -> Outcome) (fuel : nat) (job : Job),
    Forall (snapshot_ok job) (snapshots job (snd (run_job provider fuel job))).
Proof.
  intros provider fuel job. unfold snapshots.
  destruct (JobInv_run_job provider job fuel) as [(_ & H & _) _].
  constructor; [|exact H].
  destruct (JobInv_initial job) as (_ & _ & (Hinit & _) & _). exact Hinit.
Qed.

(** X11. A job never holds more result rows than the employeesFound counter
    says, and once its phase is [done] it holds exactly that many: one row
    per employee found, whether or not the enrichment calls yielded
    anything. *)
Theorem job_rows_match_counter :
  forall (provider : list Event -> Outcome) (fuel : nat) (job : Job),
    let s := snd (run_job provider fuel job) in
    length (results s) <= employeesFound (status s)
    /\ match phase (status s) with
       | Done => length (results s) = employeesFound (status s)
       | _ => True
       end.
Proof.
  intros provider fuel job s.
  destruct (JobInv_run_job provider job fuel) as [(_ & _ & (_ & Hle & Hdone) & _) _].
  fold s in Hle, Hdone. split; [exact Hle|].
  destruct (phase (status s)); try exact I. apply Hdone. reflexivity.
Qed.

Lemma run_job_outcome provider fuel job :
  let s := snd (run_job provider fuel job) in
  match fst (run_job provider fuel job) with
  | Ok _ => terminal (phase (status s)) = true /\ done (status s) = true
  | Throw _ => False
  | OutOfFuel => phase (status s) = Enriching /\ done (status s) = false
  end.
Proof.
  unfold run_job, startEnrichment, catch, runEnrichment.
  rewrite bind_unfold. cbn [broadcast initial_state status results trace app].
  fold (enriching_status job).
  set (s1 := {| status := enriching_status job; results := [];
                trace := [EPublish (enriching_status job)] |}).
  set (t0 := {| employees := 0; emails := 0; phones := 0 |}).
  assert (Hs1 : synced 0 t0 (status s1)).
  { unfold synced. simpl. repeat split. }
  destruct (enrichRows_advances provider job fuel (rows job) s1 Hs1)
    as [[ev [_ Hsteps]] _].
  rewrite bind_unfold.
  destruct (enrichRows provider fuel job (rows job) 0 t0 s1) as [[t|e|] s2];
    cbn [fst snd broadcast status] in *.
  - split; reflexivity.
  - split; reflexivity.
  - destruct (steps_stable _ _ _ _ Hsteps) as [_ (Hph & Hd & _)].
    rewrite Hph, Hd. split; reflexivity.
Qed.

(** X12. A run never lets an exception escape: whatever the provider
    returns, it either comes to an end, and then the job is in a terminal
    phase ([done] or [error]) with its [done] flag set, or it is still
    paginating when the fuel runs out, and then the job is in phase
    [enriching] with the flag unset. *)
Theorem run_job_never_throws :
  forall (provider : list Event -> Outcome) (fuel : nat) (job : Job),
    let s := snd (run_job provider fuel job) in
    match fst (run_job provider fuel job) with
    | Ok _ => terminal (phase (status s)) = true /\ done (status s) = true
    | Throw _ => False
    | OutOfFuel => phase (status s) = Enriching /\ done (status s) = false
    end.
Proof. intros provider fuel job. apply run_job_outcome. Qed.

Lemma phases_enriching sp ev :
  forall a b,
    steps sp a ev b ->
    map phase (published ev) = repeat (phase a) (length (published ev)).
Proof.
  intros a b H. destruct (steps_stable _ _ _ _ H) as [Hall _].
  induction Hall as [|x l (Hx & _) _ IH]; [reflexivity|].
  cbn [map length repeat]. rewrite Hx, IH. reflexivity.
Qed.

(** X13. The phases of a job's snapshots only move forward: [queued] for the
    initial status, then [enriching] at least once, then at most one terminal
    snapshot, [done] or [error], which is the last one. *)
Theorem job_phases_move_forward :
  forall (provider : list Event -> Outcome) (fuel : nat) (job : Job),
    exists n tail,
      map phase (snapshots job (snd (run_job provider fuel job)))
      = Queued :: repeat Enriching (S n) ++ tail
      /\ (tail = [] \/ tail = [Done] \/ tail = [Error]).
Proof.
  intros provider fuel job. unfold snapshots.
  destruct (run_job_ending provider fuel job) as (ev & st & Hsteps & Hend).
  pose proof (phases_enriching _ _ _ _ Hsteps) as Hph.
  change (phase (enriching_status job)) with Enriching in Hph.
  exists (length (published ev)).
  destruct Hend as [Htrace _ | t _ Htrace _ | e Htrace _]; rewrite Htrace;
    cbn [published map]; try rewrite published_app, map_app; cbn [published map];
    rewrite Hph.
  - exists []. rewrite app_nil_r. split; [reflexivity|left; reflexivity].
  - exists [Done]. split; [reflexivity|right; left; reflexivity].
  - exists [Error]. split; [reflexivity|right; right; reflexivity].
Qed.

(** * Further properties of the Orchestrator *)

Section ProviderDown.

Variable provider : list Event -> Outcome.
Variable job : Job.
Hypothesis never_succeeds : forall tr, success (provider tr) = None.

Lemma enrichRows_without_success fuel :
  forall rest i t s,
    exists t' s',
      enrichRows provider (S fuel) job rest i t s = (Ok t', s')
      /\ results s' = results s
      /\ employees t' = employees t /\ emails t' = emails t /\ phones t' = phones t.
Proof.
  induction rest as [|row rest IH]; intros i t s.
  - exists t, s. repeat split; reflexivity.
  - rewrite enrichRows_cons.
    destruct (JsString.is_empty (companyUrl (company_of job row))).
    + destruct (IH (S i) t (row_announced job row i s)) as (t' & s' & Hrun & Hres & Ht).
      exists t', s'. split; [exact Hrun|]. split; [exact Hres|exact Ht].
    + rewrite bind_unfold, bind_unfold.
      destruct (findAllEmployees_without_success provider fuel
                  (companyUrl (company_of job row)) (apiKey job)
                  (row_announced job row i s) never_succeeds)
        as (ev & c & Hrun & _).
      rewrite Hrun. rewrite bind_unfold. cbn [broadcast enrichEmployees length].
      unfold ret at 1.
      match goal with
      | |- context [enrichRows provider (S fuel) job rest (S i) ?t1 ?s1] =>
          destruct (IH (S i) t1 s1) as (t' & s' & Hrest & Hres & He & Hm & Hp)
      end.
      exists t', s'. split; [exact Hrest|].
      cbn [results employees emails phones] in *.
      split; [exact Hres|]. repeat split; lia.
Qed.

Lemma run_job_without_success fuel :
  let s := snd (run_job provider (S fuel) job) in
  fst (run_job provider (S fuel) job) = Ok tt
  /\ phase (status s) = Done
  /\ employeesFound (status s) = 0
  /\ results s = [].
Proof.
  unfold run_job, startEnrichment, catch, runEnrichment.
  rewrite bind_unfold. cbn [broadcast]. rewrite bind_unfold.
  match goal with
  | |- context [enrichRows provider (S fuel) job (rows job) 0 ?t0 ?s1] =>
      destruct (enrichRows_without_success fuel (rows job) 0 t0 s1)
        as (t' & s' & Hrun & Hres & He & _)
  end.
  rewrite Hrun. cbn [broadcast fst snd status results phase employeesFound assign
                     update_done merge u_phase u_employeesFound] in *.
  repeat split; assumption.
Qed.

End ProviderDown.

(** X14. When the provider never answers successfully (it is down, rejects
    the key, rate-limits everything or knows no company of the table), the
    job is not reported as failed: the run ends normally in the phase [done]
    with no employee found and no result row, and the download is an empty
    table. *)
Theorem run_job_provider_down :
  forall (provider : list Event -> Outcome) (fuel : nat) (job : Job),
    (forall tr, success (provider tr) = None) ->
    0 < fuel ->
    let s := snd (run_job provider fuel job) in
    fst (run_job provider fuel job) = Ok tt
    /\ phase (status s) = Done
    /\ employeesFound (status s) = 0
    /\ results s = []
    /\ download (Some s) = Table [].
Proof.
  intros provider fuel job Hnone Hfuel s. destruct fuel as [|fuel]; [lia|].
  destruct (run_job_without_success provider job Hnone fuel) as (Hok & Hph & Hemp & Hres).
  fold s in Hph, Hemp, Hres.
  split; [exact Hok|]. split; [exact Hph|]. split; [exact Hemp|]. split; [exact Hres|].
  unfold download.
  pose proof (run_job_outcome provider (S fuel) job) as Hout. cbv zeta in Hout.
  rewrite Hok in Hout. fold s in Hout. destruct Hout as [_ Hdone].
  rewrite Hdone, Hres. reflexivity.
Qed.

Lemma run_job_provider_down_witness :
  let s := snd (run_job out_of_service 1 (a_job (VStr (u "false")))) in
  fst (run_job out_of_service 1 (a_job (VStr (u "false")))) = Ok tt
  /\ phase (status s) = Done
  /\ employeesFound (status s) = 0
  /\ results s = []
  /\ download (Some s) = Table [].
Proof.
  apply (run_job_provider_down out_of_service (fuel := 1) (a_job (VStr (u "false")))).
  - intros tr. unfold out_of_service, scripted.
    destruct (length (requests tr) - 1) as [|[|[|[|[|n]]]]]; reflexivity.
  - lia.
Defined.

(** X15. An employee record without a profile URL (the field is missing,
    [null] or empty) costs no request and no wait and publishes nothing: when
    its work history can be read, exactly one row is appended, with empty
    email, email status and phone, and the counters stay as they were; when
    it cannot, the failure leaves the results untouched. *)
Theorem enrichEmployee_without_url :
  forall (provider : list Event -> Outcome) (job : Job) (co : Company)
         (fields : list (ustring * Value)) (t : Tally) (s : State),
    truthy (field (u "linkedin_url") fields) = false ->
    let r := enrichEmployee provider job co (VObj fields) t s in
    trace (snd r) = trace s
    /\ status (snd r) = status s
    /\ match fst r with
       | Ok t' =>
           t' = t
           /\ exists row,
               results (snd r) = results s ++ [VObj row]
               /\ field (u "person_linkedin_url") row = empty_string
               /\ field (u "email") row = empty_string
               /\ field (u "email_status") row = empty_string
               /\ field (u "phone_mobile") row = empty_string
       | Throw _ => results (snd r) = results s
       | OutOfFuel => False
       end.
Proof.
  intros provider job co fields t s Hno r. subst r.
  pose (Post := fun p : Res Tally * State =>
                  trace (snd p) = trace s
                  /\ status (snd p) = status s
                  /\ match fst p with
                     | Ok t' =>
                         t' = t
                         /\ exists row,
                             results (snd p) = results s ++ [VObj row]
                             /\ field (u "person_linkedin_url") row = empty_string
                             /\ field (u "email") row = empty_string
                             /\ field (u "email_status") row = empty_string
                             /\ field (u "phone_mobile") row = empty_string
                     | Throw _ => results (snd p) = results s
                     | OutOfFuel => False
                     end).
  change (Post (enrichEmployee provider job co (VObj fields) t s)).
  assert (Hli : or_else (field (u "linkedin_url") fields) empty_string = empty_string).
  { unfold or_else. rewrite Hno. reflexivity. }
  assert (Hloc : truthy (or_else (field (u "location") fields) empty_object) = true).
  { unfold or_else. destruct (truthy (field (u "location") fields)) eqn:H; [exact H|reflexivity]. }
  unfold enrichEmployee, get_or_empty. cbn [get]. cbv [bind ret]. rewrite Hli.
  cbn [truthy empty_string JsString.is_empty negb].
  destruct (returns_getCurrentExperience
              (or_else (field (u "experiences") fields) (VArr [])) (companyUrl co) s)
    as [Hs Hr].
  destruct (getCurrentExperience (or_else (field (u "experiences") fields) (VArr []))
              (companyUrl co) s) as [[currentExp|e|] s1] eqn:Hgce; cbn [fst snd] in *;
    subst s1.
  - assert (Hdone : forall jobTitle city state country connections,
               Post (Ok t,
                     {| status := status s;
                        results :=
                          results s
                          ++ [VObj [(u "company_name", VStr (companyName co));
                                    (u "company_linkedin_url", VStr (companyUrl co));
                                    (u "company_domain", VStr (companyDomain co));
                                    (u "company_location", VStr (companyLocation co));
                                    (u "company_size", VStr (companySize co));
                                    (u "full_name",
                                     or_else (field (u "full_name") fields) empty_string);
                                    (u "first_name",
                                     or_else (field (u "first_name") fields) empty_string);
                                    (u "last_name",
                                     or_else (field (u "last_name") fields) empty_string);
                                    (u "job_title", jobTitle);
                                    (u "headline",
                                     or_else (field (u "headline") fields) empty_string);
                                    (u "person_linkedin_url", empty_string);
                                    (u "city", city); (u "state", state);
                                    (u "country", country);
                                    (u "email", empty_string);
                                    (u "email_status", empty_string);
                                    (u "phone_mobile", empty_string);
                                    (u "connections_count", connections)]];
                        trace := trace s |})).
    { intros jobTitle city state country connections. unfold Post. cbn [fst snd trace status results].
      split; [reflexivity|]. split; [reflexivity|]. split; [reflexivity|].
      eexists. split; [reflexivity|]. repeat split; reflexivity. }
    destruct currentExp as [| | | | | |exp]; try discriminate Hr; cbn [get]; unfold ret;
      destruct (or_else (field (u "location") fields) empty_object) as [| | | | | |loc];
      try discriminate Hloc; cbn [get]; unfold ret;
      match goal with
      | |- context [truthy ?v] => destruct (truthy v)
      end; unfold push_result; apply Hdone.
  - unfold Post. cbn [fst snd]. repeat split; reflexivity.
  - exfalso.
    apply (getCurrentExperience_ends
             (or_else (field (u "experiences") fields) (VArr [])) (companyUrl co) s).
    rewrite Hgce. reflexivity.
Qed.

Lemma enrichEmployee_without_url_witness :
  let r := enrichEmployee always_unavailable (a_job (VStr (u "false"))) acme
             anonymous_employee {| employees := 1; emails := 0; phones := 0 |} idle_state in
  trace (snd r) = [] /\ length (results (snd r)) = 1.
Proof.
  intros r.
  destruct (enrichEmployee_without_url always_unavailable (a_job (VStr (u "false"))) acme
              [(u "full_name", VStr (u "Alan Turing")); (u "headline", VStr (u "Researcher"))]
              {| employees := 1; emails := 0; phones := 0 |} idle_state eq_refl)
    as (Htrace & _ & _).
  split; [exact Htrace|reflexivity].
Defined.

(** ** The counters and the table *)

Lemma run_job_counters provider fuel job :
  let s := snd (run_job provider fuel job) in
  phase (status s) = Done ->
  emailsFound (status s) = with_cell (u "email") (results s)
  /\ phonesFound (status s) = with_cell (u "phone_mobile") (results s).
Proof.
  assert (Hout := run_job_outcome provider fuel job).
  unfold run_job, startEnrichment, catch in *.
  destruct (@triple_runEnrichment provider job fuel (initial_state job) (JobInv_initial job))
    as [_ Hq].
  { split; reflexivity. }
  destruct (runEnrichment provider fuel job (initial_state job)) as [[[]|e|] s1];
    cbn [fst snd] in *.
  - intros _. destruct Hq as (_ & _ & Hem & Hph). split; assumption.
  - cbn. discriminate.
  - destruct Hout as [Hph _]. rewrite Hph. discriminate.
Qed.

(** X22. When a job ends in phase [done], its counters agree with its
    table: emailsFound is the number of result rows with a non-empty email
    cell and phonesFound the number of rows with a non-empty phone cell. *)
Theorem done_counters_match_rows :
  forall (provider : list Event -> Outcome) (fuel : nat) (job : Job),
    let s := snd (run_job provider fuel job) in
    phase (status s) = Done ->
    emailsFound (status s) = with_cell (u "email") (results s)
    /\ phonesFound (status s) = with_cell (u "phone_mobile") (results s).
Proof. intros provider fuel job. apply run_job_counters. Qed.

Lemma done_counters_match_rows_witness :
  let s := snd (run_job a_small_company 2 (a_job (VStr (u "false")))) in
  (length (results s) = 2 /\ emailsFound (status s) = 1 /\ phonesFound (status s) = 0)
  /\ emailsFound (status s) = with_cell (u "email") (results s)
  /\ phonesFound (status s) = with_cell (u "phone_mobile") (results s).
Proof.
  split.
  - split; [reflexivity|split; reflexivity].
  - apply (done_counters_match_rows a_small_company 2 (a_job (VStr (u "false")))).
    reflexivity.
Defined.

(** * The slug of a company URL *)

Lemma split_from_no_match sep :
  forall s cur,
    JsString.includes sep s = false ->
    JsString.split_from sep 0 cur s = [rev cur ++ s].
Proof.
  induction s as [|c s IH]; intros cur H.
  - simpl. rewrite app_nil_r. reflexivity.
  - cbn [JsString.includes] in H. apply orb_false_iff in H as [Hstart Hrest].
    cbn [JsString.split_from]. rewrite Hstart. rewrite (IH (c :: cur) Hrest).
    cbn [rev]. rewrite <- app_assoc. reflexivity.
Qed.

Lemma split_from_skip sep rest :
  forall p cur,
    JsString.split_from sep (length p) cur (p ++ rest) = JsString.split_from sep 0 cur rest.
Proof.
  induction p as [|c p IH]; intros cur; [reflexivity|].
  cbn [length app JsString.split_from]. apply IH.
Qed.

Lemma starts_with_self sep rest : JsString.starts_with sep (sep ++ rest) = true.
Proof.
  induction sep as [|c sep IH]; [reflexivity|].
  cbn [app JsString.starts_with]. rewrite N.eqb_refl, IH. reflexivity.
Qed.

Lemma split_from_prefix sep rest :
  sep <> [] ->
  forall p cur,
    (forall q1 q2, p = q1 ++ q2 -> q2 <> [] ->
                   JsString.starts_with sep (q2 ++ sep ++ rest) = false) ->
    JsString.split_from sep 0 cur (p ++ sep ++ rest)
    = (rev cur ++ p) :: JsString.split_from sep 0 [] rest.
Proof.
  intros Hsep. induction p as [|c p IH]; intros cur Hfirst.
  - destruct sep as [|d sep]; [contradiction|].
    cbn [app]. rewrite app_nil_r.
    change (JsString.split_from (d :: sep) 0 cur (d :: sep ++ rest))
      with (if JsString.starts_with (d :: sep) ((d :: sep) ++ rest)
            then rev cur :: JsString.split_from (d :: sep) (length (d :: sep) - 1) []
                              (sep ++ rest)
            else JsString.split_from (d :: sep) 0 (d :: cur) (sep ++ rest)).
    rewrite starts_with_self. cbn [length].
    replace (S (length sep) - 1) with (length sep) by lia.
    rewrite split_from_skip. reflexivity.
  - cbn [app JsString.split_from].
    assert (H0 := Hfirst [] (c :: p) eq_refl ltac:(discriminate)).
    cbn [app] in H0. rewrite H0.
    rewrite IH.
    + cbn [rev]. rewrite <- app_assoc. reflexivity.
    + intros q1 q2 Hp Hq. apply (Hfirst (c :: q1) q2); [|exact Hq].
      rewrite Hp. reflexivity.
Qed.

Lemma strip_trailing_slash_last s :
  forall c,
    JsString.strip_trailing_slash (s ++ [c])
    = if N.eqb c JsString.slash then s else s ++ [c].
Proof.
  induction s as [|d s IH]; intros c.
  - simpl. destruct (N.eqb c JsString.slash); reflexivity.
  - cbn [app]. change (JsString.strip_trailing_slash (d :: s ++ [c]))
      with (match s ++ [c] with
            | [] => if N.eqb d JsString.slash then [] else [d]
            | _ :: _ => d :: JsString.strip_trailing_slash (s ++ [c])
            end).
    destruct (s ++ [c]) eqn:Hs; [destruct s; discriminate Hs|].
    rewrite <- Hs, IH. destruct (N.eqb c JsString.slash); reflexivity.
Qed.

Lemma includes_suffix x q2 :
  forall q1, JsString.includes x q2 = true -> JsString.includes x (q1 ++ q2) = true.
Proof.
  induction q1 as [|c q1 IH]; intros H; [exact H|].
  cbn [app JsString.includes]. rewrite (IH H). apply orb_true_r.
Qed.

Lemma includes_starts x s : JsString.starts_with x s = true -> JsString.includes x s = true.
Proof. intros H. destruct s; cbn [JsString.includes]; rewrite H; reflexivity. Qed.

Lemma starts_with_app x :
  forall y s,
    JsString.starts_with (x ++ y) s = true -> JsString.starts_with x s = true.
Proof.
  induction x as [|c x IH]; intros y s H; [reflexivity|].
  destruct s as [|d s]; [discriminate H|].
  cbn [app JsString.starts_with] in *. apply andb_true_iff in H as [H1 H2].
  rewrite H1, (IH _ _ H2). reflexivity.
Qed.

Lemma starts_with_long x :
  forall q t,
    length x <= length q ->
    JsString.starts_with x (q ++ t) = JsString.starts_with x q.
Proof.
  induction x as [|c x IH]; intros q t Hlen; [reflexivity|].
  destruct q as [|d q]; [simpl in Hlen; lia|].
  cbn [app JsString.starts_with]. rewrite IH; [reflexivity|]. simpl in Hlen. lia.
Qed.

Lemma no_slash_no_marker seg :
  Forall (fun c => c <> JsString.slash) seg ->
  JsString.includes (u "/company/") seg = false.
Proof.
  induction 1 as [|c seg Hc _ IH]; [reflexivity|].
  cbn [JsString.includes]. rewrite IH, orb_false_r.
  change (u "/company/") with (JsString.slash :: u "company/").
  cbn [JsString.starts_with].
  destruct (N.eqb_spec JsString.slash c) as [<-|_]; [contradiction|reflexivity].
Qed.

Lemma marker_not_early prefix rest :
  JsString.includes (u "/company") prefix = false ->
  forall q1 q2,
    prefix = q1 ++ q2 -> q2 <> [] ->
    JsString.starts_with (u "/company/") (q2 ++ u "/company/" ++ rest) = false.
Proof.
  intros Hprefix q1 q2 Hp Hq.
  destruct (JsString.starts_with (u "/company/") (q2 ++ u "/company/" ++ rest)) eqn:H;
    [exfalso|reflexivity].
  destruct (Nat.le_gt_cases 8 (length q2)) as [Hlong | Hshort].
  - change (u "/company/") with (u "/company" ++ [JsString.slash]) in H at 1.
    apply starts_with_app in H. rewrite starts_with_long in H by exact Hlong.
    apply includes_starts in H. apply (includes_suffix _ _ q1) in H.
    rewrite <- Hp, Hprefix in H. discriminate H.
  - destruct q2 as [|a1 [|a2 [|a3 [|a4 [|a5 [|a6 [|a7 [|a8 q2]]]]]]]];
      try contradiction; try (simpl in Hshort; lia);
      vm_compute in H;
      repeat match type of H with
             | (if ?b then _ else _) = true => destruct b; try discriminate H
             end.
Qed.

(** X16. For a company URL of the usual form, a prefix without "/company"
    followed by "/company/" and a non-empty segment without "/", with or
    without one trailing "/", the slug the Experience Resolver matches on is
    exactly that segment. *)
Theorem slug_of_company_url :
  forall (prefix seg : ustring),
    JsString.includes (u "/company") prefix = false ->
    seg <> [] ->
    Forall (fun c => c <> JsString.slash) seg ->
    slug_of (prefix ++ u "/company/" ++ seg) = seg
    /\ slug_of (prefix ++ u "/company/" ++ seg ++ [JsString.slash]) = seg.
Proof.
  intros prefix seg Hprefix Hseg Hslash.
  assert (Hsplit : JsString.pop (JsString.split (u "/company/") (prefix ++ u "/company/" ++ seg))
                   = seg).
  { unfold JsString.split.
    rewrite split_from_prefix;
      [|discriminate|apply marker_not_early; exact Hprefix].
    rewrite split_from_no_match by (apply no_slash_no_marker; exact Hslash).
    reflexivity. }
  destruct (exists_last Hseg) as (seg' & c & ->).
  assert (Hc : N.eqb c JsString.slash = false).
  { apply Forall_app in Hslash as [_ Hc]. apply Forall_inv in Hc.
    apply N.eqb_neq. exact Hc. }
  unfold slug_of. split.
  - replace (prefix ++ u "/company/" ++ seg' ++ [c])
      with ((prefix ++ u "/company/" ++ seg') ++ [c]) by (rewrite <- !app_assoc; reflexivity).
    rewrite strip_trailing_slash_last, Hc.
    rewrite <- !app_assoc. exact Hsplit.
  - replace (prefix ++ u "/company/" ++ (seg' ++ [c]) ++ [JsString.slash])
      with ((prefix ++ u "/company/" ++ seg' ++ [c]) ++ [JsString.slash])
      by (rewrite <- !app_assoc; reflexivity).
    rewrite strip_trailing_slash_last, N.eqb_refl. exact Hsplit.
Qed.

Lemma slug_of_company_url_witness :
  slug_of (u "https://www.linkedin.com" ++ u "/company/" ++ u "acme-corp") = u "acme-corp"
  /\ slug_of (u "https://www.linkedin.com" ++ u "/company/" ++ u "acme-corp"
              ++ [JsString.slash]) = u "acme-corp".
Proof.
  apply (slug_of_company_url (u "https://www.linkedin.com") (seg := u "acme-corp")).
  - reflexivity.
  - discriminate.
  - repeat constructor; discriminate.
Defined.

(** * The progress channel *)

Lemma inbox_written res ch ch' w :
  Stream.written ch' = Stream.written ch ++ w ->
  Stream.inbox res ch'
  = Stream.inbox res ch ++ map snd (filter (fun p => Nat.eqb (fst p) res) w).
Proof. intros H. unfold Stream.inbox. rewrite H, filter_app, map_app. reflexivity. Qed.

Ltac inbox_step res ch :=
  match goal with
  | |- context [Stream.inbox res ?c'] => rewrite (@inbox_written res ch c' _ eq_refl)
  end.

Lemma frames_app a :
  forall b, Stream.frames (a ++ b) = Stream.frames a ++ Stream.frames b.
Proof.
  induction a as [|[st| |] a IH]; intros b; cbn [app Stream.frames];
    rewrite ?IH; reflexivity.
Qed.

Lemma to_listeners res c ls :
  map snd (filter (fun p : nat * Stream.Chunk => Nat.eqb (fst p) res)
             (map (fun l => (l, c)) ls))
  = repeat c (count_occ Nat.eq_dec ls res).
Proof.
  induction ls as [|l ls IH]; [reflexivity|].
  cbn [map filter fst count_occ].
  destruct (Nat.eqb_spec l res) as [->|Hne].
  - destruct (Nat.eq_dec res res) as [_|Hn]; [|contradiction].
    cbn [map snd repeat]. rewrite IH. reflexivity.
  - destruct (Nat.eq_dec l res) as [He|_]; [contradiction|]. exact IH.
Qed.

Lemma count_occ_filter_keep (f : nat -> bool) x :
  f x = true ->
  forall l, count_occ Nat.eq_dec (filter f l) x = count_occ Nat.eq_dec l x.
Proof.
  intros Hf. induction l as [|y l IH]; [reflexivity|].
  cbn [filter count_occ]. destruct (Nat.eq_dec y x) as [->|Hne].
  - rewrite Hf. cbn [count_occ]. destruct (Nat.eq_dec x x); [|contradiction].
    rewrite IH. reflexivity.
  - destruct (f y); [cbn [count_occ]; destruct (Nat.eq_dec y x); [contradiction|]|];
      exact IH.
Qed.

Lemma run_app a b ch : Stream.run (a ++ b) ch = Stream.run b (Stream.run a ch).
Proof. unfold Stream.run. apply fold_left_app. Qed.

Lemma status_step ch a :
  Stream.job_status (Stream.step ch a)
  = fold_left assign (Stream.updates [a]) (Stream.job_status ch).
Proof.
  destruct a as [r|r|r|up]; cbn [Stream.step Stream.updates fold_left]; try reflexivity.
  unfold Stream.heartbeat. destruct (existsb _ _); reflexivity.
Qed.

Lemma status_run acts :
  forall ch,
    Stream.job_status (Stream.run acts ch)
    = fold_left assign (Stream.updates acts) (Stream.job_status ch).
Proof.
  induction acts as [|a acts IH]; intros ch; [reflexivity|].
  change (Stream.run (a :: acts) ch) with (Stream.run acts (Stream.step ch a)).
  rewrite IH, status_step.
  destruct a; reflexivity.
Qed.

Section OneListener.

Variable res : nat.

Lemma step_absent ch a :
  absent res ch -> a <> Stream.Connect res ->
  absent res (Stream.step ch a) /\ Stream.inbox res (Stream.step ch a) = Stream.inbox res ch.
Proof.
  intros [Hl Hh] Ha. destruct a as [r|r|r|up]; cbn [Stream.step].
  - assert (Hr : r <> res) by (intros ->; apply Ha; reflexivity).
    split; [split|].
    + cbn [Stream.listeners Stream.subscribe]. rewrite in_app_iff.
      intros [H|[H|[]]]; auto.
    + cbn [Stream.heartbeats Stream.subscribe]. intros [H|H]; auto.
    + inbox_step res ch. cbn [filter fst].
      destruct (Nat.eqb_spec r res) as [He|_]; [contradiction|].
      apply app_nil_r.
  - unfold Stream.close. split; [split|reflexivity].
    + cbn [Stream.listeners]. rewrite filter_In. intros [H _]. auto.
    + cbn [Stream.heartbeats]. rewrite filter_In. intros [H _]. auto.
  - unfold Stream.heartbeat.
    destruct (existsb (Nat.eqb r) (Stream.heartbeats ch)) eqn:Hex;
      [|split; [split; assumption|reflexivity]].
    assert (Hr : r <> res).
    { intros ->. apply existsb_exists in Hex as (x & Hin & Hx).
      apply Nat.eqb_eq in Hx. subst x. auto. }
    split; [split; assumption|].
    inbox_step res ch. cbn [filter fst].
    destruct (Nat.eqb_spec r res) as [He|_]; [contradiction|].
    apply app_nil_r.
  - split; [split; assumption|].
    inbox_step res ch. rewrite to_listeners.
    rewrite (proj1 (count_occ_not_In Nat.eq_dec _ _) Hl). apply app_nil_r.
Qed.

Lemma run_absent acts :
  forall ch,
    absent res ch -> ~ In (Stream.Connect res) acts ->
    absent res (Stream.run acts ch) /\ Stream.inbox res (Stream.run acts ch) = Stream.inbox res ch.
Proof.
  induction acts as [|a acts IH]; intros ch Hab Hno; [split; [assumption|reflexivity]|].
  destruct (@step_absent ch a Hab) as [Hab' Hin'].
  { intros ->. apply Hno. left. reflexivity. }
  destruct (IH (Stream.step ch a) Hab') as [Hab'' Hin''].
  { intros H. apply Hno. right. exact H. }
  change (Stream.run (a :: acts) ch) with (Stream.run acts (Stream.step ch a)).
  split; [assumption|]. rewrite Hin''. exact Hin'.
Qed.

Lemma step_attached ch a :
  attached res ch -> a <> Stream.Connect res -> a <> Stream.Close res ->
  attached res (Stream.step ch a)
  /\ exists extra,
       Stream.inbox res (Stream.step ch a) = Stream.inbox res ch ++ extra
       /\ Forall (fun c => c <> Stream.JobNotFound) extra
       /\ Stream.frames extra
          = Stream.snapshots_from (Stream.job_status ch) (Stream.updates [a]).
Proof.
  unfold attached. intros Hat Hc Hx. destruct a as [r|r|r|up]; cbn [Stream.step].
  - assert (Hr : r <> res) by (intros ->; apply Hc; reflexivity).
    split.
    + cbn [Stream.listeners Stream.subscribe]. rewrite count_occ_app. cbn [count_occ].
      destruct (Nat.eq_dec r res); [contradiction|]. lia.
    + exists []. inbox_step res ch. cbn [filter fst].
      destruct (Nat.eqb_spec r res) as [He|_]; [contradiction|].
      split; [reflexivity|split; [constructor|reflexivity]].
  - assert (Hr : r <> res) by (intros ->; apply Hx; reflexivity).
    unfold Stream.close. split.
    + cbn [Stream.listeners]. rewrite count_occ_filter_keep; [exact Hat|].
      destruct (Nat.eqb_spec res r) as [He|_]; [congruence|reflexivity].
    + exists []. rewrite app_nil_r. split; [reflexivity|split; [constructor|reflexivity]].
  - unfold Stream.heartbeat.
    destruct (existsb (Nat.eqb r) (Stream.heartbeats ch)).
    + split; [exact Hat|].
      exists (map snd (filter (fun p : nat * Stream.Chunk => Nat.eqb (fst p) res)
                         [(r, Stream.Ping)])).
      inbox_step res ch. split; [reflexivity|].
      cbn [filter fst]. destruct (Nat.eqb r res); split;
        repeat constructor; discriminate.
    + split; [exact Hat|]. exists []. rewrite app_nil_r.
      split; [reflexivity|split; [constructor|reflexivity]].
  - split; [exact Hat|].
    exists [Stream.Data (assign (Stream.job_status ch) up)].
    inbox_step res ch. rewrite to_listeners, Hat.
    split; [reflexivity|split; [|reflexivity]].
    repeat constructor; discriminate.
Qed.

Lemma run_attached acts :
  forall ch,
    attached res ch -> ~ In (Stream.Connect res) acts -> ~ In (Stream.Close res) acts ->
    attached res (Stream.run acts ch)
    /\ exists extra,
         Stream.inbox res (Stream.run acts ch) = Stream.inbox res ch ++ extra
         /\ Forall (fun c => c <> Stream.JobNotFound) extra
         /\ Stream.frames extra
            = Stream.snapshots_from (Stream.job_status ch) (Stream.updates acts).
Proof.
  induction acts as [|a acts IH]; intros ch Hat Hc Hx.
  - split; [exact Hat|]. exists []. rewrite app_nil_r.
    split; [reflexivity|split; [constructor|reflexivity]].
  - destruct (@step_attached ch a Hat) as (Hat' & e1 & Hin1 & Hn1 & Hf1).
    { intros ->. apply Hc. left. reflexivity. }
    { intros ->. apply Hx. left. reflexivity. }
    destruct (IH (Stream.step ch a) Hat') as (Hat'' & e2 & Hin2 & Hn2 & Hf2).
    { intros H. apply Hc. right. exact H. }
    { intros H. apply Hx. right. exact H. }
    change (Stream.run (a :: acts) ch) with (Stream.run acts (Stream.step ch a)).
    split; [exact Hat''|]. exists (e1 ++ e2).
    rewrite Hin2, Hin1, <- app_assoc, frames_app, Hf1, Hf2, status_step.
    split; [reflexivity|split; [apply Forall_app; split; assumption|]].
    destruct a as [r|r|r|up]; reflexivity.
Qed.

End OneListener.

(** X17. A client that opens the progress stream of a job and later closes
    it is sent, first, the status the job has when it connects, which is
    the initial status with all earlier updates applied, and then, in
    order, the status after each update broadcast while it is connected,
    with nothing but heartbeats in between; nothing is written to it before
    it connects or after it has closed, whatever other clients do. *)
Theorem progress_stream_frames :
  forall (st0 : Status) (res : nat) (before during after : list Stream.Action),
    ~ In (Stream.Connect res) before ->
    ~ In (Stream.Connect res) during ->
    ~ In (Stream.Close res) during ->
    ~ In (Stream.Connect res) after ->
    let at_connect := fold_left assign (Stream.updates before) st0 in
    Stream.inbox res (Stream.run before (Stream.create st0)) = []
    /\ exists extra,
         Stream.inbox res
           (Stream.run (before ++ Stream.Connect res :: during ++ Stream.Close res :: after)
              (Stream.create st0))
         = Stream.Data at_connect :: extra
         /\ Stream.inbox res
              (Stream.run (before ++ Stream.Connect res :: during) (Stream.create st0))
            = Stream.Data at_connect :: extra
         /\ Forall (fun c => c <> Stream.JobNotFound) extra
         /\ Stream.frames extra
            = Stream.snapshots_from at_connect (Stream.updates during).
Proof.
  intros st0 res before during after Hb Hd Hx Ha at_connect.
  assert (H0 : absent res (Stream.create st0)) by (split; intros []).
  destruct (@run_absent res before _ H0 Hb) as [[Hl1 Hh1] Hin1].
  change (Stream.inbox res (Stream.create st0)) with (@nil Stream.Chunk) in Hin1.
  split; [exact Hin1|].
  assert (Hst1 : Stream.job_status (Stream.run before (Stream.create st0)) = at_connect)
    by apply status_run.
  set (ch1 := Stream.run before (Stream.create st0)) in *.
  assert (Hat : attached res (Stream.subscribe res ch1)).
  { unfold attached, Stream.subscribe. cbn [Stream.listeners].
    rewrite count_occ_app. cbn [count_occ].
    destruct (Nat.eq_dec res res); [|contradiction].
    rewrite (proj1 (count_occ_not_In Nat.eq_dec _ _) Hl1). reflexivity. }
  destruct (@run_attached res during _ Hat Hd Hx) as (Hat2 & extra & Hin2 & Hn2 & Hf2).
  assert (Hsub : Stream.inbox res (Stream.subscribe res ch1) = [Stream.Data at_connect]).
  { rewrite (@inbox_written res ch1 (Stream.subscribe res ch1) _ eq_refl), Hin1.
    cbn [filter fst map snd app]. rewrite Nat.eqb_refl, Hst1. reflexivity. }
  rewrite Hsub in Hin2.
  change (Stream.job_status (Stream.subscribe res ch1)) with (Stream.job_status ch1) in Hf2.
  rewrite Hst1 in Hf2.
  set (ch2 := Stream.run during (Stream.subscribe res ch1)) in *.
  assert (Hab3 : absent res (Stream.close res ch2)).
  { unfold absent, Stream.close. cbn [Stream.listeners Stream.heartbeats].
    split; rewrite filter_In; intros [_ H]; rewrite Nat.eqb_refl in H; discriminate H. }
  destruct (@run_absent res after _ Hab3 Ha) as [_ Hin3].
  exists extra.
  assert (Hopen : Stream.run (before ++ Stream.Connect res :: during) (Stream.create st0)
                  = ch2).
  { rewrite run_app. reflexivity. }
  assert (Hall : Stream.run (before ++ Stream.Connect res :: during ++ Stream.Close res :: after)
                   (Stream.create st0)
                 = Stream.run after (Stream.close res ch2)).
  { rewrite run_app. fold ch1.
    change (Stream.run (Stream.Connect res :: during ++ Stream.Close res :: after) ch1)
      with (Stream.run (during ++ Stream.Close res :: after) (Stream.subscribe res ch1)).
    rewrite run_app. reflexivity. }
  rewrite Hall, Hopen, Hin3.
  change (Stream.inbox res (Stream.close res ch2)) with (Stream.inbox res ch2).
  split; [exact Hin2|split; [exact Hin2|split; assumption]].
Qed.

Lemma progress_stream_frames_witness :
  exists extra,
    Stream.inbox 1
      (Stream.run ([Stream.Publish update_enriching; Stream.Connect 0]
                   ++ Stream.Connect 1
                   :: [Stream.Publish (update_employees 2); Stream.Tick 1; Stream.Close 0]
                   ++ Stream.Close 1 :: [Stream.Publish (update_emails 1)])
         (Stream.create (initial_status a_table)))
    = Stream.Data (assign (initial_status a_table) update_enriching) :: extra
    /\ Stream.frames extra
       = [assign (assign (initial_status a_table) update_enriching) (update_employees 2)].
Proof.
  destruct (@progress_stream_frames (initial_status a_table) 1
              [Stream.Publish update_enriching; Stream.Connect 0]
              [Stream.Publish (update_employees 2); Stream.Tick 1; Stream.Close 0]
              [Stream.Publish (update_emails 1)])
    as (_ & extra & Hall & _ & _ & Hframes).
  - intros [H|[H|[]]]; discriminate H.
  - intros [H|[H|[H|[]]]]; discriminate H.
  - intros [H|[H|[H|[]]]]; discriminate H.
  - intros [H|[]]; discriminate H.
  - exists extra. split; [exact Hall|exact Hframes].
Defined.

Lemma last_frame_data chunks st :
  Stream.last_frame (chunks ++ [Stream.Data st]) = Some st.
Proof.
  unfold Stream.last_frame. rewrite frames_app, map_app. cbn [Stream.frames map].
  apply last_last.
Qed.

Lemma last_frame_repeat chunks st n :
  Stream.last_frame (chunks ++ repeat (Stream.Data st) (S n)) = Some st.
Proof.
  induction n as [|n IH] in chunks |- *.
  - apply last_frame_data.
  - change (repeat (Stream.Data st) (S (S n)))
      with ([Stream.Data st] ++ repeat (Stream.Data st) (S n)).
    rewrite app_assoc. apply IH.
Qed.

Lemma step_up_to_date ch a : up_to_date ch -> up_to_date (Stream.step ch a).
Proof.
  intros Hinv res. destruct a as [r|r|r|up]; cbn [Stream.step].
  - cbn [Stream.listeners Stream.subscribe Stream.job_status]. intros Hin.
    inbox_step res ch. cbn [filter fst].
    destruct (Nat.eqb_spec r res) as [->|Hne]; cbn [map snd].
    + apply last_frame_data.
    + rewrite app_nil_r. apply Hinv.
      apply in_app_iff in Hin as [H|[H|[]]]; [exact H|contradiction].
  - unfold Stream.close. cbn [Stream.listeners Stream.job_status]. intros Hin.
    apply filter_In in Hin as [Hin _]. apply (Hinv res Hin).
  - unfold Stream.heartbeat. destruct (existsb (Nat.eqb r) (Stream.heartbeats ch));
      [|apply Hinv].
    cbn [Stream.listeners Stream.job_status]. intros Hin.
    inbox_step res ch. cbn [filter fst].
    destruct (Nat.eqb r res); cbn [map snd]; [|rewrite app_nil_r; apply (Hinv res Hin)].
    unfold Stream.last_frame. rewrite frames_app. cbn [Stream.frames].
    rewrite app_nil_r. apply (Hinv res Hin).
  - cbn [Stream.listeners Stream.broadcast Stream.job_status]. intros Hin.
    inbox_step res ch. rewrite to_listeners.
    destruct (count_occ Nat.eq_dec (Stream.listeners ch) res) eqn:Hn.
    + apply count_occ_not_In in Hn. contradiction.
    + apply last_frame_repeat.
Qed.

Lemma run_up_to_date acts : forall ch, up_to_date ch -> up_to_date (Stream.run acts ch).
Proof.
  induction acts as [|a acts IH]; intros ch Hinv; [exact Hinv|].
  change (Stream.run (a :: acts) ch) with (Stream.run acts (Stream.step ch a)).
  apply IH, step_up_to_date, Hinv.
Qed.

(** X18. At any moment, whatever clients have connected and closed and
    whatever the job has broadcast, the last status written to each client
    that is still listening is the present status of the job, which is the
    initial status with all updates applied in order: no listener is left
    behind, and connections never alter the status. *)
Theorem open_listener_up_to_date :
  forall (st0 : Status) (acts : list Stream.Action) (res : nat),
    In res (Stream.listeners (Stream.run acts (Stream.create st0))) ->
    Stream.last_frame (Stream.inbox res (Stream.run acts (Stream.create st0)))
    = Some (Stream.job_status (Stream.run acts (Stream.create st0)))
    /\ Stream.job_status (Stream.run acts (Stream.create st0))
       = fold_left assign (Stream.updates acts) st0.
Proof.
  intros st0 acts res Hin. split; [|apply status_run].
  apply (@run_up_to_date acts (Stream.create st0)); [|exact Hin].
  intros r [].
Qed.

Lemma open_listener_up_to_date_witness :
  Stream.last_frame
    (Stream.inbox 1
       (Stream.run [Stream.Connect 0; Stream.Connect 1; Stream.Close 0;
                    Stream.Publish update_enriching; Stream.Tick 1]
          (Stream.create (initial_status a_table))))
  = Some (assign (initial_status a_table) update_enriching).
Proof.
  apply (@open_listener_up_to_date (initial_status a_table)
           [Stream.Connect 0; Stream.Connect 1; Stream.Close 0;
            Stream.Publish update_enriching; Stream.Tick 1] 1).
  left. reflexivity.
Defined.

(** * The submission route *)

Lemma or_header_cases a b h : or_header a b = Some h -> a = Some h \/ b = Some h.
Proof.
  destruct a as [x|]; cbn [or_header]; [destruct (JsString.is_empty x)|]; auto.
Qed.

Lemma or_header_found a b :
  (forall h, a = Some h -> JsString.is_empty h = false) ->
  or_header a b = match a with Some h => Some h | None => b end.
Proof.
  intros H. destruct a as [x|]; [|reflexivity].
  cbn [or_header]. rewrite (H x eq_refl). reflexivity.
Qed.

Lemma find_not_empty (f : ustring -> bool) headers h :
  f [] = false -> find f headers = Some h -> JsString.is_empty h = false.
Proof.
  intros Hf H. apply find_some in H as [_ H]. destruct h; [congruence|reflexivity].
Qed.

Lemma find_none_iff (f : ustring -> bool) headers :
  find f headers = None <-> Forall (fun h => f h = false) headers.
Proof.
  split.
  - intros H. apply Forall_forall. intros h Hin. apply (find_none _ _ H _ Hin).
  - induction 1 as [|h headers Hh _ IH]; [reflexivity|].
    cbn [find]. rewrite Hh. exact IH.
Qed.

Lemma lookup_header (row : Row) col : In col (headers_of row) -> lookup col row <> None.
Proof.
  unfold headers_of. induction row as [|[k v] row IH]; intros Hin; [destruct Hin|].
  cbn [lookup]. destruct (JsString.eqb k col) eqn:He; [discriminate|].
  destruct Hin as [Hk|Hin]; [|exact (IH Hin)].
  cbn [fst] in Hk. subst k.
  rewrite (proj2 (JsString_eqb_eq col col) eq_refl) in He. discriminate He.
Qed.

Lemma find_linkedinCol_header toLowerCase headers col :
  find_linkedinCol toLowerCase headers = Some col -> In col headers.
Proof.
  unfold find_linkedinCol. intros H.
  apply or_header_cases in H as [H|H]; [|apply or_header_cases in H as [H|H]];
    apply find_some in H as [H _]; exact H.
Qed.

Lemma detect_columns toLowerCase headers cols :
  detect toLowerCase headers = Some cols ->
  find_linkedinCol toLowerCase headers = Some (col_linkedin cols)
  /\ JsString.is_empty (col_linkedin cols) = false
  /\ Forall (fun c => forall h, c = Some h -> In h headers)
       [col_name cols; col_domain cols; col_location cols; col_size cols].
Proof.
  unfold detect. destruct (find_linkedinCol toLowerCase headers) as [col|]; [|discriminate].
  destruct (JsString.is_empty col) eqn:Hcol; [discriminate|].
  intros H. injection H as <-. cbn.
  split; [reflexivity|split; [exact Hcol|]].
  repeat constructor; intros h H; apply find_some in H as [H _]; exact H.
Qed.

Lemma submit_started toLowerCase up job total col :
  submit toLowerCase up = Started job total col ->
  exists k first more,
    up_file up = Some (Parsed (first :: more))
    /\ up_apiKey up = VStr k
    /\ rows job = first :: more
    /\ total = length (rows job)
    /\ apiKey job = JsString.trim k
    /\ JsString.is_empty (apiKey job) = false
    /\ skipPhone job = doSkipPhone (up_skipPhone up)
    /\ linkedinCol job = col
    /\ find_linkedinCol toLowerCase (headers_of first) = Some col
    /\ JsString.is_empty col = false
    /\ In col (headers_of first)
    /\ lookup col first <> None
    /\ Forall (fun c => forall h, c = Some h -> In h (headers_of first))
         [nameCol job; domainCol job; locationCol job; sizeCol job].
Proof.
  unfold submit. destruct (up_file up) as [file|]; [|discriminate].
  destruct (negb (truthy (up_apiKey up))); [discriminate|].
  destruct (up_apiKey up) as [| | | |k| |]; try discriminate.
  destruct (JsString.is_empty (JsString.trim k)) eqn:Hk; [discriminate|].
  destruct file as [message|[|first more]]; try discriminate.
  destruct (detect toLowerCase (headers_of first)) as [cols|] eqn:Hd; [|discriminate].
  intros H. injection H as <- <- <-.
  destruct (detect_columns _ _ Hd) as (Hfind & Hne & Hopt).
  assert (Hin := find_linkedinCol_header _ _ Hfind).
  exists k, first, more. cbn [createJob rows apiKey skipPhone linkedinCol nameCol domainCol
                                locationCol sizeCol].
  split; [reflexivity|]. split; [reflexivity|]. split; [reflexivity|].
  split; [reflexivity|]. split; [reflexivity|]. split; [exact Hk|].
  split; [reflexivity|]. split; [reflexivity|]. split; [exact Hfind|].
  split; [exact Hne|]. split; [exact Hin|]. split; [apply lookup_header, Hin|exact Hopt].
Qed.

(** X19. The submission route starts a job only for a file that parsed into
    at least one row and a key that is a string with something left after
    trimming. The job then holds the whole table, the trimmed key, which is
    not empty, the skip flag of the form, and a LinkedIn column that is a
    non-empty header of the first row, so that the first row has a cell in
    it; the optional columns it holds are headers of the first row too, and
    the total it answers is the number of rows. *)
Theorem submit_started_job :
  forall (toLowerCase : ustring -> ustring) (up : Upload) (job : Job) (total : nat)
         (col : ustring),
    submit toLowerCase up = Started job total col ->
    exists k first more,
      up_file up = Some (Parsed (first :: more))
      /\ up_apiKey up = VStr k
      /\ rows job = first :: more
      /\ total = length (rows job)
      /\ apiKey job = JsString.trim k
      /\ JsString.is_empty (apiKey job) = false
      /\ skipPhone job = doSkipPhone (up_skipPhone up)
      /\ linkedinCol job = col
      /\ JsString.is_empty col = false
      /\ In col (headers_of first)
      /\ lookup col first <> None
      /\ Forall (fun c => forall h, c = Some h -> In h (headers_of first))
           [nameCol job; domainCol job; locationCol job; sizeCol job].
Proof.
  intros toLowerCase up job total col H.
  destruct (submit_started _ _ H)
    as (k & first & more & H1 & H2 & H3 & H4 & H5 & H6 & H7 & H8 & _ & H9 & H10 & H11 & H12).
  exists k, first, more.
  split; [exact H1|]. split; [exact H2|]. split; [exact H3|]. split; [exact H4|].
  split; [exact H5|]. split; [exact H6|]. split; [exact H7|]. split; [exact H8|].
  split; [exact H9|]. split; [exact H10|]. split; [exact H11|exact H12].
Qed.

Lemma submit_started_job_witness :
  exists job,
    submit ascii_lower an_upload = Started job 1 (u "Company LinkedIn Url")
    /\ apiKey job = u "key-1"
    /\ skipPhone job = true
    /\ nameCol job = Some (u "Name").
Proof.
  exists (createJob a_table
            {| col_linkedin := u "Company LinkedIn Url"; col_name := Some (u "Name");
               col_domain := None; col_location := None; col_size := None |}
            (u " key-1 ") (VStr (u "true"))).
  assert (H : submit ascii_lower an_upload
              = Started (createJob a_table
                           {| col_linkedin := u "Company LinkedIn Url";
                              col_name := Some (u "Name");
                              col_domain := None; col_location := None; col_size := None |}
                           (u " key-1 ") (VStr (u "true")))
                  1 (u "Company LinkedIn Url")) by reflexivity.
  destruct (submit_started_job _ _ H) as (k & first & more & _ & Hk & _ & _ & Hkey & _).
  split; [exact H|]. split; [|split; reflexivity].
  rewrite Hkey. injection Hk as <-. reflexivity.
Defined.

(** X20. Column detection, for any lower-casing that maps the empty string
    to itself. The LinkedIn column is the first header that starts with
    "company linkedin", "linkedin url" or "linkedin profile" (letters in
    either case, the space being any one character or none); if there is
    none, the first header whose lower case contains "linkedin"; if there
    is none, the first header that is "url" in any letter case. A header of
    an earlier form wins wherever it stands. The column found is a
    non-empty header, and none is found, which is when the route refuses
    the file, exactly when no header has any of the three forms. *)
Theorem linkedin_column_priority :
  forall (toLowerCase : ustring -> ustring) (headers : list ustring),
    toLowerCase [] = [] ->
    find_linkedinCol toLowerCase headers
    = match find (test_start linkedin_re) headers,
            find (mentions_linkedin toLowerCase) headers with
      | Some h, _ => Some h
      | None, Some h => Some h
      | None, None => find (test_whole url_re) headers
      end
    /\ (forall h, find_linkedinCol toLowerCase headers = Some h ->
                  In h headers /\ JsString.is_empty h = false)
    /\ (detect toLowerCase headers = None <-> find_linkedinCol toLowerCase headers = None)
    /\ (find_linkedinCol toLowerCase headers = None <->
        Forall (fun h => test_start linkedin_re h = false
                         /\ mentions_linkedin toLowerCase h = false
                         /\ test_whole url_re h = false) headers).
Proof.
  intros toLowerCase headers Hempty.
  assert (Hm : mentions_linkedin toLowerCase [] = false).
  { unfold mentions_linkedin. rewrite Hempty. reflexivity. }
  assert (Hchain : find_linkedinCol toLowerCase headers
                   = match find (test_start linkedin_re) headers,
                           find (mentions_linkedin toLowerCase) headers with
                     | Some h, _ => Some h
                     | None, Some h => Some h
                     | None, None => find (test_whole url_re) headers
                     end).
  { unfold find_linkedinCol.
    rewrite or_header_found
      by (intros h H; apply (find_not_empty (test_start linkedin_re) headers);
          [reflexivity|exact H]).
    rewrite or_header_found
      by (intros h H; apply (find_not_empty (mentions_linkedin toLowerCase) headers);
          [exact Hm|exact H]).
    reflexivity. }
  assert (Hfound : forall h, find_linkedinCol toLowerCase headers = Some h ->
                             In h headers /\ JsString.is_empty h = false).
  { intros h H. split; [apply (find_linkedinCol_header _ _ H)|].
    rewrite Hchain in H.
    destruct (find (test_start linkedin_re) headers) as [h1|] eqn:H1.
    - injection H as <-. apply (find_not_empty _ _ eq_refl H1).
    - destruct (find (mentions_linkedin toLowerCase) headers) as [h2|] eqn:H2.
      + injection H as <-. apply (find_not_empty _ _ Hm H2).
      + apply (find_not_empty (test_whole url_re) headers); [reflexivity|exact H]. }
  split; [exact Hchain|]. split; [exact Hfound|]. split.
  - unfold detect. destruct (find_linkedinCol toLowerCase headers) as [h|] eqn:Hf.
    + destruct (Hfound h eq_refl) as [_ Hne]. rewrite Hne. split; discriminate.
    + split; reflexivity.
  - rewrite Hchain. split.
    + intros H.
      destruct (find (test_start linkedin_re) headers) eqn:H1; [discriminate|].
      destruct (find (mentions_linkedin toLowerCase) headers) eqn:H2; [discriminate|].
      apply find_none_iff in H1, H2, H.
      rewrite Forall_forall in *. intros h Hin. auto.
    + intros H.
      assert (H1 : find (test_start linkedin_re) headers = None).
      { apply find_none_iff. eapply Forall_impl; [|exact H]. intros h (A & _); exact A. }
      assert (H2 : find (mentions_linkedin toLowerCase) headers = None).
      { apply find_none_iff. eapply Forall_impl; [|exact H]. intros h (_ & A & _); exact A. }
      rewrite H1, H2. apply find_none_iff.
      eapply Forall_impl; [|exact H]. intros h (_ & _ & A); exact A.
Qed.

Lemma linkedin_column_priority_witness :
  find_linkedinCol ascii_lower
    [u "URL"; u "Our LinkedIn page"; u "company_linkedin_id"; u "LinkedIn URL"]
  = Some (u "company_linkedin_id").
Proof.
  destruct (@linkedin_column_priority ascii_lower
              [u "URL"; u "Our LinkedIn page"; u "company_linkedin_id"; u "LinkedIn URL"]
              eq_refl) as [H _].
  rewrite H. reflexivity.
Defined.

(** X21. Whatever the provider does, a job the submission route has started
    sends only requests that carry the trimmed key of the form, which is
    not empty, and every status it shows, the initial one included, has as
    companyTotal the total the route answered. *)
Theorem started_job_run :
  forall (toLowerCase : ustring -> ustring) (up : Upload) (job : Job) (total : nat)
         (col : ustring) (provider : list Event -> Outcome) (fuel : nat),
    submit toLowerCase up = Started job total col ->
    Forall (fun r => JsString.is_empty (key r) = false
                     /\ exists k, up_apiKey up = VStr k /\ key r = JsString.trim k)
      (requests (trace (snd (run_job provider fuel job))))
    /\ Forall (fun st => companyTotal st = total)
         (snapshots job (snd (run_job provider fuel job))).
Proof.
  intros toLowerCase up job total col provider fuel H.
  destruct (submit_started _ _ H)
    as (k & first & more & _ & Hk & _ & Htotal & Hkey & Hne & _).
  destruct (JobInv_run_job provider job fuel) as [(Hreq & Hsnap & _) _].
  split.
  - eapply Forall_impl; [|exact Hreq]. intros r [Hr _].
    rewrite Hr. split; [exact Hne|]. exists k. split; [exact Hk|exact Hkey].
  - unfold snapshots. constructor.
    + rewrite Htotal. reflexivity.
    + eapply Forall_impl; [|exact Hsnap]. intros st (Hst & _). rewrite Htotal. exact Hst.
Qed.

Lemma started_job_run_witness :
  Forall (fun st => companyTotal st = 1)
    (snapshots (createJob a_table
                  {| col_linkedin := u "Company LinkedIn Url"; col_name := Some (u "Name");
                     col_domain := None; col_location := None; col_size := None |}
                  (u " key-1 ") (VStr (u "true")))
       (snd (run_job out_of_service 10
               (createJob a_table
                  {| col_linkedin := u "Company LinkedIn Url"; col_name := Some (u "Name");
                     col_domain := None; col_location := None; col_size := None |}
                  (u " key-1 ") (VStr (u "true")))))).
Proof.
  apply (@started_job_run ascii_lower an_upload _ 1 (u "Company LinkedIn Url")
           out_of_service 10).
  reflexivity.
Defined.

(** * The skipPhone form field, from the submission to the requests *)

(** ** Computations that only add to the trace *)

Lemma extends_ret {A : Type} (a : A) : extends (ret a).
Proof. intros s. split; [reflexivity|]. exists []. symmetry. apply app_nil_r. Qed.

Lemma extends_bind {A B : Type} (m : M A) (k : A -> M B) :
  extends m -> (forall a, extends (k a)) -> extends (bind m k).
Proof.
  intros Hm Hk s. unfold bind. destruct (Hm s) as [Hr [ev1 H1]].
  destruct (m s) as [[a|e|] s1]; cbn [fst snd] in *.
  - destruct (Hk a s1) as [Hr2 [ev2 H2]]. split; [congruence|].
    exists (ev1 ++ ev2). rewrite H2, H1, app_assoc. reflexivity.
  - split; [exact Hr|]. exists ev1. exact H1.
  - split; [exact Hr|]. exists ev1. exact H1.
Qed.

Lemma extends_mute {A : Type} (Rq : Request -> Prop) (m : M A) : mute Rq m -> extends m.
Proof.
  intros Hm s. destruct (Hm s) as (ev & Hs & _). rewrite Hs.
  split; [reflexivity|]. exists ev. reflexivity.
Qed.

Lemma extends_returns {A : Type} (R : A -> Prop) (m : M A) : returns m R -> extends m.
Proof.
  intros Hm s. destruct (Hm s) as [Hs _]. rewrite Hs.
  split; [reflexivity|]. exists []. symmetry. apply app_nil_r.
Qed.

Lemma extends_broadcast up : extends (broadcast up).
Proof.
  intros s. split; [reflexivity|]. exists [EPublish (assign (status s) up)]. reflexivity.
Qed.

Lemma extends_sleep ms : extends (sleep ms).
Proof. intros s. split; [reflexivity|]. exists [ESleep ms]. reflexivity. Qed.

Lemma extends_get name v : extends (get name v).
Proof. apply (extends_returns (returns_get name v)). Qed.

Lemma extends_get_or_empty name v : extends (get_or_empty name v).
Proof. apply (extends_returns (returns_get_or_empty name v)). Qed.

Lemma extends_blitzPost provider ep payload k : extends (blitzPost provider ep payload k).
Proof.
  apply (extends_mute (Rq := fun _ => True)). apply mute_blitzPost. exact I.
Qed.

Lemma extends_enrichEmail provider job liUrl t : extends (enrichEmail provider job liUrl t).
Proof.
  unfold enrichEmail.
  apply extends_bind; [apply extends_blitzPost|]. intros emailData.
  apply extends_bind; [apply extends_get|]. intros e.
  apply extends_bind; [apply extends_get|]. intros es.
  apply extends_bind.
  - destruct (truthy (or_else e empty_string)); [|apply extends_ret].
    apply extends_bind; [apply extends_broadcast|]. intros ?. apply extends_ret.
  - intros t'. apply extends_bind; [apply extends_sleep|]. intros ?. apply extends_ret.
Qed.

Lemma extends_enrichPhone provider job liUrl t : extends (enrichPhone provider job liUrl t).
Proof.
  unfold enrichPhone. destruct (negb (skipPhone job)); [|apply extends_ret].
  apply extends_bind; [apply extends_blitzPost|]. intros phoneData.
  apply extends_bind; [apply extends_get|]. intros p.
  apply extends_bind.
  - destruct (truthy (or_else p empty_string)); [|apply extends_ret].
    apply extends_bind; [apply extends_broadcast|]. intros ?. apply extends_ret.
  - intros t'. apply extends_bind; [apply extends_sleep|]. intros ?. apply extends_ret.
Qed.

Lemma extends_grows {A : Type} (m : M A) : extends m -> grows m.
Proof. intros Hm s. destruct (Hm s) as [_ H]. exact H. Qed.

Lemma grows_push_result row : grows (push_result row).
Proof. intros s. exists []. symmetry. apply app_nil_r. Qed.

Lemma grows_enrichEmployee provider job co emp t :
  grows (enrichEmployee provider job co emp t).
Proof.
  unfold enrichEmployee.
  apply grows_bind; [apply extends_grows, extends_get_or_empty|]. intros liUrl.
  apply grows_bind; [apply grows_get|]. intros l.
  apply grows_bind; [apply grows_get|]. intros x.
  apply grows_bind;
    [apply extends_grows, (extends_returns (returns_getCurrentExperience _ _))|].
  intros currentExp.
  apply grows_bind; [apply grows_get|]. intros jt.
  apply grows_bind.
  { destruct (truthy jt); [apply grows_ret|apply extends_grows, extends_get_or_empty]. }
  intros jobTitle.
  apply grows_bind.
  { destruct (truthy liUrl); [|apply grows_ret].
    apply grows_bind; [apply extends_grows, extends_enrichEmail|].
    intros [[email emailStatus] t1].
    apply grows_bind; [apply extends_grows, extends_enrichPhone|].
    intros [phone t2]. apply grows_ret. }
  intros [[[email emailStatus] phone] t'].
  do 8 (apply grows_bind; [apply extends_grows, extends_get_or_empty|]; intros ?).
  apply grows_bind; [apply grows_push_result|]. intros ?. apply grows_ret.
Qed.

Lemma grows_enrichEmployees provider job co emps :
  forall t, grows (enrichEmployees provider job co emps t).
Proof.
  induction emps as [|emp emps IH]; intros t; cbn [enrichEmployees].
  - apply grows_ret.
  - apply grows_bind; [apply grows_enrichEmployee|]. exact IH.
Qed.

Lemma grows_enrichRows provider fuel job rest :
  forall i t, grows (enrichRows provider fuel job rest i t).
Proof.
  induction rest as [|row rest IH]; intros i t; cbn [enrichRows].
  - apply grows_ret.
  - apply grows_bind; [apply grows_broadcast|]. intros ?.
    destruct (JsString.is_empty (companyUrl (company_of job row))); [apply IH|].
    apply grows_bind;
      [apply extends_grows, (extends_mute (mute_findAllEmployees _ _ _ _))|].
    intros emps.
    apply grows_bind; [apply grows_broadcast|]. intros ?.
    apply grows_bind; [apply grows_enrichEmployees|]. intros t2. apply IH.
Qed.

(** ** Every row with a profile URL has had its phone looked up *)

Lemma looked_up_later job tr ev row : looked_up job tr row -> looked_up job (tr ++ ev) row.
Proof. intros H Hurl. apply in_or_app. left. exact (H Hurl). Qed.

Section PhoneLookups.

Variable provider : list Event -> Outcome.
Variable job : Job.
Hypothesis phones_wanted : skipPhone job = false.

Lemma keeps_bind {A B : Type} (P : list Event -> Prop) (m : M A)
    (Q1 : A -> list Event -> Prop) (k : A -> M B) (Q : B -> list Event -> Prop) :
  keeps job P m Q1 ->
  (forall a, keeps job (Q1 a) (k a) Q) ->
  keeps job P (bind m k) Q.
Proof.
  intros Hm Hk s Hinv Hp. unfold bind. destruct (Hm s Hinv Hp) as [Hinv1 Hq].
  destruct (m s) as [[a|e|] s1]; cbn [fst snd] in *.
  - apply (Hk a s1 Hinv1 Hq).
  - split; [exact Hinv1|exact I].
  - split; [exact Hinv1|exact I].
Qed.

Lemma keeps_extends {A : Type} (P : list Event -> Prop) (m : M A) :
  extends m ->
  (forall tr ev, P tr -> P (tr ++ ev)) ->
  keeps job P m (fun _ => P).
Proof.
  intros Hm Hmono s Hinv Hp. destruct (Hm s) as [Hr [ev Htr]].
  split.
  - unfold phones_looked_up in *. rewrite Hr, Htr.
    eapply Forall_impl; [|exact Hinv]. intros row. apply looked_up_later.
  - destruct (fst (m s)); try exact I. rewrite Htr. apply Hmono. exact Hp.
Qed.

Lemma keeps_ret {A : Type} (P : list Event -> Prop) (a : A)
    (Q : A -> list Event -> Prop) :
  (forall tr, P tr -> Q a tr) ->
  keeps job P (ret a) Q.
Proof. intros H s Hinv Hp. split; [exact Hinv|]. apply H. exact Hp. Qed.

Lemma keeps_push (P : list Event -> Prop) row :
  (forall tr, P tr -> looked_up job tr row) ->
  keeps job P (push_result row) (fun _ => P).
Proof.
  intros Hrow s Hinv Hp. split; [|exact Hp].
  unfold phones_looked_up. cbn [push_result snd results trace].
  apply Forall_app. split; [exact Hinv|]. constructor; [apply Hrow; exact Hp|constructor].
Qed.

Lemma keeps_enrichPhone liUrl t :
  keeps job (fun _ => True) (enrichPhone provider job liUrl t)
    (fun _ tr => In (EFetch (phone_request job liUrl)) tr).
Proof.
  intros s Hinv _.
  destruct (@keeps_extends _ (fun _ => True) _ (extends_enrichPhone provider job liUrl t)
              (fun _ _ _ => I) s Hinv I) as [Hinv1 _].
  split; [exact Hinv1|].
  destruct (enrichPhone_sends provider job liUrl t s phones_wanted) as [ev Hev].
  destruct (fst (enrichPhone provider job liUrl t s)); try exact I.
  rewrite Hev. apply in_or_app. right. left. reflexivity.
Qed.

Lemma keeps_enrichEmployee co emp t :
  keeps job (fun _ => True) (enrichEmployee provider job co emp t) (fun _ _ => True).
Proof.
  unfold enrichEmployee.
  eapply keeps_bind;
    [apply keeps_extends; [apply extends_get_or_empty|intros; exact I]|].
  intros liUrl.
  eapply keeps_bind; [apply keeps_extends; [apply extends_get|intros; exact I]|].
  intros l.
  eapply keeps_bind; [apply keeps_extends; [apply extends_get|intros; exact I]|].
  intros x.
  eapply keeps_bind;
    [apply keeps_extends;
     [apply (extends_returns (returns_getCurrentExperience _ _))|intros; exact I]|].
  intros currentExp.
  eapply keeps_bind; [apply keeps_extends; [apply extends_get|intros; exact I]|].
  intros jt.
  eapply keeps_bind.
  { apply keeps_extends; [|intros; exact I].
    destruct (truthy jt); [apply extends_ret|apply extends_get_or_empty]. }
  intros jobTitle.
  set (P := fun tr : list Event =>
              truthy liUrl = true -> In (EFetch (phone_request job liUrl)) tr).
  assert (Hmono : forall tr ev, P tr -> P (tr ++ ev)).
  { intros tr ev H Hli. apply in_or_app. left. exact (H Hli). }
  eapply keeps_bind with (Q1 := fun _ => P).
  { destruct (truthy liUrl) eqn:Hli.
    - eapply keeps_bind;
        [apply keeps_extends; [apply extends_enrichEmail|intros; exact I]|].
      intros [[email emailStatus] t1].
      eapply keeps_bind; [apply keeps_enrichPhone|].
      intros [phone t2]. apply keeps_ret. intros tr H _. exact H.
    - apply keeps_ret. intros tr _ H. discriminate H. }
  intros [[[email emailStatus] phone] t'].
  do 8 (eapply keeps_bind;
        [apply keeps_extends; [apply extends_get_or_empty|exact Hmono]|]; intros ?).
  eapply keeps_bind.
  - apply keeps_push. intros tr H. exact H.
  - intros ?. apply keeps_ret. intros; exact I.
Qed.

Lemma keeps_enrichEmployees co emps :
  forall t,
    keeps job (fun _ => True) (enrichEmployees provider job co emps t) (fun _ _ => True).
Proof.
  induction emps as [|emp emps IH]; intros t; cbn [enrichEmployees].
  - apply keeps_ret. intros; exact I.
  - eapply keeps_bind; [apply keeps_enrichEmployee|]. exact IH.
Qed.

Lemma keeps_enrichRows fuel rest :
  forall i t,
    keeps job (fun _ => True) (enrichRows provider fuel job rest i t) (fun _ _ => True).
Proof.
  induction rest as [|row rest IH]; intros i t; cbn [enrichRows].
  - apply keeps_ret. intros; exact I.
  - eapply keeps_bind;
      [apply keeps_extends; [apply extends_broadcast|intros; exact I]|].
    intros ?.
    destruct (JsString.is_empty (companyUrl (company_of job row))); [apply IH|].
    eapply keeps_bind;
      [apply keeps_extends;
       [apply (extends_mute (mute_findAllEmployees _ _ _ _))|intros; exact I]|].
    intros emps.
    eapply keeps_bind;
      [apply keeps_extends; [apply extends_broadcast|intros; exact I]|].
    intros ?.
    eapply keeps_bind; [apply keeps_enrichEmployees|]. intros t2. apply IH.
Qed.

Lemma phones_looked_up_run fuel : phones_looked_up job (snd (run_job provider fuel job)).
Proof.
  assert (Hrun : keeps job (fun _ => True) (runEnrichment provider fuel job)
                   (fun _ _ => True)).
  { unfold runEnrichment.
    eapply keeps_bind;
      [apply keeps_extends; [apply extends_broadcast|intros; exact I]|].
    intros ?.
    eapply keeps_bind; [apply keeps_enrichRows|]. intros t.
    apply keeps_extends; [apply extends_broadcast|intros; exact I]. }
  unfold run_job, startEnrichment, catch.
  destruct (Hrun (initial_state job)) as [Hinv _]; [constructor|exact I|].
  destruct (runEnrichment provider fuel job (initial_state job)) as [[[]|e|] s1];
    cbn [fst snd] in *; try exact Hinv.
  destruct (@keeps_extends _ (fun _ => True) _ (extends_broadcast (update_error e))
              (fun _ _ _ => I) s1 Hinv I) as [H _].
  exact H.
Qed.

End PhoneLookups.

(** ** The first employee of a job has their phone looked up *)

Lemma sent_bind_ok x {A B : Type} (m : M A) (k : A -> M B) s a s1 :
  m s = (Ok a, s1) -> sent x (k a) s1 -> sent x (bind m k) s.
Proof. unfold sent, bind. intros -> H. exact H. Qed.

Lemma sent_bind_first x {A B : Type} (m : M A) (k : A -> M B) s :
  sent x m s -> (forall a, grows (k a)) -> sent x (bind m k) s.
Proof.
  unfold sent, bind. intros H Hk. destruct (m s) as [[a|e|] s1]; cbn [snd] in *;
    try exact H.
  destruct (Hk a s1) as [ev ->]. apply in_or_app. left. exact H.
Qed.

Lemma sent_catch x {A : Type} (m : M A) (h : Exn -> M A) s :
  sent x m s -> (forall e, grows (h e)) -> sent x (catch m h) s.
Proof.
  unfold sent, catch. intros H Hh. destruct (m s) as [[a|e|] s1]; cbn [snd] in *;
    try exact H.
  destruct (Hh e s1) as [ev ->]. apply in_or_app. left. exact H.
Qed.

Lemma get_readable name v :
  v <> VNull -> v <> VUndefined -> exists w, forall s, get name v s = (Ok w, s).
Proof.
  intros Hn Hu. destruct v; try contradiction; cbn [get]; eexists; intros s0; reflexivity.
Qed.

Lemma enrichEmail_returns provider job liUrl t s :
  readable_bodies provider ->
  exists r s1, enrichEmail provider job liUrl t s = (Ok r, s1).
Proof.
  intros Hbodies. unfold enrichEmail.
  destruct (blitzPost_spec provider email_endpoint (person_body liUrl) (apiKey job) s)
    as (ev & v & c & Hrun & _ & _ & _ & Hv).
  assert (Hread : v <> VNull /\ v <> VUndefined).
  { destruct Hv as [-> | Hv]; [split; discriminate|].
    unfold success in Hv.
    destruct (provider (trace s ++ ev)) as [|code [w|]] eqn:Hans; try discriminate.
    destruct (ok code); [|discriminate]. injection Hv as ->.
    apply (Hbodies _ _ _ Hans). }
  destruct Hread as [Hn Hu].
  destruct (get_readable (u "email") Hn Hu) as [e He].
  destruct (get_readable (u "email_status") Hn Hu) as [es Hes].
  rewrite bind_unfold, Hrun, bind_unfold, He, bind_unfold, Hes.
  destruct (truthy (or_else e empty_string)); do 2 eexists; reflexivity.
Qed.

Lemma findAllEmployees_one_page provider fuel url k items s :
  0 < fuel ->
  answers_search provider url k items ->
  length items < PAGE_SIZE ->
  findAllEmployees provider fuel url k s
  = (Ok items, log (EFetch (search_request url k 1)) s).
Proof.
  intros Hfuel (code & fields & Hok & Hres & Hans) Hlen.
  destruct fuel as [|fuel]; [lia|].
  unfold findAllEmployees. cbn [findAllEmployees_from].
  rewrite bind_unfold, blitzPost_is_attempt_0. fold (search_request url k 1).
  rewrite (attempt_from_success provider (search_request url k 1) (attempt := 0) s
             (code := code) (v := VObj fields));
    [|unfold default_retries; lia|apply Hans|exact Hok].
  cbn [get]. rewrite bind_unfold. cbn [ret]. rewrite Hres.
  cbn [or_else truthy iterate length_of]. rewrite bind_unfold. cbn [ret app].
  apply Nat.ltb_lt in Hlen. rewrite Hlen. reflexivity.
Qed.

Section FirstEmployee.

Variable provider : list Event -> Outcome.
Variable job : Job.
Hypothesis phones_wanted : skipPhone job = false.
Hypothesis bodies : readable_bodies provider.

Lemma sent_enrichEmployee co emp t s :
  truthy (field (u "linkedin_url") emp) = true ->
  readable_history emp (companyUrl co) ->
  sent (EFetch (phone_request job (field (u "linkedin_url") emp)))
    (enrichEmployee provider job co (VObj emp) t) s.
Proof.
  intros Hli Hhist. unfold enrichEmployee.
  set (liUrl := field (u "linkedin_url") emp) in *.
  eapply sent_bind_ok.
  { unfold get_or_empty. rewrite bind_unfold. cbn [get ret]. fold liUrl.
    unfold or_else. rewrite Hli. reflexivity. }
  eapply sent_bind_ok; [reflexivity|].
  eapply sent_bind_ok; [reflexivity|].
  set (exps := or_else (field (u "experiences") emp) (VArr [])).
  destruct (returns_getCurrentExperience exps (companyUrl co) s) as [Hstate Htruthy].
  destruct (getCurrentExperience exps (companyUrl co) s) as [[ce|e|] s1] eqn:Hgce;
    cbn [fst snd] in *.
  2: { exfalso. apply (Hhist s e). fold exps. rewrite Hgce. reflexivity. }
  2: { exfalso. apply (@getCurrentExperience_ends exps (companyUrl co) s).
       rewrite Hgce. reflexivity. }
  subst s1.
  eapply sent_bind_ok; [exact Hgce|].
  destruct (@get_readable (u "job_title") ce) as [jt Hjt].
  { intros ->. discriminate Htruthy. }
  { intros ->. discriminate Htruthy. }
  eapply sent_bind_ok; [apply Hjt|].
  assert (Htitle : exists jobTitle,
             (if truthy jt then ret jt else get_or_empty (u "headline") (VObj emp)) s
             = (Ok jobTitle, s)).
  { destruct (truthy jt); eexists; reflexivity. }
  destruct Htitle as [jobTitle Htitle].
  eapply sent_bind_ok; [exact Htitle|].
  apply sent_bind_first.
  - rewrite Hli.
    destruct (enrichEmail_returns job liUrl t s bodies) as ([[email emailStatus] t1] & s2 & Hemail).
    eapply sent_bind_ok; [exact Hemail|].
    apply sent_bind_first.
    + unfold sent.
      destruct (enrichPhone_sends provider job liUrl t1 s2 phones_wanted) as [ev Hev].
      rewrite Hev. apply in_or_app. right. left. reflexivity.
    + intros [phone t2]. apply grows_ret.
  - intros [[[email emailStatus] phone] t'].
    do 8 (apply grows_bind; [apply extends_grows, extends_get_or_empty|]; intros ?).
    apply grows_bind; [apply grows_push_result|]. intros ?. apply grows_ret.
Qed.

Lemma sent_enrichRows fuel pre row post emp others :
  Forall (fun r => JsString.is_empty (companyUrl (company_of job r)) = true) pre ->
  JsString.is_empty (companyUrl (company_of job row)) = false ->
  0 < fuel ->
  answers_search provider (companyUrl (company_of job row)) (apiKey job)
    (VObj emp :: others) ->
  length (VObj emp :: others) < PAGE_SIZE ->
  truthy (field (u "linkedin_url") emp) = true ->
  readable_history emp (companyUrl (company_of job row)) ->
  forall i t s,
    sent (EFetch (phone_request job (field (u "linkedin_url") emp)))
      (enrichRows provider fuel job (pre ++ row :: post) i t) s.
Proof.
  intros Hpre Hrow Hfuel Hsearch Hlen Hli Hhist.
  induction Hpre as [|blank pre Hblank _ IH]; intros i t s; cbn [app enrichRows].
  - eapply sent_bind_ok; [reflexivity|]. rewrite Hrow.
    eapply sent_bind_ok.
    { apply findAllEmployees_one_page; [exact Hfuel|exact Hsearch|exact Hlen]. }
    eapply sent_bind_ok; [reflexivity|].
    apply sent_bind_first; [|intros t2; apply grows_enrichRows].
    cbn [enrichEmployees].
    apply sent_bind_first; [|intros t2; apply grows_enrichEmployees].
    apply sent_enrichEmployee; assumption.
  - eapply sent_bind_ok; [reflexivity|]. rewrite Hblank. apply IH.
Qed.

Lemma sent_run_job fuel pre row post emp others :
  rows job = pre ++ row :: post ->
  Forall (fun r => JsString.is_empty (companyUrl (company_of job r)) = true) pre ->
  JsString.is_empty (companyUrl (company_of job row)) = false ->
  0 < fuel ->
  answers_search provider (companyUrl (company_of job row)) (apiKey job)
    (VObj emp :: others) ->
  length (VObj emp :: others) < PAGE_SIZE ->
  truthy (field (u "linkedin_url") emp) = true ->
  readable_history emp (companyUrl (company_of job row)) ->
  In (EFetch (phone_request job (field (u "linkedin_url") emp)))
    (trace (snd (run_job provider fuel job))).
Proof.
  intros Hrows Hpre Hrow Hfuel Hsearch Hlen Hli Hhist.
  change (sent (EFetch (phone_request job (field (u "linkedin_url") emp)))
            (startEnrichment provider fuel job) (initial_state job)).
  unfold startEnrichment, runEnrichment.
  apply sent_catch; [|intros e; apply grows_broadcast].
  eapply sent_bind_ok; [reflexivity|].
  apply sent_bind_first; [|intros t; apply grows_broadcast].
  rewrite Hrows. eapply sent_enrichRows; eassumption.
Qed.

End FirstEmployee.


